(** * HC-SR04 ultrasonic range finder driver

    A shallow embedding of the Arduino UNO driver: the abstract base class
    [IHCSR04] (configuration setters, cycle guard, distance conversion), the
    blocking polling engine [HCSR04_Polling] and the interrupt engine
    [HCSR04_Interrupt].

    Modelling conventions.
    - [unsigned long] is the 32-bit unsigned type of the target; values are
      integers of [Z] in [0, 2^32) and the only arithmetic the driver does on
      them that can leave the range, subtraction, is written with its
      wrap-around ([usub]).  [uint8_t] pin numbers are integers of [Z].
    - [float] is IEEE 754 binary32 with round-to-nearest-even, taken from the
      standard library's executable specification [SpecFloat] at precision 24
      and maximal exponent 128.
    - The board is an oracle [World]: the k-th call of [micros()] and the k-th
      call of [digitalRead()] return what the world says; what the driver does
      to the board ([pinMode], [digitalWrite], [delayMicroseconds],
      [attachInterrupt]) is appended to a trace.
    - A reference parameter [float &out_cm] is a cell [FloatRef] that counts
      the stores made through it.
    - The two busy-wait loops of the polling engine take a fuel argument;
      [None] is a loop that has not ended within the fuel.
    - The echo callback of the interrupt engine runs to its end once started
      (the board disables interrupts inside it) and can start between any two
      steps of the caller: between two calls (the step [EchoChange]) and
      inside a call of [read] ([Interrupt.read_preempted], the step
      [ReadPreempted]).  [Interrupt.read] is the call of [read] during which
      no callback runs.  An access to one of the [volatile] statics is one
      step. *)

From Stdlib Require Import ZArith List Bool Lia.
From Stdlib Require Import Floats.SpecFloat.
Import ListNotations.
Local Open Scope Z_scope.

(* ================================================================== *)
(** ** Machine integers *)

Definition ULONG_BITS : Z := 32.
Definition ULONG_MOD : Z := 2 ^ ULONG_BITS.

(** Reduction of an integer to [unsigned long]. *)
Definition wrap (x : Z) : Z := x mod ULONG_MOD.

(** [a - b] on [unsigned long]. *)
Definition usub (a b : Z) : Z := wrap (a - b).

(* ================================================================== *)
(** ** Single precision floats *)

Definition float : Type := spec_float.

Definition F32_PREC : Z := 24.
Definition F32_EMAX : Z := 128.

Definition f32_mul : float -> float -> float := SFmul F32_PREC F32_EMAX.
Definition f32_div : float -> float -> float := SFdiv F32_PREC F32_EMAX.
Definition f32_ltb : float -> float -> bool := SFltb.

(** [static_cast<float>(n)] for an integer [n]. *)
Definition f32_of_Z (n : Z) : float := binary_normalize F32_PREC F32_EMAX n 0 false.

(** The float literals of the source, as mantissa and exponent. *)
Definition F_0_0 : float := S754_zero false.                  (* 0.0F    *)
Definition F_0_5 : float := S754_finite false 8388608 (-24).  (* 0.5F    *)
Definition F_0_02 : float := S754_finite false 10737418 (-29). (* 0.02F   *)
Definition F_0_06 : float := S754_finite false 16106127 (-28). (* 0.06F   *)
Definition F_0_0343 : float := S754_finite false 9207336 (-28). (* 0.0343F *)

(** A float of the format: the mantissa is canonical for the exponent. *)
Definition f32_valid (x : float) : bool := valid_binary F32_PREC F32_EMAX x.

(** The value of a finite float times 2^149, an integer for a float of the
    format (whose exponent is at least -149); none for infinities and NaN. *)
Definition f32_scaled (x : float) : option Z :=
  match x with
  | S754_zero _ => Some 0
  | S754_finite s m e => Some ((if s then -1 else 1) * (Zpos m * 2 ^ (e + 149)))
  | _ => None
  end.

(** A cell passed by reference, and the number of stores made through it. *)
Record FloatRef : Type := mkRef { deref : float; stores : nat }.

Definition store (v : float) (r : FloatRef) : FloatRef :=
  {| deref := v; stores := S (stores r) |}.

(* ================================================================== *)
(** ** Configuration constants and status codes (hcsr04.hpp) *)

Definition HCSR04_CM_PER_US : float := F_0_0343.
Definition HCSR04_DEFAULT_TIMEOUT_US : Z := 30000.
Definition HCSR04_TRIG_PULSE_US : Z := 10.
Definition HCSR04_DEFAULT_MIN_CYCLE_US : Z := 60000.

Inductive HCSR04_Status : Type :=
| HCSR04_OK
| HCSR04_ERR_TIMEOUT_TRIG
| HCSR04_ERR_TIMEOUT_ECHO_START
| HCSR04_ERR_TIMEOUT_ECHO_END
| HCSR04_ERR_BUSY
| HCSR04_ERR_NOT_READY
| HCSR04_ERR_BAD_STATE
| HCSR04_ERR_BAD_PARAM.

Definition status_code (s : HCSR04_Status) : Z :=
  match s with
  | HCSR04_OK => 0
  | HCSR04_ERR_TIMEOUT_TRIG => -1
  | HCSR04_ERR_TIMEOUT_ECHO_START => -2
  | HCSR04_ERR_TIMEOUT_ECHO_END => -3
  | HCSR04_ERR_BUSY => -4
  | HCSR04_ERR_NOT_READY => -5
  | HCSR04_ERR_BAD_STATE => -6
  | HCSR04_ERR_BAD_PARAM => -7
  end.

Definition is_ok (s : HCSR04_Status) : bool :=
  match s with HCSR04_OK => true | _ => false end.

(* ================================================================== *)
(** ** The board (Arduino.h) *)

Inductive Level : Type := LOW | HIGH.
Inductive Direction : Type := INPUT | OUTPUT.

Definition Level_eqb (a b : Level) : bool :=
  match a, b with
  | LOW, LOW | HIGH, HIGH => true
  | _, _ => false
  end.

(** What the driver does to the board. *)
Inductive Event : Type :=
| EPinMode (pin : Z) (d : Direction)
| EDigitalWrite (pin : Z) (l : Level)
| EDelayMicroseconds (us : Z)
| EAttachInterrupt (pin : Z)
| EDetachInterrupt (pin : Z).

(** What the board answers: [w_time k] is the number of microseconds since
    reset at the k-th call of [micros()], [w_level k pin] the level of [pin]
    at the k-th call of [digitalRead()]. *)
Record World : Type := mkWorld {
  w_time : nat -> Z;
  w_level : nat -> Z -> Level
}.

(** The board as the driver has used it so far. *)
Record Hw : Type := mkHw {
  hw_ticks : nat;          (* calls of micros() made *)
  hw_samples : nat;        (* calls of digitalRead() made *)
  hw_trace : list Event    (* outputs, oldest first *)
}.

Definition hw0 : Hw := {| hw_ticks := 0; hw_samples := 0; hw_trace := [] |}.

Definition emit (e : Event) (h : Hw) : Hw :=
  {| hw_ticks := hw_ticks h; hw_samples := hw_samples h;
     hw_trace := hw_trace h ++ [e] |}.

Definition pinMode (pin : Z) (d : Direction) : Hw -> Hw := emit (EPinMode pin d).
Definition digitalWrite (pin : Z) (l : Level) : Hw -> Hw := emit (EDigitalWrite pin l).
Definition delayMicroseconds (us : Z) : Hw -> Hw := emit (EDelayMicroseconds us).
Definition attachInterrupt (pin : Z) : Hw -> Hw := emit (EAttachInterrupt pin).
Definition detachInterrupt (pin : Z) : Hw -> Hw := emit (EDetachInterrupt pin).

(** [micros()] wraps around at the width of [unsigned long]. *)
Definition micros (w : World) (h : Hw) : Z * Hw :=
  (wrap (w_time w (hw_ticks h)),
   {| hw_ticks := S (hw_ticks h); hw_samples := hw_samples h;
      hw_trace := hw_trace h |}).

Definition digitalRead (w : World) (pin : Z) (h : Hw) : Level * Hw :=
  (w_level w (hw_samples h) pin,
   {| hw_ticks := hw_ticks h; hw_samples := S (hw_samples h);
      hw_trace := hw_trace h |}).

(* ================================================================== *)
(** ** class IHCSR04 (hcsr04.hpp) *)

Record IHCSR04 : Type := mkIHCSR04 {
  m_trig_pin : Z;
  m_echo_pin : Z;
  m_timeout_us : Z;
  m_cm_per_us : float;
  m_min_cycle_us : Z;
  m_last_shot_us : Z
}.

(** The constructor stores its arguments as they are. *)
Definition IHCSR04_new (trig_pin echo_pin timeout_us : Z) (cm_per_us : float)
    (min_cycle_us : Z) : IHCSR04 :=
  {| m_trig_pin := trig_pin;
     m_echo_pin := echo_pin;
     m_timeout_us := timeout_us;
     m_cm_per_us := cm_per_us;
     m_min_cycle_us := min_cycle_us;
     m_last_shot_us := 0 |}.

(** The constructor with its three default arguments. *)
Definition IHCSR04_new_default (trig_pin echo_pin : Z) : IHCSR04 :=
  IHCSR04_new trig_pin echo_pin HCSR04_DEFAULT_TIMEOUT_US HCSR04_CM_PER_US
    HCSR04_DEFAULT_MIN_CYCLE_US.

Definition set_trig_pin (v : Z) (self : IHCSR04) : IHCSR04 :=
  mkIHCSR04 v (m_echo_pin self) (m_timeout_us self) (m_cm_per_us self)
    (m_min_cycle_us self) (m_last_shot_us self).
Definition set_echo_pin (v : Z) (self : IHCSR04) : IHCSR04 :=
  mkIHCSR04 (m_trig_pin self) v (m_timeout_us self) (m_cm_per_us self)
    (m_min_cycle_us self) (m_last_shot_us self).
Definition set_timeout_us (v : Z) (self : IHCSR04) : IHCSR04 :=
  mkIHCSR04 (m_trig_pin self) (m_echo_pin self) v (m_cm_per_us self)
    (m_min_cycle_us self) (m_last_shot_us self).
Definition set_cm_per_us (v : float) (self : IHCSR04) : IHCSR04 :=
  mkIHCSR04 (m_trig_pin self) (m_echo_pin self) (m_timeout_us self) v
    (m_min_cycle_us self) (m_last_shot_us self).
Definition set_min_cycle_us (v : Z) (self : IHCSR04) : IHCSR04 :=
  mkIHCSR04 (m_trig_pin self) (m_echo_pin self) (m_timeout_us self)
    (m_cm_per_us self) v (m_last_shot_us self).
Definition set_last_shot_us (v : Z) (self : IHCSR04) : IHCSR04 :=
  mkIHCSR04 (m_trig_pin self) (m_echo_pin self) (m_timeout_us self)
    (m_cm_per_us self) (m_min_cycle_us self) v.

(** *** Configuration setters *)

Definition setTrigPin (trig_pin : Z) (self : IHCSR04) : HCSR04_Status * IHCSR04 :=
  if negb (trig_pin =? m_echo_pin self)
  then (HCSR04_OK, set_trig_pin trig_pin self)
  else (HCSR04_ERR_BAD_PARAM, self).

Definition setEchoPin (echo_pin : Z) (self : IHCSR04) : HCSR04_Status * IHCSR04 :=
  if negb (echo_pin =? m_trig_pin self)
  then (HCSR04_OK, set_echo_pin echo_pin self)
  else (HCSR04_ERR_BAD_PARAM, self).

Definition setTimeoutUs (timeout_us : Z) (self : IHCSR04) : HCSR04_Status * IHCSR04 :=
  if timeout_us >=? HCSR04_TRIG_PULSE_US + 100
  then (HCSR04_OK, set_timeout_us timeout_us self)
  else (HCSR04_ERR_BAD_PARAM, self).

Definition setMinCycleUs (min_cycle_us : Z) (self : IHCSR04) : HCSR04_Status * IHCSR04 :=
  if negb (min_cycle_us =? 0)
  then (HCSR04_OK, set_min_cycle_us min_cycle_us self)
  else (HCSR04_ERR_BAD_PARAM, self).

Definition setSoundSpeed (cm_per_us : float) (self : IHCSR04) : HCSR04_Status * IHCSR04 :=
  if f32_ltb F_0_02 cm_per_us && f32_ltb cm_per_us F_0_06
  then (HCSR04_OK, set_cm_per_us cm_per_us self)
  else (HCSR04_ERR_BAD_PARAM, self).

(** *** Getters *)

Definition getTrigPin (self : IHCSR04) : Z := m_trig_pin self.
Definition getEchoPin (self : IHCSR04) : Z := m_echo_pin self.
Definition getTimeoutUs (self : IHCSR04) : Z := m_timeout_us self.
Definition getMinCycleUs (self : IHCSR04) : Z := m_min_cycle_us self.
Definition getSoundSpeed (self : IHCSR04) : float := m_cm_per_us self.
Definition getLastShotTimestampUs (self : IHCSR04) : Z := m_last_shot_us self.

(** *** Protected helpers *)

(** The cycle guard: one clock reading, no write to the object. *)
Definition canStartShot_ (w : World) (self : IHCSR04) (h : Hw) : HCSR04_Status * Hw :=
  let (now_us, h) := micros w h in
  let elapsed := usub now_us (m_last_shot_us self) in
  (if elapsed >=? m_min_cycle_us self then HCSR04_OK else HCSR04_ERR_BUSY, h).

Definition markShotStart_ (w : World) (self : IHCSR04) (h : Hw) : IHCSR04 * Hw :=
  let (now_us, h) := micros w h in
  (set_last_shot_us now_us self, h).

(** Distance conversion; [out_cm] is stored to only on the accepting path. *)
Definition timeUsToCm_ (self : IHCSR04) (echo_high_us : Z) (out_cm : FloatRef)
    : HCSR04_Status * FloatRef :=
  if negb (echo_high_us =? 0)
  then
    let half := F_0_5 in
    (HCSR04_OK,
     store (f32_mul (f32_mul (f32_of_Z echo_high_us) (m_cm_per_us self)) half) out_cm)
  else (HCSR04_ERR_BAD_PARAM, out_cm).

(** *** Calls of the configuration interface, as data *)

Inductive Setter : Type :=
| SetTrigPin (trig_pin : Z)
| SetEchoPin (echo_pin : Z)
| SetTimeoutUs (timeout_us : Z)
| SetMinCycleUs (min_cycle_us : Z)
| SetSoundSpeed (cm_per_us : float).

Definition call_setter (c : Setter) (self : IHCSR04) : HCSR04_Status * IHCSR04 :=
  match c with
  | SetTrigPin p => setTrigPin p self
  | SetEchoPin p => setEchoPin p self
  | SetTimeoutUs v => setTimeoutUs v self
  | SetMinCycleUs v => setMinCycleUs v self
  | SetSoundSpeed v => setSoundSpeed v self
  end.

(* ================================================================== *)
(** ** class HCSR04_Polling (hcsr04_polling.hpp, hcsr04_polling.cpp) *)

Module Polling.

(** The object (it has no members of its own) and the board it drives. *)
Record State : Type := mkState { cfg : IHCSR04; hw : Hw }.

Definition new (trig_pin echo_pin timeout_us : Z) (cm_per_us : float)
    (min_cycle_us : Z) : State :=
  {| cfg := IHCSR04_new trig_pin echo_pin timeout_us cm_per_us min_cycle_us;
     hw := hw0 |}.

Definition begin (st : State) : HCSR04_Status * State :=
  let self := cfg st in
  let status := HCSR04_OK in
  let h := pinMode (getTrigPin self) OUTPUT (hw st) in
  let h := pinMode (getEchoPin self) INPUT h in
  let h := digitalWrite (getTrigPin self) LOW h in
  (status, {| cfg := self; hw := h |}).

(** First busy-wait of [read]: until the window is over or a rise time is
    recorded.  [None]: out of fuel. *)
Fixpoint rise_loop (w : World) (fuel : nat) (self : IHCSR04)
    (t_start_us timeout_us now_us t_rise_us : Z) (h : Hw) : option (Z * Hw) :=
  if (usub now_us t_start_us <? timeout_us) && (t_rise_us =? 0) then
    match fuel with
    | O => None
    | S fuel =>
        let (level, h) := digitalRead w (getEchoPin self) h in
        let t_rise_us := if Level_eqb level HIGH then now_us else t_rise_us in
        let (now_us, h) := micros w h in
        rise_loop w fuel self t_start_us timeout_us now_us t_rise_us h
    end
  else Some (t_rise_us, h).

(** Second busy-wait of [read], on the same [t_start_us] and [timeout_us]. *)
Fixpoint fall_loop (w : World) (fuel : nat) (self : IHCSR04)
    (t_start_us timeout_us now_us t_fall_us : Z) (h : Hw) : option (Z * Hw) :=
  if (usub now_us t_start_us <? timeout_us) && (t_fall_us =? 0) then
    match fuel with
    | O => None
    | S fuel =>
        let (level, h) := digitalRead w (getEchoPin self) h in
        let t_fall_us := if Level_eqb level LOW then now_us else t_fall_us in
        let (now_us, h) := micros w h in
        fall_loop w fuel self t_start_us timeout_us now_us t_fall_us h
    end
  else Some (t_fall_us, h).

Definition read (w : World) (fuel : nat) (out_cm : FloatRef) (st : State)
    : option (HCSR04_Status * FloatRef * State) :=
  let self := cfg st in
  let status := HCSR04_ERR_BAD_STATE in
  let tmp_cm := mkRef F_0_0 0 in
  let (guard, h) := canStartShot_ w self (hw st) in
  if is_ok guard then
    let (self, h) := markShotStart_ w self h in
    let h := digitalWrite (getTrigPin self) LOW h in
    let h := delayMicroseconds 2 h in
    let h := digitalWrite (getTrigPin self) HIGH h in
    let h := delayMicroseconds HCSR04_TRIG_PULSE_US h in
    let h := digitalWrite (getTrigPin self) LOW h in
    let (t_start_us, h) := micros w h in
    let timeout_us := getTimeoutUs self in
    let t_rise_us := 0 in
    let (now_us, h) := micros w h in
    match rise_loop w fuel self t_start_us timeout_us now_us t_rise_us h with
    | None => None
    | Some (t_rise_us, h) =>
        if t_rise_us =? 0 then
          Some (HCSR04_ERR_TIMEOUT_ECHO_START, out_cm, {| cfg := self; hw := h |})
        else
          let t_fall_us := 0 in
          let (now_us, h) := micros w h in
          match fall_loop w fuel self t_start_us timeout_us now_us t_fall_us h with
          | None => None
          | Some (t_fall_us, h) =>
              if t_fall_us =? 0 then
                Some (HCSR04_ERR_TIMEOUT_ECHO_END, out_cm, {| cfg := self; hw := h |})
              else
                let echo_high_us := usub t_fall_us t_rise_us in
                let (status, tmp_cm) := timeUsToCm_ self echo_high_us tmp_cm in
                let out_cm :=
                  if is_ok status then store (deref tmp_cm) out_cm else out_cm in
                Some (status, out_cm, {| cfg := self; hw := h |})
          end
    end
  else Some (status, out_cm, {| cfg := self; hw := h |}).

(** What a caller can do with the object. *)
Inductive Step : Type :=
| Configure (c : Setter)
| Begin
| Read (fuel : nat).

Definition step (w : World) (s : Step) (out_cm : FloatRef) (st : State)
    : option (HCSR04_Status * FloatRef * State) :=
  match s with
  | Configure c =>
      let (status, self) := call_setter c (cfg st) in
      Some (status, out_cm, {| cfg := self; hw := hw st |})
  | Begin => let (status, st) := begin st in Some (status, out_cm, st)
  | Read fuel => read w fuel out_cm st
  end.

(** A sequence of calls; the statuses returned, oldest first. *)
Fixpoint run (w : World) (l : list Step) (out_cm : FloatRef) (st : State)
    : option (list HCSR04_Status * FloatRef * State) :=
  match l with
  | [] => Some ([], out_cm, st)
  | s :: l =>
      match step w s out_cm st with
      | None => None
      | Some (status, out_cm, st) =>
          match run w l out_cm st with
          | None => None
          | Some (statuses, out_cm, st) => Some (status :: statuses, out_cm, st)
          end
      end
  end.

End Polling.

(* ================================================================== *)
(** ** class HCSR04_Interrupt (hcsr04_interrupt.hpp, hcsr04_interrupt.cpp) *)

Module Interrupt.

(** The object, the four static members of the class and the board.
    [s_instance] is the back-reference of the callback: set or null. *)
Record State : Type := mkState {
  cfg : IHCSR04;
  s_waiting_rise : bool;
  s_rise_us : Z;
  s_fall_us : Z;
  s_instance : bool;
  hw : Hw
}.

(** Static initialisers, then the constructor. *)
Definition new (trig_pin echo_pin timeout_us : Z) (cm_per_us : float)
    (min_cycle_us : Z) : State :=
  {| cfg := IHCSR04_new trig_pin echo_pin timeout_us cm_per_us min_cycle_us;
     s_waiting_rise := true;
     s_rise_us := 0;
     s_fall_us := 0;
     s_instance := false;
     hw := hw0 |}.

Definition destroy (st : State) : State :=
  let h := detachInterrupt (getEchoPin (cfg st)) (hw st) in
  {| cfg := cfg st; s_waiting_rise := s_waiting_rise st;
     s_rise_us := s_rise_us st; s_fall_us := s_fall_us st;
     s_instance := false; hw := h |}.

Definition begin (st : State) : HCSR04_Status * State :=
  let self := cfg st in
  let status := HCSR04_OK in
  let h := pinMode (getTrigPin self) OUTPUT (hw st) in
  let h := pinMode (getEchoPin self) INPUT h in
  let h := digitalWrite (getTrigPin self) LOW h in
  let h := attachInterrupt (getEchoPin self) h in
  (status,
   {| cfg := self; s_waiting_rise := true; s_rise_us := 0; s_fall_us := 0;
      s_instance := true; hw := h |}).

Definition read (w : World) (out_cm : FloatRef) (st : State)
    : HCSR04_Status * FloatRef * State :=
  let self := cfg st in
  let (status, h) := canStartShot_ w self (hw st) in
  let st :=
    if is_ok status then
      let (self, h) := markShotStart_ w self h in
      let h := digitalWrite (getTrigPin self) LOW h in
      let h := delayMicroseconds 2 h in
      let h := digitalWrite (getTrigPin self) HIGH h in
      let h := delayMicroseconds HCSR04_TRIG_PULSE_US h in
      let h := digitalWrite (getTrigPin self) LOW h in
      {| cfg := self; s_waiting_rise := true; s_rise_us := 0; s_fall_us := 0;
         s_instance := s_instance st; hw := h |}
    else
      {| cfg := self; s_waiting_rise := s_waiting_rise st;
         s_rise_us := s_rise_us st; s_fall_us := s_fall_us st;
         s_instance := s_instance st; hw := h |} in
  if negb (s_rise_us st =? 0) && negb (s_fall_us st =? 0) then
    let echo_high_us := usub (s_fall_us st) (s_rise_us st) in
    let tmp_cm := mkRef F_0_0 0 in
    let (status, tmp_cm) := timeUsToCm_ (cfg st) echo_high_us tmp_cm in
    let out_cm := if is_ok status then store (deref tmp_cm) out_cm else out_cm in
    (status, out_cm,
     {| cfg := cfg st; s_waiting_rise := s_waiting_rise st;
        s_rise_us := 0; s_fall_us := 0;
        s_instance := s_instance st; hw := hw st |})
  else (HCSR04_ERR_NOT_READY, out_cm, st).

(** The first block of [read] on its own: the shot is armed when the cycle
    guard allows. *)
Definition arm (w : World) (st : State) : HCSR04_Status * State :=
  let self := cfg st in
  let (status, h) := canStartShot_ w self (hw st) in
  if is_ok status then
    let (self, h) := markShotStart_ w self h in
    let h := digitalWrite (getTrigPin self) LOW h in
    let h := delayMicroseconds 2 h in
    let h := digitalWrite (getTrigPin self) HIGH h in
    let h := delayMicroseconds HCSR04_TRIG_PULSE_US h in
    let h := digitalWrite (getTrigPin self) LOW h in
    (status,
     {| cfg := self; s_waiting_rise := true; s_rise_us := 0; s_fall_us := 0;
        s_instance := s_instance st; hw := h |})
  else
    (status,
     {| cfg := self; s_waiting_rise := s_waiting_rise st;
        s_rise_us := s_rise_us st; s_fall_us := s_fall_us st;
        s_instance := s_instance st; hw := h |}).

(** The second block of [read] on its own: the result is taken when both
    edges are there. *)
Definition harvest (out_cm : FloatRef) (st : State)
    : HCSR04_Status * FloatRef * State :=
  if negb (s_rise_us st =? 0) && negb (s_fall_us st =? 0) then
    let echo_high_us := usub (s_fall_us st) (s_rise_us st) in
    let tmp_cm := mkRef F_0_0 0 in
    let (status, tmp_cm) := timeUsToCm_ (cfg st) echo_high_us tmp_cm in
    let out_cm := if is_ok status then store (deref tmp_cm) out_cm else out_cm in
    (status, out_cm,
     {| cfg := cfg st; s_waiting_rise := s_waiting_rise st;
        s_rise_us := 0; s_fall_us := 0;
        s_instance := s_instance st; hw := hw st |})
  else (HCSR04_ERR_NOT_READY, out_cm, st).

Definition echoChangeISR_ (w : World) (st : State) : State :=
  let (level, h) := digitalRead w (getEchoPin (cfg st)) (hw st) in
  let (now_us, h) := micros w h in
  if s_waiting_rise st then
    if Level_eqb level HIGH then
      {| cfg := cfg st; s_waiting_rise := false; s_rise_us := now_us;
         s_fall_us := s_fall_us st; s_instance := s_instance st; hw := h |}
    else
      {| cfg := cfg st; s_waiting_rise := s_waiting_rise st;
         s_rise_us := s_rise_us st; s_fall_us := s_fall_us st;
         s_instance := s_instance st; hw := h |}
  else
    if Level_eqb level LOW then
      {| cfg := cfg st; s_waiting_rise := true; s_rise_us := s_rise_us st;
         s_fall_us := now_us; s_instance := s_instance st; hw := h |}
    else
      {| cfg := cfg st; s_waiting_rise := s_waiting_rise st;
         s_rise_us := s_rise_us st; s_fall_us := s_fall_us st;
         s_instance := s_instance st; hw := h |}.

(** *** The callback inside [read]

    [begin] attaches the callback and [read] leaves interrupts enabled, so a
    change of the echo line runs [echoChangeISR_] between any two steps of
    [read].  A [Preemption] says how many times the callback runs at each
    point of one call of [read] (callbacks before the first and after the
    last step of the call are steps [EchoChange] of a run), and in which
    order line 85 reads its two operands, which the language leaves open.
    The callback writes nothing to the board, so where in the trigger pulse
    it runs makes no difference: [in_pulse] counts the callbacks between the
    last write of the reset and the test. *)
Record Preemption : Type := mkPreemption {
  after_guard : nat;       (* after canStartShot_(), line 62 *)
  after_mark : nat;        (* after markShotStart_(), line 67 *)
  after_waiting : nat;     (* after s_waiting_rise = true, line 70 *)
  after_rise : nat;        (* after s_rise_us = 0UL, line 71 *)
  in_pulse : nat;          (* after s_fall_us = 0UL, lines 72 to 83 *)
  in_test : nat;           (* between the two operands of &&, line 83 *)
  after_test : nat;        (* between line 83 and line 85 *)
  rise_read_first : bool;  (* line 85 reads s_rise_us before s_fall_us *)
  in_difference : nat;     (* between the two reads of line 85 *)
  in_convert : nat;        (* lines 86 to 94 *)
  in_clear : nat           (* between lines 94 and 95 *)
}.

(** No callback inside the call. *)
Definition quiet : Preemption :=
  {| after_guard := 0; after_mark := 0; after_waiting := 0; after_rise := 0;
     in_pulse := 0; in_test := 0; after_test := 0; rise_read_first := false;
     in_difference := 0; in_convert := 0; in_clear := 0 |}.

(** The callback run [n] times over, while it is attached. *)
Definition callbacks (w : World) (n : nat) (st : State) : State :=
  Nat.iter n (fun st => if s_instance st then echoChangeISR_ w st else st) st.

(** Writes to one member. *)
Definition set_cfg (self : IHCSR04) (st : State) : State :=
  {| cfg := self; s_waiting_rise := s_waiting_rise st;
     s_rise_us := s_rise_us st; s_fall_us := s_fall_us st;
     s_instance := s_instance st; hw := hw st |}.
Definition set_hw (h : Hw) (st : State) : State :=
  {| cfg := cfg st; s_waiting_rise := s_waiting_rise st;
     s_rise_us := s_rise_us st; s_fall_us := s_fall_us st;
     s_instance := s_instance st; hw := h |}.
Definition set_waiting_rise (b : bool) (st : State) : State :=
  {| cfg := cfg st; s_waiting_rise := b;
     s_rise_us := s_rise_us st; s_fall_us := s_fall_us st;
     s_instance := s_instance st; hw := hw st |}.
Definition set_rise_us (v : Z) (st : State) : State :=
  {| cfg := cfg st; s_waiting_rise := s_waiting_rise st;
     s_rise_us := v; s_fall_us := s_fall_us st;
     s_instance := s_instance st; hw := hw st |}.
Definition set_fall_us (v : Z) (st : State) : State :=
  {| cfg := cfg st; s_waiting_rise := s_waiting_rise st;
     s_rise_us := s_rise_us st; s_fall_us := v;
     s_instance := s_instance st; hw := hw st |}.

(** [read], statement by statement, with the callbacks of [p] in between. *)
Definition read_preempted (w : World) (p : Preemption) (out_cm : FloatRef)
    (st : State) : HCSR04_Status * FloatRef * State :=
  let (status, h) := canStartShot_ w (cfg st) (hw st) in
  let st := callbacks w (after_guard p) (set_hw h st) in
  let st :=
    if is_ok status then
      let (self, h) := markShotStart_ w (cfg st) (hw st) in
      let st := callbacks w (after_mark p) (set_hw h (set_cfg self st)) in
      let st := callbacks w (after_waiting p) (set_waiting_rise true st) in
      let st := callbacks w (after_rise p) (set_rise_us 0 st) in
      let st := set_fall_us 0 st in
      let h := digitalWrite (getTrigPin (cfg st)) LOW (hw st) in
      let h := delayMicroseconds 2 h in
      let h := digitalWrite (getTrigPin (cfg st)) HIGH h in
      let h := delayMicroseconds HCSR04_TRIG_PULSE_US h in
      let h := digitalWrite (getTrigPin (cfg st)) LOW h in
      callbacks w (in_pulse p) (set_hw h st)
    else st in
  if negb (s_rise_us st =? 0) then
    let st := callbacks w (in_test p) st in
    if negb (s_fall_us st =? 0) then
      let st := callbacks w (after_test p) st in
      let '(echo_high_us, st) :=
        if rise_read_first p then
          let rise_us := s_rise_us st in
          let st := callbacks w (in_difference p) st in
          (usub (s_fall_us st) rise_us, st)
        else
          let fall_us := s_fall_us st in
          let st := callbacks w (in_difference p) st in
          (usub fall_us (s_rise_us st), st) in
      let tmp_cm := mkRef F_0_0 0 in
      let (status, tmp_cm) := timeUsToCm_ (cfg st) echo_high_us tmp_cm in
      let out_cm := if is_ok status then store (deref tmp_cm) out_cm else out_cm in
      let st := callbacks w (in_convert p) st in
      let st := callbacks w (in_clear p) (set_rise_us 0 st) in
      (status, out_cm, set_fall_us 0 st)
    else (HCSR04_ERR_NOT_READY, out_cm, st)
  else (HCSR04_ERR_NOT_READY, out_cm, st).

(** The two blocks of [read_preempted] on their own: up to the test, and from
    the test on. *)
Definition arm_preempted (w : World) (p : Preemption) (st : State) : State :=
  let (status, h) := canStartShot_ w (cfg st) (hw st) in
  let st := callbacks w (after_guard p) (set_hw h st) in
  if is_ok status then
    let (self, h) := markShotStart_ w (cfg st) (hw st) in
    let st := callbacks w (after_mark p) (set_hw h (set_cfg self st)) in
    let st := callbacks w (after_waiting p) (set_waiting_rise true st) in
    let st := callbacks w (after_rise p) (set_rise_us 0 st) in
    let st := set_fall_us 0 st in
    let h := digitalWrite (getTrigPin (cfg st)) LOW (hw st) in
    let h := delayMicroseconds 2 h in
    let h := digitalWrite (getTrigPin (cfg st)) HIGH h in
    let h := delayMicroseconds HCSR04_TRIG_PULSE_US h in
    let h := digitalWrite (getTrigPin (cfg st)) LOW h in
    callbacks w (in_pulse p) (set_hw h st)
  else st.

Definition harvest_preempted (w : World) (p : Preemption) (out_cm : FloatRef)
    (st : State) : HCSR04_Status * FloatRef * State :=
  if negb (s_rise_us st =? 0) then
    let st := callbacks w (in_test p) st in
    if negb (s_fall_us st =? 0) then
      let st := callbacks w (after_test p) st in
      let '(echo_high_us, st) :=
        if rise_read_first p then
          let rise_us := s_rise_us st in
          let st := callbacks w (in_difference p) st in
          (usub (s_fall_us st) rise_us, st)
        else
          let fall_us := s_fall_us st in
          let st := callbacks w (in_difference p) st in
          (usub fall_us (s_rise_us st), st) in
      let tmp_cm := mkRef F_0_0 0 in
      let (status, tmp_cm) := timeUsToCm_ (cfg st) echo_high_us tmp_cm in
      let out_cm := if is_ok status then store (deref tmp_cm) out_cm else out_cm in
      let st := callbacks w (in_convert p) st in
      let st := callbacks w (in_clear p) (set_rise_us 0 st) in
      (status, out_cm, set_fall_us 0 st)
    else (HCSR04_ERR_NOT_READY, out_cm, st)
  else (HCSR04_ERR_NOT_READY, out_cm, st).

(** What can happen to the object: calls of the caller, and a change of the
    echo line, on which the board runs the callback while it is attached
    (from [begin] on).  [Read] is a call of [read] that no callback
    interrupts, [ReadPreempted p] one that the callbacks of [p] do. *)
Inductive Step : Type :=
| Configure (c : Setter)
| Begin
| Read
| EchoChange
| ReadPreempted (p : Preemption).

Definition step (w : World) (s : Step) (out_cm : FloatRef) (st : State)
    : option HCSR04_Status * FloatRef * State :=
  match s with
  | Configure c =>
      let (status, self) := call_setter c (cfg st) in
      (Some status, out_cm,
       {| cfg := self; s_waiting_rise := s_waiting_rise st;
          s_rise_us := s_rise_us st; s_fall_us := s_fall_us st;
          s_instance := s_instance st; hw := hw st |})
  | Begin => let (status, st) := begin st in (Some status, out_cm, st)
  | Read =>
      let '(status, out_cm, st) := read w out_cm st in (Some status, out_cm, st)
  | EchoChange =>
      (None, out_cm, if s_instance st then echoChangeISR_ w st else st)
  | ReadPreempted p =>
      let '(status, out_cm, st) := read_preempted w p out_cm st in
      (Some status, out_cm, st)
  end.

(** A sequence of steps; what each returned, oldest first. *)
Fixpoint run (w : World) (l : list Step) (out_cm : FloatRef) (st : State)
    : list (option HCSR04_Status) * FloatRef * State :=
  match l with
  | [] => ([], out_cm, st)
  | s :: l =>
      let '(r, out_cm, st) := step w s out_cm st in
      let '(rs, out_cm, st) := run w l out_cm st in
      (r :: rs, out_cm, st)
  end.

End Interrupt.

(* ================================================================== *)
(** ** Vocabulary of the properties *)

(** The invariant of the pin pair. *)
Definition pins_differ (self : IHCSR04) : Prop :=
  m_trig_pin self <> m_echo_pin self.

(** A setter called on [self] gave [r]: it commits (the object becomes
    [committed], the status is OK) exactly when [valid] holds, and otherwise
    answers Bad-param and leaves the object as it was. *)
Definition commits_iff (valid : Prop) (r : HCSR04_Status * IHCSR04)
    (committed self : IHCSR04) : Prop :=
  (valid -> r = (HCSR04_OK, committed)) /\
  (~ valid -> r = (HCSR04_ERR_BAD_PARAM, self)) /\
  (fst r = HCSR04_OK <-> valid).

(** The distance the driver reports for a high time, in single precision:
    the product of the high time and the speed, halved by a multiplication
    with [0.5F]. *)
Definition distance_cm (cm_per_us : float) (echo_high_us : Z) : float :=
  f32_mul (f32_mul (f32_of_Z echo_high_us) cm_per_us) F_0_5.

(** The cell [out'] after a call that returned [status], against the cell
    [out] before it: one store when the status is OK, none otherwise. *)
Definition written_iff_ok (status : HCSR04_Status) (out out' : FloatRef) : Prop :=
  (status = HCSR04_OK -> stores out' = S (stores out)) /\
  (status <> HCSR04_OK -> out' = out) /\
  (stores out' = S (stores out) <-> status = HCSR04_OK).

Definition is_timeout (s : HCSR04_Status) : bool :=
  match s with
  | HCSR04_ERR_TIMEOUT_TRIG
  | HCSR04_ERR_TIMEOUT_ECHO_START
  | HCSR04_ERR_TIMEOUT_ECHO_END => true
  | _ => false
  end.

(** The parts of what a call of [read] returns. *)
Definition status_of {S : Type} (r : HCSR04_Status * FloatRef * S) : HCSR04_Status :=
  fst (fst r).
Definition out_of {S : Type} (r : HCSR04_Status * FloatRef * S) : FloatRef :=
  snd (fst r).
Definition state_of {S : Type} (r : HCSR04_Status * FloatRef * S) : S := snd r.

(** What the steps of a run of the interrupt engine returned. *)
Definition results_of {S : Type} (r : list (option HCSR04_Status) * FloatRef * S)
    : list (option HCSR04_Status) :=
  fst (fst r).

(** The clock reading the next call of [micros()] gives. *)
Definition next_micros (w : World) (h : Hw) : Z := wrap (w_time w (hw_ticks h)).

(** The board after one more call of [micros()]. *)
Definition tick (h : Hw) : Hw :=
  {| hw_ticks := S (hw_ticks h); hw_samples := hw_samples h;
     hw_trace := hw_trace h |}.

(** The board after [ticks] more clock readings and the events [evs]. *)
Definition advance (ticks : nat) (evs : list Event) (h : Hw) : Hw :=
  {| hw_ticks := (ticks + hw_ticks h)%nat; hw_samples := hw_samples h;
     hw_trace := hw_trace h ++ evs |}.

(** The trigger sequence both engines drive on the trigger pin. *)
Definition trigger_pulse (pin : Z) : list Event :=
  [EDigitalWrite pin LOW; EDelayMicroseconds 2; EDigitalWrite pin HIGH;
   EDelayMicroseconds HCSR04_TRIG_PULSE_US; EDigitalWrite pin LOW].

(** The cycle guard refuses a shot at the next clock reading. *)
Definition guard_denies (w : World) (self : IHCSR04) (h : Hw) : Prop :=
  usub (next_micros w h) (m_last_shot_us self) < m_min_cycle_us self.

(** Both edge timestamps of the interrupt engine are there. *)
Definition populated (st : Interrupt.State) : Prop :=
  Interrupt.s_rise_us st <> 0 /\ Interrupt.s_fall_us st <> 0.

(** The high time the interrupt engine has captured. *)
Definition captured_high_us (st : Interrupt.State) : Z :=
  usub (Interrupt.s_fall_us st) (Interrupt.s_rise_us st).

(** The interrupt engine with another object and board, statics as they are. *)
Definition with_cfg_hw (self : IHCSR04) (h : Hw) (st : Interrupt.State)
    : Interrupt.State :=
  {| Interrupt.cfg := self;
     Interrupt.s_waiting_rise := Interrupt.s_waiting_rise st;
     Interrupt.s_rise_us := Interrupt.s_rise_us st;
     Interrupt.s_fall_us := Interrupt.s_fall_us st;
     Interrupt.s_instance := Interrupt.s_instance st;
     Interrupt.hw := h |}.

(** The interrupt engine with both edge timestamps cleared. *)
Definition cleared (st : Interrupt.State) : Interrupt.State :=
  {| Interrupt.cfg := Interrupt.cfg st;
     Interrupt.s_waiting_rise := Interrupt.s_waiting_rise st;
     Interrupt.s_rise_us := 0;
     Interrupt.s_fall_us := 0;
     Interrupt.s_instance := Interrupt.s_instance st;
     Interrupt.hw := Interrupt.hw st |}.

(** The interrupt engine as a freshly armed shot leaves it. *)
Definition armed (w : World) (st : Interrupt.State) : Interrupt.State :=
  let h := Interrupt.hw st in
  let self := set_last_shot_us (next_micros w (tick h)) (Interrupt.cfg st) in
  {| Interrupt.cfg := self;
     Interrupt.s_waiting_rise := true;
     Interrupt.s_rise_us := 0;
     Interrupt.s_fall_us := 0;
     Interrupt.s_instance := Interrupt.s_instance st;
     Interrupt.hw := advance 2 (trigger_pulse (m_trig_pin self)) h |}.

(** The part of the polling [read] that follows the trigger pulse, from the
    reading of [t_start_us] on, for the object [self] of the armed shot. *)
Definition polling_measure (w : World) (fuel : nat) (out_cm : FloatRef)
    (self : IHCSR04) (h : Hw) : option (HCSR04_Status * FloatRef * Polling.State) :=
  let t_start_us := next_micros w h in
  let timeout_us := m_timeout_us self in
  match Polling.rise_loop w fuel self t_start_us timeout_us
          (next_micros w (tick h)) 0 (tick (tick h)) with
  | None => None
  | Some (t_rise_us, h) =>
      if t_rise_us =? 0 then
        Some (HCSR04_ERR_TIMEOUT_ECHO_START, out_cm,
              {| Polling.cfg := self; Polling.hw := h |})
      else
        match Polling.fall_loop w fuel self t_start_us timeout_us
                (next_micros w h) 0 (tick h) with
        | None => None
        | Some (t_fall_us, h) =>
            if t_fall_us =? 0 then
              Some (HCSR04_ERR_TIMEOUT_ECHO_END, out_cm,
                    {| Polling.cfg := self; Polling.hw := h |})
            else
              if usub t_fall_us t_rise_us =? 0 then
                Some (HCSR04_ERR_BAD_PARAM, out_cm,
                      {| Polling.cfg := self; Polling.hw := h |})
              else
                Some (HCSR04_OK,
                      store (distance_cm (m_cm_per_us self)
                               (usub t_fall_us t_rise_us)) out_cm,
                      {| Polling.cfg := self; Polling.hw := h |})
        end
  end.

(** Every clock reading from some index on has a reading outside the timeout
    window that starts at [t_start_us], less than [bound] readings later. *)
Definition leaves_window (w : World) (t_start_us timeout_us : Z) (bound : nat)
    : Prop :=
  forall i : nat,
    exists n : nat,
      (n < bound)%nat /\ timeout_us <= usub (wrap (w_time w (i + n))) t_start_us.

(** The echo line reads [l] at every sample, on every pin. *)
Definition echo_stuck (w : World) (l : Level) : Prop :=
  forall (k : nat) (pin : Z), w_level w k pin = l.

(** Steps that are reads or changes of the echo line. *)
Definition polls_only (steps : list Interrupt.Step) : Prop :=
  Forall (fun s => s = Interrupt.Read \/ s = Interrupt.EchoChange) steps.

(** No result is a timeout status. *)
Definition no_timeout (rs : list (option HCSR04_Status)) : Prop :=
  Forall (fun r => match r with
                   | Some s => is_timeout s = false
                   | None => True
                   end) rs.

(** Every call in the run answered Not-ready. *)
Definition all_not_ready (rs : list (option HCSR04_Status)) : Prop :=
  Forall (fun r => r = None \/ r = Some HCSR04_ERR_NOT_READY) rs.

(* ================================================================== *)
(** ** The polling measurement as the design describes it

    The design's two waits end when an edge has been observed or the window is
    over, and the timeouts are reported exactly when no edge was observed.
    Here "an edge has been observed" is a value of its own ([Some] of the
    timestamp), where the source uses the timestamp zero for "none yet". *)

Definition is_none {A : Type} (o : option A) : bool :=
  match o with None => true | Some _ => false end.

Fixpoint spec_rise_loop (w : World) (fuel : nat) (self : IHCSR04)
    (t_start_us timeout_us now_us : Z) (t_rise_us : option Z) (h : Hw)
    : option (option Z * Hw) :=
  if (usub now_us t_start_us <? timeout_us) && is_none t_rise_us then
    match fuel with
    | O => None
    | S fuel =>
        let (level, h) := digitalRead w (getEchoPin self) h in
        let t_rise_us := if Level_eqb level HIGH then Some now_us else t_rise_us in
        let (now_us, h) := micros w h in
        spec_rise_loop w fuel self t_start_us timeout_us now_us t_rise_us h
    end
  else Some (t_rise_us, h).

Fixpoint spec_fall_loop (w : World) (fuel : nat) (self : IHCSR04)
    (t_start_us timeout_us now_us : Z) (t_fall_us : option Z) (h : Hw)
    : option (option Z * Hw) :=
  if (usub now_us t_start_us <? timeout_us) && is_none t_fall_us then
    match fuel with
    | O => None
    | S fuel =>
        let (level, h) := digitalRead w (getEchoPin self) h in
        let t_fall_us := if Level_eqb level LOW then Some now_us else t_fall_us in
        let (now_us, h) := micros w h in
        spec_fall_loop w fuel self t_start_us timeout_us now_us t_fall_us h
    end
  else Some (t_fall_us, h).

Definition spec_polling_measure (w : World) (fuel : nat) (out_cm : FloatRef)
    (self : IHCSR04) (h : Hw) : option (HCSR04_Status * FloatRef * Polling.State) :=
  let t_start_us := next_micros w h in
  let timeout_us := m_timeout_us self in
  match spec_rise_loop w fuel self t_start_us timeout_us
          (next_micros w (tick h)) None (tick (tick h)) with
  | None => None
  | Some (None, h) =>
      Some (HCSR04_ERR_TIMEOUT_ECHO_START, out_cm,
            {| Polling.cfg := self; Polling.hw := h |})
  | Some (Some t_rise_us, h) =>
      match spec_fall_loop w fuel self t_start_us timeout_us
              (next_micros w h) None (tick h) with
      | None => None
      | Some (None, h) =>
          Some (HCSR04_ERR_TIMEOUT_ECHO_END, out_cm,
                {| Polling.cfg := self; Polling.hw := h |})
      | Some (Some t_fall_us, h) =>
          if usub t_fall_us t_rise_us =? 0 then
            Some (HCSR04_ERR_BAD_PARAM, out_cm,
                  {| Polling.cfg := self; Polling.hw := h |})
          else
            Some (HCSR04_OK,
                  store (distance_cm (m_cm_per_us self)
                           (usub t_fall_us t_rise_us)) out_cm,
                  {| Polling.cfg := self; Polling.hw := h |})
      end
  end.

(** The polling read of the design: refused by the guard, or the mark, the
    trigger pulse and the measurement above. *)
Definition spec_polling_read (w : World) (fuel : nat) (out_cm : FloatRef)
    (st : Polling.State) : option (HCSR04_Status * FloatRef * Polling.State) :=
  let self := Polling.cfg st in
  let (guard, h) := canStartShot_ w self (Polling.hw st) in
  if is_ok guard then
    let (self, h) := markShotStart_ w self h in
    spec_polling_measure w fuel out_cm self
      (advance 0 (trigger_pulse (getTrigPin self)) h)
  else
    Some (HCSR04_ERR_BAD_STATE, out_cm, {| Polling.cfg := self; Polling.hw := h |}).

(** The timestamp of the source read as "observed or not". *)
Definition seen (t_us : Z) : option Z := if t_us =? 0 then None else Some t_us.

(** No reading of the clock is zero. *)
Definition clock_never_zero (w : World) : Prop :=
  forall k : nat, wrap (w_time w k) <> 0.

(* ================================================================== *)
(** ** Worlds and objects of the examples *)

(** A world given by the first clock readings and the first levels of the
    echo line (the same on every pin), and what comes after them. *)
Definition script (times : list Z) (t_after : Z) (levels : list Level)
    (l_after : Level) : World :=
  {| w_time := fun k => nth k times t_after;
     w_level := fun k _ => nth k levels l_after |}.

Definition out0 : FloatRef := mkRef F_0_0 0.

(** A polling object with the default timeout, speed and cycle, just built. *)
Definition polling_fresh : Polling.State :=
  Polling.new 9 8 HCSR04_DEFAULT_TIMEOUT_US HCSR04_CM_PER_US
    HCSR04_DEFAULT_MIN_CYCLE_US.

(** An interrupt object with the default timeout, speed and cycle, just built. *)
Definition interrupt_fresh : Interrupt.State :=
  Interrupt.new 9 2 HCSR04_DEFAULT_TIMEOUT_US HCSR04_CM_PER_US
    HCSR04_DEFAULT_MIN_CYCLE_US.

(** One millisecond after reset, the echo line low. *)
Definition world_1ms : World := script [] 1000 [] LOW.

(** The scenario of the design: a shot at 70 ms, the echo rises 200 us after
    the trigger fell and falls 600 us after that. *)
Definition world_polling_600us : World :=
  script [70000; 70004; 70020; 70024; 70220; 70224; 70228; 70820; 70824]
         70900
         [LOW; HIGH; HIGH; LOW] LOW.

(** A slow sampler: the clock readings are 40 ms apart, from 100 ms on. *)
Definition world_coarse : World :=
  {| w_time := fun k => 100000 + 40000 * Z.of_nat k;
     w_level := fun _ _ => LOW |}.

(** An object whose last shot started 100 us before the clock wraps, and two
    worlds where the clock reads 50 us and 59900 us past the wrap. *)
Definition shot_before_wrap : IHCSR04 :=
  set_last_shot_us 4294967196 (IHCSR04_new_default 9 8).

Definition world_wrapped_50us : World := script [] 4294967346 [] LOW.
Definition world_wrapped_59900us : World := script [] 4295027196 [] LOW.

(** A shot at 70 ms, a rising edge at 70.5 ms, a falling edge at 71.1 ms (a
    high time of 600 us), and reads at 72 ms and 73 ms. *)
Definition world_echo_600us : World :=
  script [70000; 70004; 70500; 71100; 72000; 73000] 73000 [HIGH; LOW] LOW.







(** A shot 30.1 ms before the clock wraps.  The echo line is sampled low,
    low, and then high at the very reading where the clock is back to zero,
    29996 us after the trigger fell; the next reading is 4 us later, when the
    window of 30000 us is over. *)
Definition world_rise_at_zero : World :=
  script [4294937196; 4294937200; 4294937300; 4294937304; 4294957296;
          4294967296; 4294967300] 4294967400
         [LOW; LOW; HIGH] LOW.

(** The same shot with an echo that rises 500 us after the trigger fell and
    is sampled low again at the reading where the clock is back to zero. *)
Definition world_fall_at_zero : World :=
  script [4294937196; 4294937200; 4294937300; 4294937304; 4294937800;
          4294937804; 4294937808; 4294957296; 4294967296; 4294967300]
         4294967400
         [LOW; HIGH; HIGH; HIGH; LOW] LOW.

(** A tight loop on the 16 MHz board: the trigger falls 29992 us before the
    clock wraps ([t_start_us] is the third reading) and the readings of the
    loop follow 8 us apart, so that reading number 3751 is zero. *)
Definition tight_loop_time (k : nat) : Z :=
  match k with
  | O => 4294937280
  | S O => 4294937288
  | _ => 4294937304 + 8 * (Z.of_nat k - 2)
  end.

(** The echo rises at the very sample taken at the clock reading zero. *)
Definition world_tight_rise_at_zero : World :=
  {| w_time := tight_loop_time;
     w_level := fun k _ => if (k =? 3748)%nat then HIGH else LOW |}.

(** The echo rises half a millisecond after the trigger fell and is sampled
    low again 29.5 ms later (an obstacle some five metres away), at the clock
    reading zero. *)
Definition world_tight_fall_at_zero : World :=
  {| w_time := tight_loop_time;
     w_level := fun k _ =>
       if (k <? 60)%nat then LOW else if (k <? 3747)%nat then HIGH else LOW |}.

(* ================================================================== *)
(** ** Vocabulary of the further properties *)

(** The configuration the setters accept: a timeout of at least the trigger
    pulse plus 100 us, a minimum cycle that is not zero, a speed of sound
    strictly between [0.02F] and [0.06F]. *)
Definition config_valid (self : IHCSR04) : Prop :=
  HCSR04_TRIG_PULSE_US + 100 <= m_timeout_us self /\
  m_min_cycle_us self <> 0 /\
  f32_ltb F_0_02 (m_cm_per_us self) = true /\
  f32_ltb (m_cm_per_us self) F_0_06 = true.

(** Two objects that differ at most in their pins. *)
Definition same_but_pins (a b : IHCSR04) : Prop :=
  m_timeout_us a = m_timeout_us b /\
  m_cm_per_us a = m_cm_per_us b /\
  m_min_cycle_us a = m_min_cycle_us b /\
  m_last_shot_us a = m_last_shot_us b.

(** The clock never runs backwards and never gets a full period ahead. *)
Definition clock_steady (w : World) : Prop :=
  forall i j : nat, (i <= j)%nat -> 0 <= w_time w j - w_time w i < ULONG_MOD.

(** A float that is neither NaN nor negative. *)
Definition f32_nonneg (x : float) : bool :=
  match x with
  | S754_zero false | S754_infinity false | S754_finite false _ _ => true
  | _ => false
  end.

(** A clock that starts at [t0] and advances by [step] at each of the first
    [cap] readings, and a line that is high at the samples of [highs]. *)
Definition ramp (t0 step : Z) (cap : nat) (highs : list nat) : World :=
  {| w_time := fun k => t0 + step * Z.of_nat (Nat.min k cap);
     w_level := fun k _ => if existsb (Nat.eqb k) highs then HIGH else LOW |}.

(** Readings 100 us apart from 70 ms on; the echo is high at the second and
    third sample. *)
Definition world_ramp_echo : World := ramp 70000 100 50 [1%nat; 2%nat].

(** Readings 20 ms apart from 100 ms on; the echo line never leaves high. *)
Definition world_ramp_high : World :=
  {| w_time := fun k => 100000 + 20000 * Z.of_nat (Nat.min k 50);
     w_level := fun _ _ => HIGH |}.

(** The world of the 600 us echo with the echo line high once more at
    71.5 ms, before the second read. *)
Definition world_second_pulse : World :=
  script [70000; 70004; 70500; 71100; 71500; 72000] 72000 [HIGH; LOW; HIGH] LOW.

Definition interrupt_second_captured : Interrupt.State :=
  snd (Interrupt.run world_second_pulse
         [Interrupt.Begin; Interrupt.Read; Interrupt.EchoChange;
          Interrupt.EchoChange] out0 interrupt_fresh).

(** A shot 500 us before the clock wraps; the callback sees the rise at the
    reading zero and the fall 600 us later. *)
Definition world_isr_rise_at_zero : World :=
  script [4294966796; 4294966800; 4294967296; 4294967896; 4294968296]
         4294968296 [HIGH; LOW] LOW.

Definition interrupt_armed_before_wrap : Interrupt.State :=
  snd (Interrupt.run world_isr_rise_at_zero
         [Interrupt.Begin; Interrupt.Read] out0 interrupt_fresh).

(** An interrupt object built with a minimum cycle of zero, after [begin]. *)
Definition interrupt_no_cycle : Interrupt.State :=
  snd (Interrupt.begin
         (Interrupt.new 9 2 HCSR04_DEFAULT_TIMEOUT_US HCSR04_CM_PER_US 0)).

(** The interrupt object of the examples after [begin]. *)
Definition interrupt_begun : Interrupt.State :=
  snd (Interrupt.begin interrupt_fresh).

(** The board after one [digitalRead()] and one [micros()], as the echo
    callback leaves it. *)
Definition sampled (h : Hw) : Hw :=
  {| hw_ticks := S (hw_ticks h); hw_samples := S (hw_samples h);
     hw_trace := hw_trace h |}.

(** The level the next [digitalRead()] of the echo pin gives. *)
Definition next_level (w : World) (st : Interrupt.State) : Level :=
  w_level w (hw_samples (Interrupt.hw st)) (getEchoPin (Interrupt.cfg st)).

(** No callback runs inside the call. *)
Definition no_callbacks (p : Interrupt.Preemption) : Prop :=
  Interrupt.after_guard p = 0%nat /\ Interrupt.after_mark p = 0%nat /\
  Interrupt.after_waiting p = 0%nat /\ Interrupt.after_rise p = 0%nat /\
  Interrupt.in_pulse p = 0%nat /\ Interrupt.in_test p = 0%nat /\
  Interrupt.after_test p = 0%nat /\ Interrupt.in_difference p = 0%nat /\
  Interrupt.in_convert p = 0%nat /\ Interrupt.in_clear p = 0%nat.




(** Two callbacks during the trigger pulse. *)
Definition preempt_in_pulse : Interrupt.Preemption :=
  {| Interrupt.after_guard := 0; Interrupt.after_mark := 0;
     Interrupt.after_waiting := 0; Interrupt.after_rise := 0;
     Interrupt.in_pulse := 2; Interrupt.in_test := 0;
     Interrupt.after_test := 0; Interrupt.rise_read_first := false;
     Interrupt.in_difference := 0; Interrupt.in_convert := 0;
     Interrupt.in_clear := 0 |}.



(** A read at 70 ms with the echo line high and low again 6 us and 10 us
    after the mark, inside the trigger pulse. *)
Definition world_edges_in_pulse : World :=
  script [70000; 70004; 70010; 70014] 70014 [HIGH; LOW] LOW.

(** What a shift record of the rounding of [SpecFloat] says of the number
    [m0] it came from, [k] bits having been shifted out: the bits left, and
    where the bits shifted out lie against the half of the last place. *)
Definition shr_inv (m0 k : Z) (mrs : shr_record) : Prop :=
  0 <= shr_m mrs /\
  exists rem : Z,
    m0 = shr_m mrs * 2 ^ k + rem /\ 0 <= rem < 2 ^ k /\
    match shr_r mrs, shr_s mrs with
    | false, false => rem = 0
    | false, true => 0 < 2 * rem < 2 ^ k
    | true, false => 2 * rem = 2 ^ k
    | true, true => 2 ^ k < 2 * rem
    end.
(* ================================================================== *)
(** ** Machine arithmetic *)

Lemma ULONG_MOD_eq : ULONG_MOD = 4294967296.
Proof. reflexivity. Qed.

Lemma wrap_range (x : Z) : 0 <= wrap x < ULONG_MOD.
Proof. unfold wrap. apply Z.mod_pos_bound. rewrite ULONG_MOD_eq. lia. Qed.

Lemma wrap_small (x : Z) : 0 <= x < ULONG_MOD -> wrap x = x.
Proof. intros H. unfold wrap. now apply Z.mod_small. Qed.

Lemma usub_range (a b : Z) : 0 <= usub a b < ULONG_MOD.
Proof. apply wrap_range. Qed.

Lemma usub_diag (a : Z) : usub a a = 0.
Proof. unfold usub. rewrite Z.sub_diag. reflexivity. Qed.

(** Unsigned subtraction of two clock readings gives the time that really
    went by, as long as that is less than one period of the clock. *)
Lemma usub_true_elapsed (t0 t1 : Z) :
  0 <= t1 - t0 < ULONG_MOD -> usub (wrap t1) (wrap t0) = t1 - t0.
Proof.
  intros H. unfold usub, wrap.
  rewrite <- Zminus_mod. now apply Z.mod_small.
Qed.

(** When the later reading is the smaller one, the clock has wrapped, and the
    subtraction adds the period back. *)
Lemma usub_wrapped (last now : Z) :
  0 <= now < last -> last < ULONG_MOD -> usub now last = now + ULONG_MOD - last.
Proof.
  intros H1 H2. unfold usub, wrap.
  replace (now - last) with (now + ULONG_MOD - last + (-1) * ULONG_MOD) by ring.
  rewrite Z.mod_add by (rewrite ULONG_MOD_eq; lia).
  apply Z.mod_small. lia.
Qed.

(* ================================================================== *)
(** ** The board *)

Lemma micros_eq (w : World) (h : Hw) : micros w h = (next_micros w h, tick h).
Proof. reflexivity. Qed.

Lemma tick_trace (h : Hw) : hw_trace (tick h) = hw_trace h.
Proof. reflexivity. Qed.

(* ================================================================== *)
(** ** Cycle guard *)

Lemma canStartShot_eq (w : World) (self : IHCSR04) (h : Hw) :
  canStartShot_ w self h =
  (if usub (next_micros w h) (m_last_shot_us self) >=? m_min_cycle_us self
   then HCSR04_OK else HCSR04_ERR_BUSY, tick h).
Proof. reflexivity. Qed.

Lemma canStartShot_denied (w : World) (self : IHCSR04) (h : Hw) :
  guard_denies w self h ->
  canStartShot_ w self h = (HCSR04_ERR_BUSY, tick h).
Proof.
  unfold guard_denies. intros H. rewrite canStartShot_eq.
  destruct (Z.geb_spec (usub (next_micros w h) (m_last_shot_us self))
              (m_min_cycle_us self)); [lia | reflexivity].
Qed.

Lemma canStartShot_allowed (w : World) (self : IHCSR04) (h : Hw) :
  ~ guard_denies w self h ->
  canStartShot_ w self h = (HCSR04_OK, tick h).
Proof.
  unfold guard_denies. intros H. rewrite canStartShot_eq.
  destruct (Z.geb_spec (usub (next_micros w h) (m_last_shot_us self))
              (m_min_cycle_us self)); [reflexivity | lia].
Qed.

Lemma guard_denies_dec (w : World) (self : IHCSR04) (h : Hw) :
  guard_denies w self h \/ ~ guard_denies w self h.
Proof. unfold guard_denies. lia. Qed.

Lemma markShotStart_eq (w : World) (self : IHCSR04) (h : Hw) :
  markShotStart_ w self h = (set_last_shot_us (next_micros w h) self, tick h).
Proof. reflexivity. Qed.

Lemma canStartShot_ok_iff (w : World) (self : IHCSR04) (h : Hw) :
  fst (canStartShot_ w self h) = HCSR04_OK <->
  m_min_cycle_us self <= usub (next_micros w h) (m_last_shot_us self).
Proof.
  destruct (guard_denies_dec w self h) as [D | D].
  - rewrite canStartShot_denied by assumption. unfold guard_denies in D.
    cbn [fst]. split; [discriminate | lia].
  - rewrite canStartShot_allowed by assumption. unfold guard_denies in D.
    cbn [fst]. split; [lia | reflexivity].
Qed.

Lemma canStartShot_busy_iff (w : World) (self : IHCSR04) (h : Hw) :
  fst (canStartShot_ w self h) = HCSR04_ERR_BUSY <-> guard_denies w self h.
Proof.
  destruct (guard_denies_dec w self h) as [D | D].
  - rewrite canStartShot_denied by assumption. cbn [fst]. tauto.
  - rewrite canStartShot_allowed by assumption. cbn [fst].
    split; [discriminate | tauto].
Qed.

(** A guard that reads the clock value the mark has just recorded. *)
Lemma canStartShot_after_mark_same_clock (w : World) (self : IHCSR04) (h0 : Hw) :
  0 < m_min_cycle_us self ->
  next_micros w (snd (markShotStart_ w self h0)) = next_micros w h0 ->
  fst (canStartShot_ w (fst (markShotStart_ w self h0))
         (snd (markShotStart_ w self h0))) = HCSR04_ERR_BUSY.
Proof.
  intros Hmin Hsame. apply canStartShot_busy_iff.
  unfold guard_denies. rewrite Hsame, markShotStart_eq.
  cbn [fst m_last_shot_us set_last_shot_us m_min_cycle_us].
  rewrite usub_diag. assumption.
Qed.

(** A guard less than one clock period after the mark, in true time. *)
Lemma canStartShot_after_mark_true_time (w : World) (self : IHCSR04) (h0 h : Hw) :
  0 <= w_time w (hw_ticks h) - w_time w (hw_ticks h0) < ULONG_MOD ->
  (fst (canStartShot_ w (fst (markShotStart_ w self h0)) h) = HCSR04_OK <->
   m_min_cycle_us self <= w_time w (hw_ticks h) - w_time w (hw_ticks h0)).
Proof.
  intros H. rewrite canStartShot_ok_iff, markShotStart_eq.
  cbn [fst m_last_shot_us set_last_shot_us m_min_cycle_us].
  unfold next_micros. rewrite usub_true_elapsed by assumption. tauto.
Qed.

(** C4.  [canStartShot_] reads the clock once and answers OK exactly when
    the unsigned difference (modulo 2^32) between that reading and the
    last-shot timestamp is at least the minimum cycle interval, and Busy
    exactly when it is less; it changes nothing but the board's count of clock
    readings.  With a positive minimum cycle interval, a guard that reads the
    clock value [markShotStart_] has just recorded answers Busy.  Across a
    wrap of the clock the difference is still the time that went by: for true
    times [t0] at the mark and [t1] at the guard less than one clock period
    apart the answer is OK exactly when [t1 - t0] reaches the interval, and
    when the reading is below the timestamp the period is added back. *)
Theorem canStartShot_wraparound_safe (w : World) (self : IHCSR04) (h : Hw) :
  let now_us := wrap (w_time w (hw_ticks h)) in
  let elapsed := (now_us - m_last_shot_us self) mod 2 ^ 32 in
  (fst (canStartShot_ w self h) = HCSR04_OK <-> m_min_cycle_us self <= elapsed) /\
  (fst (canStartShot_ w self h) = HCSR04_ERR_BUSY <-> elapsed < m_min_cycle_us self) /\
  snd (canStartShot_ w self h) = tick h /\
  (forall h0,
      0 < m_min_cycle_us self ->
      next_micros w (snd (markShotStart_ w self h0)) = next_micros w h0 ->
      fst (canStartShot_ w (fst (markShotStart_ w self h0))
             (snd (markShotStart_ w self h0))) = HCSR04_ERR_BUSY) /\
  (forall h0,
      let t0 := w_time w (hw_ticks h0) in
      let t1 := w_time w (hw_ticks h) in
      0 <= t1 - t0 < 2 ^ 32 ->
      (fst (canStartShot_ w (fst (markShotStart_ w self h0)) h) = HCSR04_OK
       <-> m_min_cycle_us self <= t1 - t0)) /\
  (0 <= now_us < m_last_shot_us self -> m_last_shot_us self < 2 ^ 32 ->
   elapsed = now_us + 2 ^ 32 - m_last_shot_us self).
Proof.
  intros now_us elapsed.
  assert (E : elapsed = usub (next_micros w h) (m_last_shot_us self)) by reflexivity.
  split; [| split; [| split; [| split; [| split]]]].
  - rewrite E. apply canStartShot_ok_iff.
  - rewrite E. apply canStartShot_busy_iff.
  - reflexivity.
  - intros h0. apply canStartShot_after_mark_same_clock.
  - intros h0 t0 t1. apply canStartShot_after_mark_true_time.
  - intros H1 H2. rewrite E. apply usub_wrapped; assumption.
Qed.

(** Across the wrap: 150 us after the shot the guard answers Busy, 60000 us
    after it the guard answers OK, although both readings are below the
    timestamp. *)
Example canStartShot_across_wrap :
  next_micros world_wrapped_50us hw0 = 50 /\
  fst (canStartShot_ world_wrapped_50us shot_before_wrap hw0) = HCSR04_ERR_BUSY /\
  next_micros world_wrapped_59900us hw0 = 59900 /\
  fst (canStartShot_ world_wrapped_59900us shot_before_wrap hw0) = HCSR04_OK.
Proof. repeat split; vm_compute; reflexivity. Qed.

(* ================================================================== *)
(** ** Distance conversion *)

Lemma F_0_5_is_half : f32_div (f32_of_Z 1) (f32_of_Z 2) = F_0_5.
Proof. reflexivity. Qed.

Lemma F_0_0343_literal : f32_div (f32_of_Z 343) (f32_of_Z 10000) = F_0_0343.
Proof. reflexivity. Qed.

Lemma timeUsToCm_nonzero (self : IHCSR04) (echo_high_us : Z) (out_cm : FloatRef) :
  echo_high_us <> 0 ->
  timeUsToCm_ self echo_high_us out_cm =
  (HCSR04_OK, store (distance_cm (m_cm_per_us self) echo_high_us) out_cm).
Proof.
  intros H. unfold timeUsToCm_.
  destruct (Z.eqb_spec echo_high_us 0); [contradiction | reflexivity].
Qed.

Lemma timeUsToCm_zero (self : IHCSR04) (out_cm : FloatRef) :
  timeUsToCm_ self 0 out_cm = (HCSR04_ERR_BAD_PARAM, out_cm).
Proof. reflexivity. Qed.

(** The status of a conversion is OK or Bad-param, and the cell is stored to
    exactly when it is OK. *)
Lemma timeUsToCm_cases (self : IHCSR04) (echo_high_us : Z) (out_cm : FloatRef) :
  (echo_high_us <> 0 /\
   timeUsToCm_ self echo_high_us out_cm =
   (HCSR04_OK, store (distance_cm (m_cm_per_us self) echo_high_us) out_cm)) \/
  (echo_high_us = 0 /\
   timeUsToCm_ self echo_high_us out_cm = (HCSR04_ERR_BAD_PARAM, out_cm)).
Proof.
  destruct (Z.eq_dec echo_high_us 0) as [E | E].
  - right. subst. split; reflexivity.
  - left. split; [assumption | now apply timeUsToCm_nonzero].
Qed.

(** The scenario of a 600 us high time at the default speed: 10.29 cm to
    within a hundredth of a millimetre. *)
Example distance_600us :
  distance_cm HCSR04_CM_PER_US 600 = S754_finite false 10789847 (-20) /\
  10289 * 2 ^ 20 < 10789847 * 1000 < 10290 * 2 ^ 20.
Proof. split; [reflexivity | lia]. Qed.

(* ================================================================== *)
(** ** Configuration setters *)

Lemma setTrigPin_commits (p : Z) (self : IHCSR04) :
  commits_iff (p <> m_echo_pin self) (setTrigPin p self) (set_trig_pin p self) self.
Proof.
  unfold commits_iff, setTrigPin.
  destruct (Z.eqb_spec p (m_echo_pin self)); cbn [negb fst];
    repeat split; intros; try tauto; try congruence; try discriminate.
Qed.

Lemma setEchoPin_commits (p : Z) (self : IHCSR04) :
  commits_iff (p <> m_trig_pin self) (setEchoPin p self) (set_echo_pin p self) self.
Proof.
  unfold commits_iff, setEchoPin.
  destruct (Z.eqb_spec p (m_trig_pin self)); cbn [negb fst];
    repeat split; intros; try tauto; try congruence; try discriminate.
Qed.

Lemma setTimeoutUs_commits (v : Z) (self : IHCSR04) :
  commits_iff (HCSR04_TRIG_PULSE_US + 100 <= v) (setTimeoutUs v self)
    (set_timeout_us v self) self.
Proof.
  unfold commits_iff, setTimeoutUs.
  destruct (Z.geb_spec v (HCSR04_TRIG_PULSE_US + 100)); cbn [fst];
    repeat split; intros; try tauto; try lia; try discriminate.
Qed.

Lemma setMinCycleUs_commits (v : Z) (self : IHCSR04) :
  commits_iff (v <> 0) (setMinCycleUs v self) (set_min_cycle_us v self) self.
Proof.
  unfold commits_iff, setMinCycleUs.
  destruct (Z.eqb_spec v 0); cbn [negb fst];
    repeat split; intros; try tauto; try congruence; try discriminate.
Qed.

Lemma setSoundSpeed_commits (v : float) (self : IHCSR04) :
  commits_iff (f32_ltb F_0_02 v = true /\ f32_ltb v F_0_06 = true)
    (setSoundSpeed v self) (set_cm_per_us v self) self.
Proof.
  unfold commits_iff, setSoundSpeed.
  destruct (f32_ltb F_0_02 v), (f32_ltb v F_0_06); cbn [andb fst];
    repeat split; intros; try tauto; try discriminate;
    try (exfalso; intuition discriminate).
Qed.

(** A setter changes no field but its own. *)
Lemma call_setter_last_shot (c : Setter) (self : IHCSR04) :
  m_last_shot_us (snd (call_setter c self)) = m_last_shot_us self.
Proof.
  destruct c as [p | p | v | v | v]; cbn [call_setter].
  - unfold setTrigPin. destruct (negb _); reflexivity.
  - unfold setEchoPin. destruct (negb _); reflexivity.
  - unfold setTimeoutUs. destruct (_ >=? _); reflexivity.
  - unfold setMinCycleUs. destruct (negb _); reflexivity.
  - unfold setSoundSpeed. destruct (_ && _); reflexivity.
Qed.

Lemma call_setter_status (c : Setter) (self : IHCSR04) :
  fst (call_setter c self) = HCSR04_OK \/
  fst (call_setter c self) = HCSR04_ERR_BAD_PARAM.
Proof.
  destruct c as [p | p | v | v | v]; cbn [call_setter].
  - unfold setTrigPin. destruct (negb _); auto.
  - unfold setEchoPin. destruct (negb _); auto.
  - unfold setTimeoutUs. destruct (_ >=? _); auto.
  - unfold setMinCycleUs. destruct (negb _); auto.
  - unfold setSoundSpeed. destruct (_ && _); auto.
Qed.

Lemma call_setter_pins_differ (c : Setter) (self : IHCSR04) :
  pins_differ self -> pins_differ (snd (call_setter c self)).
Proof.
  unfold pins_differ. intros H.
  destruct c as [p | p | v | v | v]; cbn [call_setter].
  - unfold setTrigPin. destruct (Z.eqb_spec p (m_echo_pin self)); cbn; congruence.
  - unfold setEchoPin. destruct (Z.eqb_spec p (m_trig_pin self)); cbn; congruence.
  - unfold setTimeoutUs. destruct (_ >=? _); cbn; assumption.
  - unfold setMinCycleUs. destruct (negb _); cbn; assumption.
  - unfold setSoundSpeed. destruct (_ && _); cbn; assumption.
Qed.

(** *** The window of the sound speed, on the values of the floats *)

Lemma digits2_pos_bounds (m : positive) :
  2 ^ (Zpos (digits2_pos m) - 1) <= Zpos m < 2 ^ Zpos (digits2_pos m).
Proof.
  induction m as [m IH | m IH |]; cbn [digits2_pos].
  - rewrite Pos2Z.inj_succ.
    replace (Z.succ (Zpos (digits2_pos m)) - 1) with (Z.succ (Zpos (digits2_pos m) - 1)) by lia.
    rewrite !Z.pow_succ_r by lia. lia.
  - rewrite Pos2Z.inj_succ.
    replace (Z.succ (Zpos (digits2_pos m)) - 1) with (Z.succ (Zpos (digits2_pos m) - 1)) by lia.
    rewrite !Z.pow_succ_r by lia. lia.
  - cbn. lia.
Qed.

(** A valid finite float: the exponent is at least -149, the mantissa is below
    2^24, and above the lowest exponent it is at least 2^23. *)
Lemma f32_valid_finite (s : bool) (m : positive) (e : Z) :
  f32_valid (S754_finite s m e) = true ->
  -149 <= e <= 104 /\ Zpos m < 2 ^ 24 /\ (-149 < e -> 2 ^ 23 <= Zpos m).
Proof.
  unfold f32_valid, valid_binary, bounded, canonical_mantissa, fexp, emin,
    F32_PREC, F32_EMAX.
  intros H. apply andb_true_iff in H. destruct H as [C B].
  apply Z.eqb_eq in C. apply Z.leb_le in B.
  pose proof (digits2_pos_bounds m) as D.
  set (d := Zpos (digits2_pos m)) in *.
  assert (d <= 24 /\ -149 <= e /\ (-149 < e -> d = 24)) as (D1 & D2 & D3) by lia.
  split; [lia |]. split.
  - apply Z.lt_le_trans with (2 ^ d); [lia |].
    apply Z.pow_le_mono_r; lia.
  - intros H. rewrite (D3 H) in D. cbn in D. cbn. lia.
Qed.

(** The order of two positive finite floats: by exponent, then mantissa. *)
Lemma f32_ltb_finite (m1 m2 : positive) (e1 e2 : Z) :
  f32_ltb (S754_finite false m1 e1) (S754_finite false m2 e2) = true <->
  e1 < e2 \/ (e1 = e2 /\ Zpos m1 < Zpos m2).
Proof.
  unfold f32_ltb, SFltb, SFcompare.
  destruct (Z.compare_spec e1 e2) as [E | L | G].
  - change (Pos.compare_cont Eq m1 m2) with (Pos.compare m1 m2).
    destruct (Pos.compare_spec m1 m2) as [Em | Lm | Gm];
      split; intros H; try discriminate; try reflexivity; lia.
  - split; intros H; [lia | reflexivity].
  - split; intros H; [discriminate | lia].
Qed.

Lemma f32_ltb_0_02_finite (m : positive) (e : Z) :
  f32_ltb F_0_02 (S754_finite false m e) = true <->
  -29 < e \/ (e = -29 /\ 10737418 < Zpos m).
Proof.
  unfold F_0_02. rewrite f32_ltb_finite.
  split; (intros [H | [H1 H2]]; [left; lia | right; split; [lia | exact H2]]).
Qed.

Lemma f32_ltb_finite_0_06 (m : positive) (e : Z) :
  f32_ltb (S754_finite false m e) F_0_06 = true <->
  e < -28 \/ (e = -28 /\ Zpos m < 16106127).
Proof. unfold F_0_06. apply f32_ltb_finite. Qed.

(** The window of [setSoundSpeed] on the values of valid floats. *)
Lemma sound_speed_window_scaled (m e : Z) :
  -149 <= e -> 0 < m < 2 ^ 24 -> (-149 < e -> 2 ^ 23 <= m) ->
  ((-29 < e \/ (e = -29 /\ 10737418 < m)) /\
   (e < -28 \/ (e = -28 /\ m < 16106127)) <->
   10737418 * 2 ^ 120 < m * 2 ^ (e + 149) < 16106127 * 2 ^ 121).
Proof.
  intros He Hm Hn.
  change (2 ^ 24) with 16777216 in Hm. change (2 ^ 23) with 8388608 in Hn.
  assert (P120 : 2 ^ 120 = 2 * 2 ^ 119) by reflexivity.
  assert (P121 : 2 ^ 121 = 4 * 2 ^ 119) by reflexivity.
  assert (P119 : 0 < 2 ^ 119) by reflexivity.
  rewrite P120, P121. set (c := 2 ^ 119) in *.
  destruct (Z_lt_le_dec e (-29)) as [L | G].
  - assert (B : 2 ^ (e + 149) <= c) by (apply Z.pow_le_mono_r; lia).
    assert (0 < 2 ^ (e + 149)) by (apply Z.pow_pos_nonneg; lia).
    split; [lia | nia].
  - destruct (Z.eq_dec e (-29)) as [-> | N1].
    { change (2 ^ (-29 + 149)) with (2 * c). split; [nia | nia]. }
    destruct (Z.eq_dec e (-28)) as [-> | N2].
    { change (2 ^ (-28 + 149)) with (4 * c). specialize (Hn ltac:(lia)).
      split; [nia | nia]. }
    assert (B : 8 * c <= 2 ^ (e + 149)).
    { change (8 * c) with (2 ^ 122). apply Z.pow_le_mono_r; lia. }
    specialize (Hn ltac:(lia)).
    split; [lia | nia].
Qed.

Lemma sound_speed_window (v : float) :
  f32_valid v = true ->
  (f32_ltb F_0_02 v = true /\ f32_ltb v F_0_06 = true <->
   exists n, f32_scaled v = Some n /\
             10737418 * 2 ^ 120 < n < 16106127 * 2 ^ 121).
Proof.
  intros V.
  destruct v as [s | s | | s m e].
  - split.
    + intros [H _]. destruct s; discriminate.
    + intros (n & E & H). assert (n = 0) by (cbn in E; congruence). lia.
  - split.
    + intros [H1 H2]. destruct s; discriminate.
    + intros (n & E & _). discriminate.
  - split.
    + intros [H _]. discriminate.
    + intros (n & E & _). discriminate.
  - destruct (f32_valid_finite s m e V) as (He & Hm & Hn).
    destruct s.
    + split.
      * intros [H _]. discriminate.
      * intros (n & E & H).
        change (f32_scaled (S754_finite true m e))
          with (Some (-1 * (Zpos m * 2 ^ (e + 149)))) in E.
        assert (N : n = -1 * (Zpos m * 2 ^ (e + 149))) by congruence.
        assert (0 < 2 ^ (e + 149)) by (apply Z.pow_pos_nonneg; lia).
        assert (0 < Zpos m * 2 ^ (e + 149)) by (apply Z.mul_pos_pos; lia).
        assert (0 < 2 ^ 120) by reflexivity.
        lia.
    + change (f32_scaled (S754_finite false m e))
        with (Some (1 * (Zpos m * 2 ^ (e + 149)))).
      rewrite Z.mul_1_l, f32_ltb_0_02_finite, f32_ltb_finite_0_06.
      rewrite (sound_speed_window_scaled (Zpos m) e) by lia.
      split.
      * intros H. eexists. split; [reflexivity | exact H].
      * intros (n & E & H). congruence.
Qed.

(** [0.02F] and [0.06F] are the floats next to 1/50 and 3/50, both below. *)
Lemma sound_speed_bounds_literals :
  f32_div (f32_of_Z 2) (f32_of_Z 100) = F_0_02 /\
  f32_div (f32_of_Z 6) (f32_of_Z 100) = F_0_06 /\
  f32_scaled F_0_02 = Some (10737418 * 2 ^ 120) /\
  f32_scaled F_0_06 = Some (16106127 * 2 ^ 121) /\
  10737418 * 50 < 2 ^ 29 < 10737419 * 50 /\
  16106127 * 50 < 3 * 2 ^ 28 < 16106128 * 50.
Proof. repeat split; reflexivity. Qed.

(** C8.  Each numeric setter commits its argument and answers OK exactly
    when the argument is valid, and otherwise answers Bad-param and leaves
    the object as it was.  [setTimeoutUs v]: valid is [v >= pulse width + 100];
    the pulse width plus 100 is accepted, the pulse width plus 99 is not.
    [setMinCycleUs v]: valid is [v <> 0].  [setSoundSpeed v]: valid is
    [0.02F < v] and [v < 0.06F] in the order of single precision floats; the
    two ends [0.02F] and [0.06F] are not accepted.  On the floats of the
    format that order is the order of the values: [v] is accepted exactly
    when it is finite and its value lies strictly between the values of
    [0.02F] and [0.06F] (all three scaled by 2^149 to integers). *)
Theorem numeric_setters_commit_iff_valid (self : IHCSR04) :
  (forall v,
      commits_iff (v >= HCSR04_TRIG_PULSE_US + 100) (setTimeoutUs v self)
        (set_timeout_us v self) self) /\
  setTimeoutUs (HCSR04_TRIG_PULSE_US + 100) self =
    (HCSR04_OK, set_timeout_us (HCSR04_TRIG_PULSE_US + 100) self) /\
  setTimeoutUs (HCSR04_TRIG_PULSE_US + 99) self = (HCSR04_ERR_BAD_PARAM, self) /\
  (forall v,
      commits_iff (v <> 0) (setMinCycleUs v self) (set_min_cycle_us v self) self) /\
  (forall v,
      commits_iff (f32_ltb F_0_02 v = true /\ f32_ltb v F_0_06 = true)
        (setSoundSpeed v self) (set_cm_per_us v self) self) /\
  setSoundSpeed F_0_02 self = (HCSR04_ERR_BAD_PARAM, self) /\
  setSoundSpeed F_0_06 self = (HCSR04_ERR_BAD_PARAM, self) /\
  (forall v,
      f32_valid v = true ->
      (fst (setSoundSpeed v self) = HCSR04_OK <->
       exists n, f32_scaled v = Some n /\
                 10737418 * 2 ^ 120 < n < 16106127 * 2 ^ 121)) /\
  (forall v, getTimeoutUs (set_timeout_us v self) = v) /\
  (forall v, getMinCycleUs (set_min_cycle_us v self) = v) /\
  (forall v, getSoundSpeed (set_cm_per_us v self) = v).
Proof.
  split; [| split; [| split; [| split; [| split; [| split; [| split; [| split]]]]]]].
  - intros v. destruct (setTimeoutUs_commits v self) as (A & B & C).
    unfold commits_iff. split; [| split; [| split]].
    + intros H. apply A. lia.
    + intros H. apply B. lia.
    + intros H. apply Z.le_ge. now apply C.
    + intros H. apply C. lia.
  - reflexivity.
  - reflexivity.
  - intros v. apply setMinCycleUs_commits.
  - intros v. apply setSoundSpeed_commits.
  - reflexivity.
  - reflexivity.
  - intros v V. destruct (setSoundSpeed_commits v self) as (_ & _ & C).
    rewrite C. now apply sound_speed_window.
  - split; [| split]; intros v; reflexivity.
Qed.

(* ================================================================== *)
(** ** The value of the distance

    What the single precision operations of [timeUsToCm_] compute, on the
    exact values of the floats: [static_cast<float>] and the product round to
    nearest, each with a relative error of at most 2^-24, and the
    multiplication with [0.5F] is exact.  Values are integers: that of a
    finite float times a power of two ([f32_scaled]: times 2^149). *)

Lemma shr_1_inv (m0 k : Z) (mrs : shr_record) :
  0 <= k -> shr_inv m0 k mrs -> shr_inv m0 (k + 1) (shr_1 mrs).
Proof.
  intros Hk (Hm & rem & E & R & C). unfold shr_inv.
  rewrite Z.pow_add_r by lia. change (2 ^ 1) with 2.
  assert (P : 0 < 2 ^ k) by (apply Z.pow_pos_nonneg; lia).
  destruct mrs as [m r s]. cbn [shr_m shr_r shr_s] in *.
  destruct m as [| p | p]; [| | lia].
  - split; [cbn; lia |]. exists rem.
    destruct r, s; cbn [shr_1 shr_m shr_r shr_s orb]; lia.
  - destruct p as [p | p |].
    + split; [cbn; lia |]. exists (2 ^ k + rem).
      rewrite Pos2Z.inj_xI in E.
      destruct r, s; cbn [shr_1 shr_m shr_r shr_s orb]; lia.
    + split; [cbn; lia |]. exists rem.
      rewrite Pos2Z.inj_xO in E.
      destruct r, s; cbn [shr_1 shr_m shr_r shr_s orb]; lia.
    + split; [cbn; lia |]. exists (2 ^ k + rem).
      destruct r, s; cbn [shr_1 shr_m shr_r shr_s orb]; lia.
Qed.

Lemma iter_shr_1_inv (m0 : Z) (p : positive) :
  forall (k : Z) (mrs : shr_record),
    0 <= k -> shr_inv m0 k mrs ->
    shr_inv m0 (k + Zpos p) (iter_pos shr_1 p mrs).
Proof.
  induction p as [p IH | p IH |]; intros k mrs Hk H; cbn [iter_pos].
  - replace (k + Zpos p~1) with (k + 1 + Zpos p + Zpos p) by lia.
    apply IH; [lia |]. apply IH; [lia |]. now apply shr_1_inv.
  - replace (k + Zpos p~0) with (k + Zpos p + Zpos p) by lia.
    apply IH; [lia |]. now apply IH.
  - now apply shr_1_inv.
Qed.

(** Rounding to nearest of a shifted number: the result is the bits left or
    one more, it is within half a unit of the last place, and it is exact
    when the bits shifted out are zero. *)
Lemma round_nearest_even_inv (m0 k : Z) (mrs : shr_record) :
  0 <= k -> shr_inv m0 k mrs ->
  let m1 := round_nearest_even (shr_m mrs) (loc_of_shr_record mrs) in
  m0 / 2 ^ k <= m1 <= m0 / 2 ^ k + 1 /\
  2 * Z.abs (m1 * 2 ^ k - m0) <= 2 ^ k /\
  (m0 mod 2 ^ k = 0 -> m1 = m0 / 2 ^ k).
Proof.
  intros Hk (Hm & rem & E & R & C) m1.
  assert (P : 0 < 2 ^ k) by (apply Z.pow_pos_nonneg; lia).
  assert (Q : m0 / 2 ^ k = shr_m mrs).
  { symmetry. apply Z.div_unique with rem; lia. }
  assert (M : m0 mod 2 ^ k = rem).
  { symmetry. apply Z.mod_unique with (shr_m mrs); lia. }
  rewrite Q, M. subst m1.
  destruct mrs as [m r s]. cbn [shr_m shr_r shr_s] in *.
  destruct r, s; cbn [loc_of_shr_record round_nearest_even];
    try destruct (Z.even m); lia.
Qed.

(** The number of binary digits, from bounds. *)
Lemma digits2_pos_unique (m : positive) (k : Z) :
  2 ^ (k - 1) <= Zpos m < 2 ^ k -> Zpos (digits2_pos m) = k.
Proof.
  intros H. pose proof (digits2_pos_bounds m) as D.
  set (d := Zpos (digits2_pos m)) in *.
  assert (0 < d) by (unfold d; lia).
  destruct (Z.lt_trichotomy d k) as [L | [E | G]]; [| exact E |].
  - assert (2 ^ d <= 2 ^ (k - 1)) by (apply Z.pow_le_mono_r; lia). lia.
  - assert (0 <= k \/ k < 0) as [K | K] by lia.
    + assert (2 ^ k <= 2 ^ (d - 1)) by (apply Z.pow_le_mono_r; lia). lia.
    + rewrite (Z.pow_neg_r 2 k) in H by lia. lia.
Qed.

(** Rounding a positive number [m * 2^e] whose result is a normal number of
    the format: the result is finite with the sign given, its value is within
    a relative error of 2^-24 of [m * 2^e], and it is [m * 2^e] itself when
    [m] has at most 24 digits, or when the digits beyond the 24th are zero. *)
Lemma binary_round_aux_normal (s : bool) (m : positive) (e : Z) :
  let d := Zpos (digits2_pos m) in
  -149 <= d + e - 24 -> e <= 104 -> d + e <= 127 ->
  exists (m' : positive) (e' : Z),
    binary_round_aux 24 128 s (Zpos m) e loc_Exact = S754_finite s m' e' /\
    e <= e' /\
    Z.abs (Zpos m' * 2 ^ (e' - e) - Zpos m) * 2 ^ 24 <= Zpos m /\
    (d <= 24 -> m' = m /\ e' = e) /\
    (24 <= d -> 2 ^ 23 <= Zpos m' < 2 ^ 24 /\ e + d - 24 <= e' <= e + d - 23) /\
    (24 <= d -> Zpos m mod 2 ^ (d - 24) = 0 ->
     Zpos m' * 2 ^ (d - 24) = Zpos m /\ e' = e + d - 24).
Proof.
  intros d H1 H2 H3.
  pose proof (digits2_pos_bounds m) as D. fold d in D.
  unfold binary_round_aux, shr_fexp, fexp, emin.
  cbn [Zdigits2 shr_record_of_loc]. fold d.
  replace (Z.max (d + e - 24) (3 - 128 - 24)) with (d + e - 24) by lia.
  destruct (d + e - 24 - e) as [| n | n] eqn:En.
  - (* exactly 24 digits: nothing is shifted out *)
    cbn [shr shr_m loc_of_shr_record round_nearest_even Zdigits2]. fold d.
    replace (Z.max (d + e - 24) (3 - 128 - 24)) with (d + e - 24) by lia.
    rewrite En. cbn [shr shr_m].
    replace (e <=? 128 - 24) with true by (symmetry; apply Z.leb_le; lia).
    exists m, e. split; [reflexivity |]. split; [lia |].
    rewrite Z.sub_diag. change (2 ^ 0) with 1.
    split; [lia |]. split; [intros _; split; reflexivity |].
    split.
    + intros _. assert (d = 24) as Ed by lia. rewrite Ed in D.
      change (2 ^ (24 - 1)) with (2 ^ 23) in D. lia.
    + intros _ _. assert (d = 24) as Ed by lia. rewrite Ed.
      change (2 ^ (24 - 24)) with 1. lia.
  - (* more than 24 digits: [n] of them are shifted out *)
    assert (Ed : d = 24 + Zpos n) by lia.
    cbn [shr].
    assert (I0 : shr_inv (Zpos m) 0 (Build_shr_record (Zpos m) false false)).
    { split; [cbn; lia |]. exists 0. cbn. lia. }
    pose proof (iter_shr_1_inv (Zpos m) n 0 _ (Z.le_refl 0) I0) as I.
    rewrite Z.add_0_l in I.
    set (mrs := iter_pos shr_1 n _) in *.
    pose proof (round_nearest_even_inv (Zpos m) (Zpos n) mrs
                  (Pos2Z.is_nonneg n) I) as R.
    cbv zeta in R.
    set (m1 := round_nearest_even (shr_m mrs) (loc_of_shr_record mrs)) in *.
    destruct R as (R1 & R2 & R3).
    assert (P : 0 < 2 ^ Zpos n) by (apply Z.pow_pos_nonneg; lia).
    assert (Dn : 2 ^ (d - 1) = 2 ^ 23 * 2 ^ Zpos n).
    { rewrite Ed. replace (24 + Zpos n - 1) with (23 + Zpos n) by lia.
      rewrite Z.pow_add_r by lia. reflexivity. }
    assert (Dn' : 2 ^ d = 2 ^ 24 * 2 ^ Zpos n).
    { rewrite Ed. rewrite Z.pow_add_r by lia. reflexivity. }
    assert (Q : 2 ^ 23 <= Zpos m / 2 ^ Zpos n < 2 ^ 24).
    { split.
      - apply Z.div_le_lower_bound; lia.
      - apply Z.div_lt_upper_bound; lia. }
    assert (Hm1 : 2 ^ 23 <= m1 <= 2 ^ 24) by lia.
    assert (Err : Z.abs (m1 * 2 ^ Zpos n - Zpos m) * 2 ^ 24 <= Zpos m).
    { apply Z.le_trans with (2 ^ 23 * 2 ^ Zpos n); [| lia].
      change (2 ^ 24) with (2 * 2 ^ 23). nia. }
    destruct (Z.eq_dec m1 (2 ^ 24)) as [C | C].
    + (* rounded up to 2^24: one more digit is shifted out *)
      change (2 ^ 24) with 16777216 in *. rewrite C.
      cbn [Zdigits2 digits2_pos Pos.succ].
      replace (Z.max (25 + (e + Zpos n) - 24) (3 - 128 - 24) - (e + Zpos n))
        with 1 by lia.
      cbn [shr iter_pos shr_1 shr_m].
      replace (e + Zpos n + 1 <=? 128 - 24) with true
        by (symmetry; apply Z.leb_le; lia).
      exists 8388608%positive, (e + Zpos n + 1).
      split; [reflexivity |]. split; [lia |].
      replace (e + Zpos n + 1 - e) with (Zpos n + 1) by lia.
      rewrite Z.pow_add_r by lia. change (2 ^ 1) with 2.
      rewrite C in Err.
      split; [lia |].
      split; [intros; lia |].
      split; [intros _; split; [cbn; lia | lia] |].
      intros _ M. replace (d - 24) with (Zpos n) in * by lia.
      specialize (R3 M). lia.
    + (* the rounded mantissa has 24 digits *)
      destruct m1 as [| m1 | m1]; [cbn in Hm1; lia | | cbn in Hm1; lia].
      cbn [Zdigits2].
      rewrite (digits2_pos_unique m1 24)
        by (change (2 ^ (24 - 1)) with (2 ^ 23); lia).
      replace (Z.max (24 + (e + Zpos n) - 24) (3 - 128 - 24) - (e + Zpos n))
        with 0 by lia.
      cbn [shr shr_m].
      replace (e + Zpos n <=? 128 - 24) with true
        by (symmetry; apply Z.leb_le; lia).
      exists m1, (e + Zpos n).
      split; [reflexivity |]. split; [lia |].
      replace (e + Zpos n - e) with (Zpos n) by lia.
      split; [exact Err |].
      split; [intros; lia |].
      split; [intros _; split; lia |].
      intros _ M. replace (d - 24) with (Zpos n) in * by lia.
      specialize (R3 M). rewrite R3.
      split; [| lia].
      rewrite Z.mul_comm. symmetry. apply Z.div_exact; lia.
  - (* fewer than 24 digits: the number is a float as it is *)
    cbn [shr shr_m loc_of_shr_record round_nearest_even Zdigits2]. fold d.
    replace (Z.max (d + e - 24) (3 - 128 - 24)) with (d + e - 24) by lia.
    rewrite En. cbn [shr shr_m].
    replace (e <=? 128 - 24) with true by (symmetry; apply Z.leb_le; lia).
    exists m, e. split; [reflexivity |]. split; [lia |].
    rewrite Z.sub_diag. change (2 ^ 0) with 1.
    split; [lia |]. split; [intros _; split; reflexivity |].
    split; intros; lia.
Qed.

(** Shifting a mantissa to the left. *)
Lemma iter_xO_value (m n : positive) :
  Zpos (Pos.iter xO m n) = Zpos m * 2 ^ Zpos n.
Proof.
  induction n as [| n IH] using Pos.peano_ind.
  - cbn [Pos.iter]. rewrite Pos2Z.inj_xO. change (2 ^ 1) with 2. lia.
  - rewrite Pos.iter_succ, Pos2Z.inj_xO, IH, Pos2Z.inj_succ.
    rewrite Z.pow_succ_r by lia. lia.
Qed.

Lemma abs_scale (x y k c : Z) :
  0 <= k -> Z.abs (x - y) * c <= y -> Z.abs (x * k - y * k) * c <= y * k.
Proof.
  intros K H. replace (x * k - y * k) with ((x - y) * k) by ring.
  rewrite Z.abs_mul, (Z.abs_eq k) by exact K.
  replace (Z.abs (x - y) * k * c) with (Z.abs (x - y) * c * k) by ring.
  now apply Z.mul_le_mono_nonneg_r.
Qed.

(** [static_cast<float>] of a positive [unsigned long]: a normal float whose
    value is within a relative error of 2^-24 of the integer, and the integer
    itself below 2^24.  Values are in units of 2^-23. *)
Lemma f32_of_Z_value (h : Z) :
  0 < h < 2 ^ 32 ->
  exists (mh : positive) (eh : Z),
    f32_of_Z h = S754_finite false mh eh /\
    2 ^ 23 <= Zpos mh < 2 ^ 24 /\ -23 <= eh <= 9 /\
    Z.abs (Zpos mh * 2 ^ (eh + 23) - h * 2 ^ 23) * 2 ^ 24 <= h * 2 ^ 23 /\
    (h < 2 ^ 24 -> Zpos mh * 2 ^ (eh + 23) = h * 2 ^ 23).
Proof.
  intros H. destruct h as [| p | p]; [lia | | lia].
  unfold f32_of_Z, binary_normalize, binary_round, F32_PREC, F32_EMAX.
  pose proof (digits2_pos_bounds p) as D.
  set (d := Zpos (digits2_pos p)) in *.
  assert (Hd : 1 <= d <= 32).
  { split; [unfold d; lia |].
    destruct (Z_le_gt_dec d 32) as [L | G]; [exact L |].
    assert (2 ^ 32 <= 2 ^ (d - 1)) by (apply Z.pow_le_mono_r; lia). lia. }
  unfold fexp, emin. rewrite Z.add_0_r.
  replace (Z.max (d - 24) (3 - 128 - 24)) with (d - 24) by lia.
  unfold shl_align.
  destruct (d - 24 - 0) as [| n | n] eqn:En.
  - destruct (binary_round_aux_normal false p 0) as (m' & e' & E & _ & _ & X & _);
      fold d; try lia.
    destruct (X ltac:(lia)) as [-> ->].
    exists p, 0. split; [exact E |].
    assert (d = 24) as Ed by lia. rewrite Ed in D.
    change (2 ^ (24 - 1)) with (2 ^ 23) in D.
    split; [lia |]. split; [lia |]. cbn [Z.add]. lia.
  - destruct (binary_round_aux_normal false p 0)
      as (m' & e' & E & Le & Err & _ & B & _); fold d; try lia.
    fold d in B. destruct (B ltac:(lia)) as (Bm & Be).
    exists m', e'. split; [exact E |]. split; [exact Bm |]. split; [lia |].
    rewrite Z.sub_0_r in Err.
    rewrite Z.pow_add_r by lia.
    assert (L24 : 2 ^ 24 <= Zpos p).
    { apply Z.le_trans with (2 ^ (d - 1)); [| lia].
      apply Z.pow_le_mono_r; lia. }
    split; [| lia].
    set (X := Zpos m' * 2 ^ e') in *.
    replace (Zpos m' * (2 ^ e' * 2 ^ 23)) with (X * 2 ^ 23) by (unfold X; ring).
    apply abs_scale; [lia | exact Err].
  - assert (Ed : Zpos n = 24 - d) by lia.
    pose proof (iter_xO_value p n) as Vz.
    set (mz := Pos.iter xO p n) in *.
    assert (P : 2 ^ (d - 1) * 2 ^ Zpos n = 2 ^ 23 /\ 2 ^ d * 2 ^ Zpos n = 2 ^ 24).
    { rewrite <- !Z.pow_add_r by lia. rewrite Ed.
      split; f_equal; lia. }
    destruct P as (P1 & P2).
    assert (P0 : 0 < 2 ^ Zpos n) by (apply Z.pow_pos_nonneg; lia).
    assert (Bz : 2 ^ 23 <= Zpos mz < 2 ^ 24) by (rewrite Vz; nia).
    assert (Dz : Zpos (digits2_pos mz) = 24).
    { apply digits2_pos_unique. change (2 ^ (24 - 1)) with (2 ^ 23). exact Bz. }
    destruct (binary_round_aux_normal false mz (d - 24))
      as (m' & e' & E & _ & _ & X & _); rewrite ?Dz; try lia.
    destruct (X ltac:(lia)) as [-> ->].
    exists mz, (d - 24). split; [exact E |]. split; [exact Bz |].
    split; [lia |].
    replace (d - 24 + 23) with (d - 1) by lia.
    assert (Ev : Zpos mz * 2 ^ (d - 1) = Zpos p * 2 ^ 23).
    { rewrite Vz, <- P1. ring. }
    rewrite Ev. split; [| reflexivity].
    rewrite Z.sub_diag. change (Z.abs 0 * 2 ^ 24) with 0. lia.
Qed.

(** The product of two normal floats whose result is a normal float: its
    value is within a relative error of 2^-24 of the product of the values. *)
Lemma f32_mul_value (sx sy : bool) (mx my : positive) (ex ey : Z) :
  2 ^ 23 <= Zpos mx < 2 ^ 24 -> 2 ^ 23 <= Zpos my < 2 ^ 24 ->
  -172 <= ex + ey <= 79 ->
  exists (m : positive) (e : Z),
    f32_mul (S754_finite sx mx ex) (S754_finite sy my ey) =
      S754_finite (xorb sx sy) m e /\
    2 ^ 23 <= Zpos m < 2 ^ 24 /\
    ex + ey + 23 <= e <= ex + ey + 25 /\
    Z.abs (Zpos m * 2 ^ (e - (ex + ey)) - Zpos mx * Zpos my) * 2 ^ 24 <=
      Zpos mx * Zpos my.
Proof.
  intros Bx By Be.
  unfold f32_mul, SFmul, F32_PREC, F32_EMAX.
  assert (Bp : 2 ^ 46 <= Zpos (mx * my) < 2 ^ 48).
  { rewrite Pos2Z.inj_mul.
    change (2 ^ 46) with (2 ^ 23 * 2 ^ 23).
    change (2 ^ 48) with (2 ^ 24 * 2 ^ 24).
    change (2 ^ 23) with 8388608 in *. change (2 ^ 24) with 16777216 in *.
    nia. }
  pose proof (digits2_pos_bounds (mx * my)) as D.
  set (d := Zpos (digits2_pos (mx * my))) in *.
  assert (Hd : 47 <= d <= 48).
  { assert (0 < d) by (unfold d; lia).
    split.
    - destruct (Z_le_gt_dec 47 d) as [L | G]; [exact L |].
      assert (2 ^ d <= 2 ^ 46) by (apply Z.pow_le_mono_r; lia). lia.
    - destruct (Z_le_gt_dec d 48) as [L | G]; [exact L |].
      assert (2 ^ 48 <= 2 ^ (d - 1)) by (apply Z.pow_le_mono_r; lia). lia. }
  destruct (binary_round_aux_normal (xorb sx sy) (mx * my) (ex + ey))
    as (m & e & E & Le & Err & _ & B & _); fold d; try lia.
  fold d in B. destruct (B ltac:(lia)) as (Bm & Bexp).
  exists m, e. split; [exact E |]. split; [exact Bm |]. split; [lia |].
  rewrite Pos2Z.inj_mul in Err. exact Err.
Qed.

(** Multiplication by [0.5F] of a normal float whose half is a normal float
    is exact: the exponent goes down by one. *)
Lemma f32_mul_half (s : bool) (m : positive) (e : Z) :
  2 ^ 23 <= Zpos m < 2 ^ 24 -> -148 <= e <= 104 ->
  f32_mul (S754_finite s m e) F_0_5 = S754_finite s m (e - 1).
Proof.
  intros Bm Be.
  unfold f32_mul, SFmul, F_0_5, F32_PREC, F32_EMAX.
  rewrite xorb_false_r.
  assert (V : Zpos (m * 8388608) = Zpos m * 2 ^ 23)
    by (rewrite Pos2Z.inj_mul; reflexivity).
  assert (Dz : Zpos (digits2_pos (m * 8388608)) = 47).
  { apply digits2_pos_unique. rewrite V.
    change (2 ^ (47 - 1)) with (2 ^ 23 * 2 ^ 23).
    change (2 ^ 47) with (2 ^ 24 * 2 ^ 23). lia. }
  destruct (binary_round_aux_normal s (m * 8388608) (e + -24))
    as (m' & e' & E & _ & _ & _ & _ & X); rewrite ?Dz; try lia.
  rewrite Dz in X. change (2 ^ (47 - 24)) with (2 ^ 23) in X.
  destruct (X ltac:(lia)) as (Xm & Xe).
  { rewrite V. apply Z.mod_mul. discriminate. }
  rewrite E. f_equal; [| lia].
  rewrite V in Xm. change (2 ^ 23) with 8388608 in Xm. lia.
Qed.

(** A float of the format whose value is at least 2^-125 and below 2^94 in
    magnitude is a normal float with an exponent from -148 to 70. *)
Lemma f32_normal_range (v : float) (V : Z) :
  f32_valid v = true -> f32_scaled v = Some V ->
  2 ^ 24 <= Z.abs V < 2 ^ 243 ->
  exists (s : bool) (m : positive) (e : Z),
    v = S754_finite s m e /\ 2 ^ 23 <= Zpos m < 2 ^ 24 /\ -148 <= e <= 70 /\
    V = (if s then -1 else 1) * (Zpos m * 2 ^ (e + 149)).
Proof.
  intros Hv Hs Hr.
  destruct v as [s | s | | s m e]; try discriminate.
  { assert (V = 0) as -> by (cbn in Hs; congruence). cbn in Hr. lia. }
  change (f32_scaled (S754_finite s m e))
    with (Some ((if s then -1 else 1) * (Zpos m * 2 ^ (e + 149)))) in Hs.
  assert (EV : V = (if s then -1 else 1) * (Zpos m * 2 ^ (e + 149)))
    by congruence.
  clear Hs. subst V.
  destruct (f32_valid_finite s m e Hv) as (He & Hm & Hn).
  assert (P : 0 < 2 ^ (e + 149)) by (apply Z.pow_pos_nonneg; lia).
  assert (A : Z.abs ((if s then -1 else 1) * (Zpos m * 2 ^ (e + 149))) =
              Zpos m * 2 ^ (e + 149)) by (destruct s; nia).
  rewrite A in Hr.
  assert (L : -148 <= e).
  { destruct (Z.eq_dec e (-149)) as [-> | N]; [| lia].
    change (2 ^ (-149 + 149)) with 1 in Hr. lia. }
  specialize (Hn ltac:(lia)).
  assert (U : e <= 70).
  { destruct (Z_le_gt_dec e 70) as [U | G]; [exact U |].
    assert (2 ^ 220 <= 2 ^ (e + 149)) by (apply Z.pow_le_mono_r; lia).
    change (2 ^ 243) with (2 ^ 23 * 2 ^ 220) in Hr.
    assert (0 < 2 ^ 220) by reflexivity.
    assert (2 ^ 23 * 2 ^ 220 <= Zpos m * 2 ^ (e + 149)); [| lia].
    apply Z.mul_le_mono_nonneg; lia. }
  exists s, m, e. repeat split; try lia; reflexivity.
Qed.

(** The value of a distance.  With the speed a float of the format of
    magnitude from 2^-125 to below 2^94 and the high time a positive
    [unsigned long], the distance is a finite float of the format, and with
    [D] and [V] the values of distance and speed (both times 2^149), [2 * D]
    is within a relative error of 3 * 2^-24 of [h * V]: one rounding for the
    conversion of the high time, one for the product, none for the halving.
    Below 2^24 the conversion is exact and the error is at most 2^-24. *)
Lemma distance_cm_value (v : float) (h V : Z) :
  0 < h < 2 ^ 32 ->
  f32_valid v = true -> f32_scaled v = Some V ->
  2 ^ 24 <= Z.abs V < 2 ^ 243 ->
  exists D : Z,
    f32_scaled (distance_cm v h) = Some D /\
    f32_valid (distance_cm v h) = true /\
    Z.abs (2 * D - h * V) * 2 ^ 24 <= 3 * Z.abs (h * V) /\
    (h < 2 ^ 24 -> Z.abs (2 * D - h * V) * 2 ^ 24 <= Z.abs (h * V)) /\
    f32_scaled (f32_mul (f32_of_Z h) v) = Some (2 * D).
Proof.
  intros Hh Hv Hs Hr.
  destruct (f32_normal_range v V Hv Hs Hr) as (s & mv & ev & -> & Bv & Be & ->).
  destruct (f32_of_Z_value h Hh) as (mh & eh & Eh & Bh & Beh & Errh & Exh).
  destruct (f32_mul_value false s mh mv eh ev Bh Bv ltac:(lia))
    as (mp & ep & Ep & Bp & Bep & Errp).
  cbn [xorb] in Ep.
  unfold distance_cm. rewrite Eh, Ep, f32_mul_half by lia.
  cbn [f32_scaled].
  eexists. split; [reflexivity |].
  split.
  { unfold f32_valid, valid_binary, bounded, canonical_mantissa, fexp, emin,
      F32_PREC, F32_EMAX.
    rewrite (digits2_pos_unique mp 24)
      by (change (2 ^ (24 - 1)) with (2 ^ 23); exact Bp).
    apply andb_true_iff. split; [apply Z.eqb_eq | apply Z.leb_le]; lia. }
  (* everything in units of 2^-172 *)
  set (Vm := Zpos mv * 2 ^ (ev + 149)).
  set (A := Zpos mp * 2 ^ (ep + 149)).
  set (Ch := Zpos mh * 2 ^ (eh + 23)) in *.
  assert (PV : 0 < 2 ^ (ev + 149)) by (apply Z.pow_pos_nonneg; lia).
  assert (PH : 0 < 2 ^ (eh + 23)) by (apply Z.pow_pos_nonneg; lia).
  assert (HVm : 0 < Vm) by (unfold Vm; nia).
  assert (EA : 2 * (Zpos mp * 2 ^ (ep - 1 + 149)) = A).
  { unfold A. replace (ep + 149) with (Z.succ (ep - 1 + 149)) by lia.
    rewrite Z.pow_succ_r by lia. ring. }
  assert (E1 : Z.abs (A * 2 ^ 23 - Ch * Vm) * 2 ^ 24 <= Ch * Vm).
  { pose proof (abs_scale _ _ (2 ^ (eh + 23) * 2 ^ (ev + 149)) _
                  ltac:(nia) Errp) as S.
    replace (Zpos mp * 2 ^ (ep - (eh + ev)) *
             (2 ^ (eh + 23) * 2 ^ (ev + 149))) with (A * 2 ^ 23) in S.
    2: { unfold A. rewrite <- !Z.mul_assoc. f_equal.
         rewrite <- !Z.pow_add_r by lia. f_equal. lia. }
    replace (Zpos mh * Zpos mv * (2 ^ (eh + 23) * 2 ^ (ev + 149)))
      with (Ch * Vm) in S by (unfold Ch, Vm; ring).
    exact S. }
  assert (E2 : Z.abs (Ch * Vm - h * 2 ^ 23 * Vm) * 2 ^ 24 <= h * 2 ^ 23 * Vm).
  { apply abs_scale; [lia | exact Errh]. }
  set (a := A * 2 ^ 23) in *. set (c := Ch * Vm) in *.
  assert (ET : h * 2 ^ 23 * Vm = (h * Vm) * 2 ^ 23) by ring.
  rewrite ET in E2. set (T := h * Vm) in *.
  assert (HT : 0 < T) by (unfold T; nia).
  assert (G1 : Z.abs (A - T) * 2 ^ 24 <= 3 * T).
  { unfold a in *. change (2 ^ 23) with 8388608 in *.
    change (2 ^ 24) with 16777216 in *. lia. }
  assert (G2 : h < 2 ^ 24 -> Z.abs (A - T) * 2 ^ 24 <= T).
  { intros L. specialize (Exh L).
    assert (c = T * 2 ^ 23) by (unfold c, T; rewrite Exh; ring).
    unfold a in *. change (2 ^ 23) with 8388608 in *.
    change (2 ^ 24) with 16777216 in *. lia. }
  assert (F : forall x y : Z,
             2 * ((if s then -1 else 1) * x) - h * ((if s then -1 else 1) * y) =
             (if s then -1 else 1) * (2 * x - h * y))
    by (intros; destruct s; ring).
  rewrite F, EA. fold Vm. fold T.
  assert (S1 : Z.abs ((if s then -1 else 1) * (A - T)) = Z.abs (A - T))
    by (destruct s; lia).
  assert (S2 : Z.abs (h * ((if s then -1 else 1) * Vm)) = T).
  { destruct s.
    - replace (h * (-1 * Vm)) with (- T) by (unfold T; ring).
      rewrite Z.abs_opp. apply Z.abs_eq. lia.
    - replace (h * (1 * Vm)) with T by (unfold T; ring).
      apply Z.abs_eq. lia. }
  rewrite S1, S2. split; [exact G1 |]. split; [exact G2 |].
  f_equal. rewrite <- EA. destruct s; ring.
Qed.

(** C6.  [timeUsToCm_] is a function of the high time, the configured speed
    and the cell only (it takes no board and agrees on objects of equal
    speed).  For the high time zero it answers Bad-param and the cell is as
    it was.  For a strictly positive high time it answers OK and stores,
    once, the single precision product of high time and speed, halved by a
    multiplication with [0.5F].  What is stored is high time times speed
    divided by two, up to the rounding of single precision: with a high time
    below 2^32 and the speed a float of the format of magnitude from 2^-125
    to below 2^94 (every speed [setSoundSpeed] accepts is one), the float
    stored is finite and of the format, it is exactly half the rounded
    product, and twice its value is within a relative error of 3 * 2^-24 of
    high time times speed (of 2^-24 for a high time below 2^24).  [V] and
    [D] are the values of speed and distance times 2^149. *)
Theorem timeUsToCm_distance (self : IHCSR04) (out_cm : FloatRef) :
  (forall echo_high_us,
      0 < echo_high_us ->
      timeUsToCm_ self echo_high_us out_cm =
      (HCSR04_OK,
       {| deref := f32_mul (f32_mul (f32_of_Z echo_high_us) (getSoundSpeed self))
                     (f32_div (f32_of_Z 1) (f32_of_Z 2));
          stores := S (stores out_cm) |})) /\
  timeUsToCm_ self 0 out_cm = (HCSR04_ERR_BAD_PARAM, out_cm) /\
  (forall self' echo_high_us,
      getSoundSpeed self' = getSoundSpeed self ->
      timeUsToCm_ self' echo_high_us out_cm = timeUsToCm_ self echo_high_us out_cm) /\
  (forall echo_high_us V,
      0 < echo_high_us < 2 ^ 32 ->
      f32_valid (getSoundSpeed self) = true ->
      f32_scaled (getSoundSpeed self) = Some V ->
      2 ^ 24 <= Z.abs V < 2 ^ 243 ->
      exists D : Z,
        f32_scaled (deref (snd (timeUsToCm_ self echo_high_us out_cm))) = Some D /\
        f32_valid (deref (snd (timeUsToCm_ self echo_high_us out_cm))) = true /\
        Z.abs (2 * D - echo_high_us * V) * 2 ^ 24 <=
          3 * Z.abs (echo_high_us * V) /\
        (echo_high_us < 2 ^ 24 ->
         Z.abs (2 * D - echo_high_us * V) * 2 ^ 24 <= Z.abs (echo_high_us * V)) /\
        f32_scaled (f32_mul (f32_of_Z echo_high_us) (getSoundSpeed self)) =
          Some (2 * D)) /\
  (f32_valid (getSoundSpeed self) = true ->
   f32_ltb F_0_02 (getSoundSpeed self) = true ->
   f32_ltb (getSoundSpeed self) F_0_06 = true ->
   exists V : Z,
     f32_scaled (getSoundSpeed self) = Some V /\ 2 ^ 24 <= Z.abs V < 2 ^ 243).
Proof.
  split; [| split; [| split; [| split]]].
  - intros echo_high_us H. rewrite timeUsToCm_nonzero by lia. reflexivity.
  - reflexivity.
  - intros self' echo_high_us H. unfold timeUsToCm_, getSoundSpeed in *.
    rewrite H. reflexivity.
  - intros echo_high_us V Hh Hv Hs Hr. unfold getSoundSpeed in *.
    rewrite timeUsToCm_nonzero by lia. cbn [snd deref store].
    exact (distance_cm_value _ _ _ Hh Hv Hs Hr).
  - intros Hv H1 H2.
    destruct (proj1 (sound_speed_window _ Hv) (conj H1 H2)) as (V & E & B).
    exists V. split; [exact E |].
    assert (P1 : 2 ^ 24 <= 10737418 * 2 ^ 120) by (vm_compute; discriminate).
    assert (P2 : 16106127 * 2 ^ 121 <= 2 ^ 243) by (vm_compute; discriminate).
    lia.
Qed.

Lemma timeUsToCm_distance_witness :
  exists D : Z,
    f32_scaled (deref (snd (timeUsToCm_ (IHCSR04_new_default 9 8) 600 out0))) =
      Some D /\
    Z.abs (2 * D - 600 * (9207336 * 2 ^ 121)) * 2 ^ 24 <=
      600 * (9207336 * 2 ^ 121).
Proof.
  destruct (timeUsToCm_distance (IHCSR04_new_default 9 8) out0)
    as (_ & _ & _ & H & _).
  destruct (H 600 (9207336 * 2 ^ 121)) as (D & E & _ & _ & B & _).
  - vm_compute. split; reflexivity.
  - reflexivity.
  - reflexivity.
  - vm_compute. split; [discriminate | reflexivity].
  - exists D. split; [exact E |].
    specialize (B ltac:(vm_compute; reflexivity)).
    rewrite (Z.abs_eq (600 * (9207336 * 2 ^ 121))) in B
      by (vm_compute; discriminate).
    exact B.
Defined.

(* ================================================================== *)
(** ** Polling engine *)

Lemma trigger_pulse_hw (pin : Z) (h : Hw) :
  digitalWrite pin LOW
    (delayMicroseconds HCSR04_TRIG_PULSE_US
       (digitalWrite pin HIGH
          (delayMicroseconds 2 (digitalWrite pin LOW h)))) =
  advance 0 (trigger_pulse pin) h.
Proof.
  unfold digitalWrite, delayMicroseconds, emit, advance, trigger_pulse.
  cbn [hw_ticks hw_samples hw_trace Nat.add].
  rewrite <- !app_assoc. reflexivity.
Qed.

Lemma advance_tick_tick (evs : list Event) (h : Hw) :
  advance 0 evs (tick (tick h)) = advance 2 evs h.
Proof. reflexivity. Qed.

(** A read the guard refuses. *)
Lemma polling_read_denied (w : World) (fuel : nat) (out_cm : FloatRef)
    (st : Polling.State) :
  guard_denies w (Polling.cfg st) (Polling.hw st) ->
  Polling.read w fuel out_cm st =
  Some (HCSR04_ERR_BAD_STATE, out_cm,
        {| Polling.cfg := Polling.cfg st; Polling.hw := tick (Polling.hw st) |}).
Proof.
  intros D. unfold Polling.read. cbv zeta.
  rewrite canStartShot_denied by assumption. reflexivity.
Qed.

(** A read the guard allows: the mark, the trigger pulse, the measurement. *)
Lemma polling_read_allowed (w : World) (fuel : nat) (out_cm : FloatRef)
    (st : Polling.State) :
  ~ guard_denies w (Polling.cfg st) (Polling.hw st) ->
  Polling.read w fuel out_cm st =
  let self :=
    set_last_shot_us (next_micros w (tick (Polling.hw st))) (Polling.cfg st) in
  polling_measure w fuel out_cm self
    (advance 2 (trigger_pulse (m_trig_pin self)) (Polling.hw st)).
Proof.
  intros D. unfold Polling.read. cbv zeta.
  rewrite canStartShot_allowed by assumption. cbn [is_ok].
  rewrite markShotStart_eq, trigger_pulse_hw, advance_tick_tick, !micros_eq.
  unfold polling_measure, getTimeoutUs, getTrigPin.
  destruct (Polling.rise_loop _ _ _ _ _ _ _ _) as [[t_rise_us h1] |];
    [| reflexivity].
  destruct (t_rise_us =? 0); [reflexivity |].
  rewrite micros_eq.
  destruct (Polling.fall_loop _ _ _ _ _ _ _ _) as [[t_fall_us h2] |];
    [| reflexivity].
  destruct (t_fall_us =? 0); [reflexivity |].
  unfold timeUsToCm_.
  destruct (usub t_fall_us t_rise_us =? 0); reflexivity.
Qed.

(** The two loops do nothing once the window is over. *)
Lemma rise_loop_window_over (w : World) (fuel : nat) (self : IHCSR04)
    (t_start_us timeout_us now_us t_rise_us : Z) (h : Hw) :
  timeout_us <= usub now_us t_start_us ->
  Polling.rise_loop w fuel self t_start_us timeout_us now_us t_rise_us h =
  Some (t_rise_us, h).
Proof.
  intros H.
  destruct fuel; cbn [Polling.rise_loop];
    destruct (Z.ltb_spec (usub now_us t_start_us) timeout_us);
    solve [lia | reflexivity].
Qed.

Lemma fall_loop_window_over (w : World) (fuel : nat) (self : IHCSR04)
    (t_start_us timeout_us now_us t_fall_us : Z) (h : Hw) :
  timeout_us <= usub now_us t_start_us ->
  Polling.fall_loop w fuel self t_start_us timeout_us now_us t_fall_us h =
  Some (t_fall_us, h).
Proof.
  intros H.
  destruct fuel; cbn [Polling.fall_loop];
    destruct (Z.ltb_spec (usub now_us t_start_us) timeout_us);
    solve [lia | reflexivity].
Qed.

(** Each loop ends as soon as the clock gives a reading outside the window:
    fuel beyond the number of readings up to that one is enough. *)
Lemma rise_loop_terminates (w : World) (self : IHCSR04) (t_start_us timeout_us : Z) :
  forall (n fuel : nat) (now_us t_rise_us : Z) (h : Hw),
    (n < fuel)%nat ->
    timeout_us <= usub (wrap (w_time w (hw_ticks h + n))) t_start_us ->
    exists r,
      Polling.rise_loop w fuel self t_start_us timeout_us now_us t_rise_us h = Some r.
Proof.
  induction n as [| n IH]; intros fuel now_us t_rise_us h Hn Hout;
    (destruct fuel as [| fuel]; [lia |]); cbn [Polling.rise_loop];
    destruct ((usub now_us t_start_us <? timeout_us) && (t_rise_us =? 0));
    try (eexists; reflexivity);
    unfold digitalRead; rewrite micros_eq; cbn [hw_ticks].
  - rewrite Nat.add_0_r in Hout. eexists.
    apply rise_loop_window_over. exact Hout.
  - apply IH; [lia |]. cbn [tick hw_ticks].
    replace (S (hw_ticks h) + n)%nat with (hw_ticks h + S n)%nat by lia.
    exact Hout.
Qed.

Lemma fall_loop_terminates (w : World) (self : IHCSR04) (t_start_us timeout_us : Z) :
  forall (n fuel : nat) (now_us t_fall_us : Z) (h : Hw),
    (n < fuel)%nat ->
    timeout_us <= usub (wrap (w_time w (hw_ticks h + n))) t_start_us ->
    exists r,
      Polling.fall_loop w fuel self t_start_us timeout_us now_us t_fall_us h = Some r.
Proof.
  induction n as [| n IH]; intros fuel now_us t_fall_us h Hn Hout;
    (destruct fuel as [| fuel]; [lia |]); cbn [Polling.fall_loop];
    destruct ((usub now_us t_start_us <? timeout_us) && (t_fall_us =? 0));
    try (eexists; reflexivity);
    unfold digitalRead; rewrite micros_eq; cbn [hw_ticks].
  - rewrite Nat.add_0_r in Hout. eexists.
    apply fall_loop_window_over. exact Hout.
  - apply IH; [lia |]. cbn [tick hw_ticks].
    replace (S (hw_ticks h) + n)%nat with (hw_ticks h + S n)%nat by lia.
    exact Hout.
Qed.

(** The loops only read: the trace of outputs is as it was. *)
Lemma rise_loop_trace (w : World) (self : IHCSR04) (t_start_us timeout_us : Z) :
  forall (fuel : nat) (now_us t_rise_us : Z) (h : Hw) (t : Z) (h' : Hw),
    Polling.rise_loop w fuel self t_start_us timeout_us now_us t_rise_us h =
    Some (t, h') ->
    hw_trace h' = hw_trace h.
Proof.
  induction fuel as [| fuel IH]; intros now_us t_rise_us h t h';
    cbn [Polling.rise_loop];
    destruct ((usub now_us t_start_us <? timeout_us) && (t_rise_us =? 0));
    try discriminate; try (intros E; injection E as <- <-; reflexivity).
  unfold digitalRead. rewrite micros_eq. intros E. apply IH in E.
  exact E.
Qed.

Lemma fall_loop_trace (w : World) (self : IHCSR04) (t_start_us timeout_us : Z) :
  forall (fuel : nat) (now_us t_fall_us : Z) (h : Hw) (t : Z) (h' : Hw),
    Polling.fall_loop w fuel self t_start_us timeout_us now_us t_fall_us h =
    Some (t, h') ->
    hw_trace h' = hw_trace h.
Proof.
  induction fuel as [| fuel IH]; intros now_us t_fall_us h t h';
    cbn [Polling.fall_loop];
    destruct ((usub now_us t_start_us <? timeout_us) && (t_fall_us =? 0));
    try discriminate; try (intros E; injection E as <- <-; reflexivity).
  unfold digitalRead. rewrite micros_eq. intros E. apply IH in E.
  exact E.
Qed.

(** What the measurement can return, and what it leaves behind. *)
Lemma polling_measure_shape (w : World) (fuel : nat) (out_cm : FloatRef)
    (self : IHCSR04) (h : Hw) (r : HCSR04_Status * FloatRef * Polling.State) :
  polling_measure w fuel out_cm self h = Some r ->
  Polling.cfg (state_of r) = self /\
  hw_trace (Polling.hw (state_of r)) = hw_trace h /\
  ((status_of r = HCSR04_OK /\ stores (out_of r) = S (stores out_cm)) \/
   ((status_of r = HCSR04_ERR_TIMEOUT_ECHO_START \/
     status_of r = HCSR04_ERR_TIMEOUT_ECHO_END \/
     status_of r = HCSR04_ERR_BAD_PARAM) /\ out_of r = out_cm)).
Proof.
  unfold polling_measure. cbv zeta.
  destruct (Polling.rise_loop _ _ _ _ _ _ _ _) as [[t_rise_us h1] |] eqn:E1;
    [| discriminate].
  apply rise_loop_trace in E1. cbn [tick hw_trace] in E1.
  destruct (t_rise_us =? 0).
  { intros E. injection E as <-. cbn.
    split; [reflexivity | split; [assumption | right; split; auto]]. }
  destruct (Polling.fall_loop _ _ _ _ _ _ _ _) as [[t_fall_us h2] |] eqn:E2;
    [| discriminate].
  apply fall_loop_trace in E2. cbn [tick hw_trace] in E2.
  assert (T : hw_trace h2 = hw_trace h) by congruence.
  destruct (t_fall_us =? 0).
  { intros E. injection E as <-. cbn.
    split; [reflexivity | split; [assumption | right; split; auto]]. }
  destruct (usub t_fall_us t_rise_us =? 0);
    intros E; injection E as <-; cbn;
    (split; [reflexivity | split; [assumption |]]).
  - right; split; auto.
  - left; split; reflexivity.
Qed.

(** The measurement returns when the clock leaves the window. *)
Lemma polling_measure_returns (w : World) (bound fuel : nat) (out_cm : FloatRef)
    (self : IHCSR04) (h : Hw) :
  leaves_window w (next_micros w h) (m_timeout_us self) bound ->
  (bound <= fuel)%nat ->
  exists r, polling_measure w fuel out_cm self h = Some r.
Proof.
  intros L Hb. unfold polling_measure. cbv zeta.
  destruct (L (hw_ticks (tick (tick h)))) as (n1 & Hn1 & Ho1).
  destruct (rise_loop_terminates w self (next_micros w h) (m_timeout_us self)
              n1 fuel (next_micros w (tick h)) 0 (tick (tick h))
              ltac:(lia) Ho1) as ([t_rise_us h1] & ->).
  destruct (t_rise_us =? 0); [eexists; reflexivity |].
  destruct (L (hw_ticks (tick h1))) as (n2 & Hn2 & Ho2).
  destruct (fall_loop_terminates w self (next_micros w h) (m_timeout_us self)
              n2 fuel (next_micros w h1) 0 (tick h1)
              ltac:(lia) Ho2) as ([t_fall_us h2] & ->).
  destruct (t_fall_us =? 0); [eexists; reflexivity |].
  destruct (usub t_fall_us t_rise_us =? 0); eexists; reflexivity.
Qed.

(** A read is refused by the guard, or it is the measurement of a shot. *)
Lemma polling_read_cases (w : World) (fuel : nat) (out_cm : FloatRef)
    (st : Polling.State) :
  (guard_denies w (Polling.cfg st) (Polling.hw st) /\
   Polling.read w fuel out_cm st =
   Some (HCSR04_ERR_BAD_STATE, out_cm,
         {| Polling.cfg := Polling.cfg st; Polling.hw := tick (Polling.hw st) |})) \/
  (~ guard_denies w (Polling.cfg st) (Polling.hw st) /\
   Polling.read w fuel out_cm st =
   polling_measure w fuel out_cm
     (set_last_shot_us (next_micros w (tick (Polling.hw st))) (Polling.cfg st))
     (advance 2 (trigger_pulse (m_trig_pin (Polling.cfg st))) (Polling.hw st))).
Proof.
  destruct (guard_denies_dec w (Polling.cfg st) (Polling.hw st)) as [D | D].
  - left. split; [assumption | now apply polling_read_denied].
  - right. split; [assumption | now apply polling_read_allowed].
Qed.

(** A read returns when the clock leaves the window of its shot. *)
Lemma polling_read_returns (w : World) (bound fuel : nat) (out_cm : FloatRef)
    (st : Polling.State) :
  leaves_window w (wrap (w_time w (2 + hw_ticks (Polling.hw st))))
    (m_timeout_us (Polling.cfg st)) bound ->
  (bound <= fuel)%nat ->
  exists r, Polling.read w fuel out_cm st = Some r.
Proof.
  intros L Hb.
  destruct (polling_read_cases w fuel out_cm st) as [[_ ->] | [_ ->]].
  - eexists; reflexivity.
  - apply polling_measure_returns with (bound := bound); assumption.
Qed.

(** A read changes no field of the object but the last-shot timestamp. *)
Lemma polling_read_cfg (w : World) (fuel : nat) (out_cm : FloatRef)
    (st : Polling.State) (r : HCSR04_Status * FloatRef * Polling.State) :
  Polling.read w fuel out_cm st = Some r ->
  exists t, Polling.cfg (state_of r) = set_last_shot_us t (Polling.cfg st).
Proof.
  destruct (polling_read_cases w fuel out_cm st) as [[_ ->] | [_ ->]].
  - intros E. injection E as <-. exists (m_last_shot_us (Polling.cfg st)).
    cbn. destruct (Polling.cfg st); reflexivity.
  - intros E. apply polling_measure_shape in E. destruct E as (E & _).
    rewrite E. eexists; reflexivity.
Qed.

Lemma polling_read_written (w : World) (fuel : nat) (out_cm : FloatRef)
    (st : Polling.State) (r : HCSR04_Status * FloatRef * Polling.State) :
  Polling.read w fuel out_cm st = Some r ->
  written_iff_ok (status_of r) out_cm (out_of r).
Proof.
  destruct (polling_read_cases w fuel out_cm st) as [[_ ->] | [_ ->]].
  - intros E. injection E as <-. cbn. unfold written_iff_ok.
    split; [discriminate | split; [reflexivity |]].
    split; [lia | discriminate].
  - intros E. apply polling_measure_shape in E.
    destruct E as (_ & _ & [[E1 E2] | [E1 E2]]); unfold written_iff_ok.
    + rewrite E1, E2. split; [reflexivity | split; [congruence | tauto]].
    + rewrite E2.
      split; [| split; [reflexivity |]].
      * intros E. rewrite E in E1. destruct E1 as [E1 | [E1 | E1]]; discriminate.
      * split; [lia |].
        intros E. rewrite E in E1. destruct E1 as [E1 | [E1 | E1]]; discriminate.
Qed.

(** The statuses the polling read can return. *)
Lemma polling_read_status (w : World) (fuel : nat) (out_cm : FloatRef)
    (st : Polling.State) (r : HCSR04_Status * FloatRef * Polling.State) :
  Polling.read w fuel out_cm st = Some r ->
  In (status_of r)
    [HCSR04_OK; HCSR04_ERR_BAD_STATE; HCSR04_ERR_TIMEOUT_ECHO_START;
     HCSR04_ERR_TIMEOUT_ECHO_END; HCSR04_ERR_BAD_PARAM].
Proof.
  destruct (polling_read_cases w fuel out_cm st) as [[_ ->] | [_ ->]].
  - intros E. injection E as <-. cbn. auto.
  - intros E. apply polling_measure_shape in E.
    destruct E as (_ & _ & [[E1 _] | [[E1 | [E1 | E1]] _]]);
      rewrite E1; cbn; auto 6.
Qed.

(** C1 (amended).  A polling [read] entered before the minimum cycle interval
    has gone by since the last shot start returns, whatever the fuel, the
    status Bad-state (the guard's own answer, Busy, is not passed on).  The
    trigger line is not driven (the trace of outputs is as it was), the cell
    of the distance is not stored to, and the object, with its last-shot
    timestamp, is as it was; the board has given one clock reading. *)
Theorem polling_read_within_cycle (w : World) (fuel : nat) (out_cm : FloatRef)
    (st : Polling.State) :
  guard_denies w (Polling.cfg st) (Polling.hw st) ->
  fst (canStartShot_ w (Polling.cfg st) (Polling.hw st)) = HCSR04_ERR_BUSY /\
  Polling.read w fuel out_cm st =
  Some (HCSR04_ERR_BAD_STATE, out_cm,
        {| Polling.cfg := Polling.cfg st;
           Polling.hw :=
             {| hw_ticks := S (hw_ticks (Polling.hw st));
                hw_samples := hw_samples (Polling.hw st);
                hw_trace := hw_trace (Polling.hw st) |} |}).
Proof.
  intros D. split.
  - now apply canStartShot_busy_iff.
  - now apply polling_read_denied.
Qed.

Lemma polling_read_within_cycle_witness :
  guard_denies world_1ms (Polling.cfg polling_fresh) (Polling.hw polling_fresh) /\
  Polling.read world_1ms 0 out0 polling_fresh =
  Some (HCSR04_ERR_BAD_STATE, out0,
        {| Polling.cfg := Polling.cfg polling_fresh;
           Polling.hw := {| hw_ticks := 1; hw_samples := 0; hw_trace := [] |} |}).
Proof.
  assert (D : guard_denies world_1ms (Polling.cfg polling_fresh)
                (Polling.hw polling_fresh)) by (vm_compute; reflexivity).
  split; [exact D |].
  exact (proj2 (polling_read_within_cycle world_1ms 0 out0 polling_fresh D)).
Defined.

(** C1 as stated fails: one millisecond after reset the guard of a fresh
    object refuses the shot, and [read] answers Bad-state, not Busy. *)
Lemma polling_read_early_is_not_busy :
  guard_denies world_1ms (Polling.cfg polling_fresh) (Polling.hw polling_fresh) /\
  option_map status_of (Polling.read world_1ms 0 out0 polling_fresh) =
    Some HCSR04_ERR_BAD_STATE /\
  option_map status_of (Polling.read world_1ms 0 out0 polling_fresh) <>
    Some HCSR04_ERR_BUSY.
Proof.
  split; [vm_compute; reflexivity |].
  split; [reflexivity | discriminate].
Qed.

(* ================================================================== *)
(** ** Interrupt engine *)

Lemma populated_dec (st : Interrupt.State) : populated st \/ ~ populated st.
Proof. unfold populated. lia. Qed.

Lemma arm_denied (w : World) (st : Interrupt.State) :
  guard_denies w (Interrupt.cfg st) (Interrupt.hw st) ->
  Interrupt.arm w st =
  (HCSR04_ERR_BUSY, with_cfg_hw (Interrupt.cfg st) (tick (Interrupt.hw st)) st).
Proof.
  intros D. unfold Interrupt.arm. cbv zeta.
  rewrite canStartShot_denied by assumption. reflexivity.
Qed.

Lemma arm_allowed (w : World) (st : Interrupt.State) :
  ~ guard_denies w (Interrupt.cfg st) (Interrupt.hw st) ->
  Interrupt.arm w st = (HCSR04_OK, armed w st).
Proof.
  intros D. unfold Interrupt.arm. cbv zeta.
  rewrite canStartShot_allowed by assumption. cbn [is_ok].
  rewrite markShotStart_eq, trigger_pulse_hw, advance_tick_tick.
  reflexivity.
Qed.

Lemma harvest_not_populated (out_cm : FloatRef) (st : Interrupt.State) :
  ~ populated st ->
  Interrupt.harvest out_cm st = (HCSR04_ERR_NOT_READY, out_cm, st).
Proof.
  unfold populated, Interrupt.harvest. intros H.
  destruct (Z.eqb_spec (Interrupt.s_rise_us st) 0);
    destruct (Z.eqb_spec (Interrupt.s_fall_us st) 0);
    cbn [negb andb]; try reflexivity.
  exfalso. apply H. split; assumption.
Qed.

Lemma harvest_populated (out_cm : FloatRef) (st : Interrupt.State) :
  populated st ->
  Interrupt.harvest out_cm st =
  if captured_high_us st =? 0
  then (HCSR04_ERR_BAD_PARAM, out_cm, cleared st)
  else (HCSR04_OK,
        store (distance_cm (m_cm_per_us (Interrupt.cfg st)) (captured_high_us st))
          out_cm,
        cleared st).
Proof.
  unfold populated, Interrupt.harvest, captured_high_us. intros [H1 H2].
  destruct (Z.eqb_spec (Interrupt.s_rise_us st) 0); [contradiction |].
  destruct (Z.eqb_spec (Interrupt.s_fall_us st) 0); [contradiction |].
  cbn [negb andb]. cbv zeta. unfold timeUsToCm_.
  destruct (usub (Interrupt.s_fall_us st) (Interrupt.s_rise_us st) =? 0);
    reflexivity.
Qed.

Lemma cleared_not_populated (st : Interrupt.State) : ~ populated (cleared st).
Proof. unfold populated, cleared. cbn. intros [H _]. now apply H. Qed.

Lemma armed_not_populated (w : World) (st : Interrupt.State) :
  ~ populated (armed w st).
Proof. unfold populated, armed. cbn. intros [H _]. now apply H. Qed.

(** The arming step gives populated timestamps only by leaving them alone. *)
Lemma populated_after_arm (w : World) (st : Interrupt.State) :
  populated (snd (Interrupt.arm w st)) <->
  populated st /\ guard_denies w (Interrupt.cfg st) (Interrupt.hw st).
Proof.
  destruct (guard_denies_dec w (Interrupt.cfg st) (Interrupt.hw st)) as [D | D].
  - rewrite arm_denied by assumption. cbn [snd].
    unfold populated, with_cfg_hw. cbn. tauto.
  - rewrite arm_allowed by assumption. cbn [snd].
    split; [intros H; now apply armed_not_populated in H | tauto].
Qed.

Lemma not_populated_after_arm (w : World) (st : Interrupt.State) :
  ~ populated st -> ~ populated (snd (Interrupt.arm w st)).
Proof. rewrite populated_after_arm. tauto. Qed.

Lemma interrupt_read_eq (w : World) (out_cm : FloatRef) (st : Interrupt.State) :
  Interrupt.read w out_cm st = Interrupt.harvest out_cm (snd (Interrupt.arm w st)).
Proof.
  unfold Interrupt.read, Interrupt.arm. cbv zeta.
  destruct (canStartShot_ w (Interrupt.cfg st) (Interrupt.hw st)) as [status h].
  destruct (is_ok status); [| reflexivity].
  destruct (markShotStart_ w (Interrupt.cfg st) h) as [self h1]. reflexivity.
Qed.

(** A read that does not find both timestamps answers Not-ready. *)
Lemma interrupt_read_not_ready (w : World) (out_cm : FloatRef)
    (st : Interrupt.State) :
  ~ populated st ->
  Interrupt.read w out_cm st =
  (HCSR04_ERR_NOT_READY, out_cm, snd (Interrupt.arm w st)).
Proof.
  intros H. rewrite interrupt_read_eq.
  apply harvest_not_populated. now apply not_populated_after_arm.
Qed.

(** After any read the timestamps are not both there. *)
Lemma interrupt_read_leaves_unpopulated (w : World) (out_cm : FloatRef)
    (st : Interrupt.State) :
  ~ populated (state_of (Interrupt.read w out_cm st)).
Proof.
  rewrite interrupt_read_eq. unfold state_of.
  destruct (populated_dec (snd (Interrupt.arm w st))) as [P | P].
  - rewrite harvest_populated by assumption.
    destruct (captured_high_us _ =? 0); cbn [snd]; apply cleared_not_populated.
  - rewrite harvest_not_populated by assumption. exact P.
Qed.

(** The three statuses the interrupt read can return. *)
Lemma interrupt_read_status (w : World) (out_cm : FloatRef) (st : Interrupt.State) :
  status_of (Interrupt.read w out_cm st) = HCSR04_OK \/
  status_of (Interrupt.read w out_cm st) = HCSR04_ERR_BAD_PARAM \/
  status_of (Interrupt.read w out_cm st) = HCSR04_ERR_NOT_READY.
Proof.
  rewrite interrupt_read_eq. unfold status_of.
  destruct (populated_dec (snd (Interrupt.arm w st))) as [P | P].
  - rewrite harvest_populated by assumption.
    destruct (captured_high_us _ =? 0); cbn; auto.
  - rewrite harvest_not_populated by assumption. cbn; auto.
Qed.

Lemma interrupt_read_written (w : World) (out_cm : FloatRef) (st : Interrupt.State) :
  written_iff_ok (status_of (Interrupt.read w out_cm st)) out_cm
    (out_of (Interrupt.read w out_cm st)).
Proof.
  rewrite interrupt_read_eq. unfold status_of, out_of, written_iff_ok.
  destruct (populated_dec (snd (Interrupt.arm w st))) as [P | P].
  - rewrite harvest_populated by assumption.
    destruct (captured_high_us _ =? 0); cbn.
    + split; [discriminate | split; [reflexivity |]].
      split; [lia | discriminate].
    + split; [reflexivity | split; [congruence | tauto]].
  - rewrite harvest_not_populated by assumption. cbn.
    split; [discriminate | split; [reflexivity |]].
    split; [lia | discriminate].
Qed.

(** Reads with no edge in between: all of them answer Not-ready. *)
Lemma interrupt_reads_not_ready (w : World) :
  forall (n : nat) (out_cm : FloatRef) (st : Interrupt.State),
    ~ populated st ->
    results_of (Interrupt.run w (repeat Interrupt.Read n) out_cm st) =
    repeat (Some HCSR04_ERR_NOT_READY) n.
Proof.
  induction n as [| n IH]; intros out_cm st H; [reflexivity |].
  cbn [repeat Interrupt.run Interrupt.step].
  rewrite interrupt_read_not_ready by assumption.
  specialize (IH out_cm (snd (Interrupt.arm w st))
                (not_populated_after_arm w st H)).
  unfold results_of in *.
  destruct (Interrupt.run w (repeat Interrupt.Read n) out_cm
              (snd (Interrupt.arm w st))) as [[rs o] s].
  cbn [fst] in *. now rewrite IH.
Qed.







(** *** The callback inside [read] *)

(** The callback writes to the statics and reads the board: it leaves the
    object, the back-reference and the outputs as they are. *)
Lemma isr_cfg (w : World) (st : Interrupt.State) :
  Interrupt.cfg (Interrupt.echoChangeISR_ w st) = Interrupt.cfg st.
Proof.
  unfold Interrupt.echoChangeISR_, digitalRead. rewrite micros_eq.
  destruct (Interrupt.s_waiting_rise st); destruct (Level_eqb _ _); reflexivity.
Qed.

Lemma isr_instance (w : World) (st : Interrupt.State) :
  Interrupt.s_instance (Interrupt.echoChangeISR_ w st) = Interrupt.s_instance st.
Proof.
  unfold Interrupt.echoChangeISR_, digitalRead. rewrite micros_eq.
  destruct (Interrupt.s_waiting_rise st); destruct (Level_eqb _ _); reflexivity.
Qed.

Lemma isr_trace (w : World) (st : Interrupt.State) :
  hw_trace (Interrupt.hw (Interrupt.echoChangeISR_ w st)) =
  hw_trace (Interrupt.hw st).
Proof.
  unfold Interrupt.echoChangeISR_, digitalRead. rewrite micros_eq.
  destruct (Interrupt.s_waiting_rise st); destruct (Level_eqb _ _); reflexivity.
Qed.

Lemma callbacks_frame (w : World) (n : nat) (st : Interrupt.State) :
  Interrupt.cfg (Interrupt.callbacks w n st) = Interrupt.cfg st /\
  Interrupt.s_instance (Interrupt.callbacks w n st) = Interrupt.s_instance st /\
  hw_trace (Interrupt.hw (Interrupt.callbacks w n st)) =
    hw_trace (Interrupt.hw st).
Proof.
  unfold Interrupt.callbacks.
  induction n as [| n (IH1 & IH2 & IH3)]; [repeat split |].
  rewrite Nat.iter_succ. set (s := Nat.iter n _ st) in *.
  destruct (Interrupt.s_instance s) eqn:E.
  - rewrite isr_cfg, isr_instance, isr_trace. rewrite E. auto.
  - rewrite E. auto.
Qed.

Lemma callbacks_cfg (w : World) (n : nat) (st : Interrupt.State) :
  Interrupt.cfg (Interrupt.callbacks w n st) = Interrupt.cfg st.
Proof. apply callbacks_frame. Qed.

Lemma callbacks_instance (w : World) (n : nat) (st : Interrupt.State) :
  Interrupt.s_instance (Interrupt.callbacks w n st) = Interrupt.s_instance st.
Proof. apply callbacks_frame. Qed.


Lemma callbacks_none (w : World) (st : Interrupt.State) :
  Interrupt.callbacks w 0 st = st.
Proof. reflexivity. Qed.

(** [read_preempted] is its two blocks, one after the other. *)
Lemma read_preempted_eq (w : World) (p : Interrupt.Preemption)
    (out_cm : FloatRef) (st : Interrupt.State) :
  Interrupt.read_preempted w p out_cm st =
  Interrupt.harvest_preempted w p out_cm (Interrupt.arm_preempted w p st).
Proof.
  unfold Interrupt.read_preempted, Interrupt.arm_preempted,
    Interrupt.harvest_preempted. cbv zeta.
  destruct (canStartShot_ w (Interrupt.cfg st) (Interrupt.hw st)) as [status h].
  destruct (is_ok status); [| reflexivity].
  destruct (markShotStart_ w _ _) as [self h1]. reflexivity.
Qed.

(** With no callback inside, the blocks are those of [read]. *)
Lemma arm_preempted_quiet (w : World) (p : Interrupt.Preemption)
    (st : Interrupt.State) :
  no_callbacks p -> Interrupt.arm_preempted w p st = snd (Interrupt.arm w st).
Proof.
  intros (H1 & H2 & H3 & H4 & H5 & _).
  unfold Interrupt.arm_preempted, Interrupt.arm. cbv zeta.
  rewrite H1, H2, H3, H4, H5.
  destruct (canStartShot_ w (Interrupt.cfg st) (Interrupt.hw st)) as [status h].
  rewrite !callbacks_none.
  destruct (is_ok status); [| reflexivity].
  cbn [Interrupt.cfg Interrupt.hw Interrupt.set_hw].
  destruct (markShotStart_ w (Interrupt.cfg st) h) as [self h1].
  rewrite !callbacks_none. reflexivity.
Qed.

Lemma harvest_preempted_quiet (w : World) (p : Interrupt.Preemption)
    (out_cm : FloatRef) (st : Interrupt.State) :
  no_callbacks p ->
  Interrupt.harvest_preempted w p out_cm st = Interrupt.harvest out_cm st.
Proof.
  intros (_ & _ & _ & _ & _ & H6 & H7 & H8 & H9 & H10).
  unfold Interrupt.harvest_preempted, Interrupt.harvest. cbv zeta.
  rewrite H6, H7, H8, H9, H10. rewrite !callbacks_none.
  destruct (negb (Interrupt.s_rise_us st =? 0)); [| reflexivity].
  cbn [andb].
  destruct (negb (Interrupt.s_fall_us st =? 0)); [| reflexivity].
  destruct (Interrupt.rise_read_first p);
    destruct (timeUsToCm_ _ _ _) as [status tmp]; reflexivity.
Qed.

(** A call of [read] during which no callback runs is [Interrupt.read]. *)
Lemma read_preempted_quiet (w : World) (p : Interrupt.Preemption)
    (out_cm : FloatRef) (st : Interrupt.State) :
  no_callbacks p ->
  Interrupt.read_preempted w p out_cm st = Interrupt.read w out_cm st.
Proof.
  intros H. rewrite read_preempted_eq, interrupt_read_eq.
  rewrite arm_preempted_quiet, harvest_preempted_quiet by exact H.
  reflexivity.
Qed.

Lemma read_preempted_none (w : World) (out_cm : FloatRef)
    (st : Interrupt.State) :
  Interrupt.read_preempted w Interrupt.quiet out_cm st =
  Interrupt.read w out_cm st.
Proof. apply read_preempted_quiet. repeat split. Qed.

(** The first block changes no field of the object but the last-shot
    timestamp, and never the back-reference. *)
Lemma arm_preempted_cfg (w : World) (p : Interrupt.Preemption)
    (st : Interrupt.State) :
  exists t,
    Interrupt.cfg (Interrupt.arm_preempted w p st) =
    set_last_shot_us t (Interrupt.cfg st).
Proof.
  unfold Interrupt.arm_preempted. cbv zeta.
  destruct (canStartShot_ w (Interrupt.cfg st) (Interrupt.hw st)) as [status h].
  destruct (is_ok status).
  - rewrite markShotStart_eq.
    repeat first
      [ rewrite callbacks_cfg
      | progress cbn [Interrupt.cfg Interrupt.set_fall_us Interrupt.set_hw
                      Interrupt.set_rise_us Interrupt.set_waiting_rise
                      Interrupt.set_cfg] ].
    eexists; reflexivity.
  - rewrite callbacks_cfg. cbn [Interrupt.cfg Interrupt.set_hw].
    exists (m_last_shot_us (Interrupt.cfg st)).
    destruct (Interrupt.cfg st); reflexivity.
Qed.

Lemma arm_preempted_instance (w : World) (p : Interrupt.Preemption)
    (st : Interrupt.State) :
  Interrupt.s_instance (Interrupt.arm_preempted w p st) = Interrupt.s_instance st.
Proof.
  unfold Interrupt.arm_preempted. cbv zeta.
  destruct (canStartShot_ w (Interrupt.cfg st) (Interrupt.hw st)) as [status h].
  destruct (is_ok status).
  - destruct (markShotStart_ w _ _) as [self h1].
    repeat first
      [ rewrite callbacks_instance
      | progress cbn [Interrupt.s_instance Interrupt.set_fall_us
                      Interrupt.set_hw Interrupt.set_rise_us
                      Interrupt.set_waiting_rise Interrupt.set_cfg] ].
    reflexivity.
  - rewrite callbacks_instance. reflexivity.
Qed.


(** The second block leaves the object as it is; its status is OK, Bad-param
    or Not-ready, and it stores to the cell exactly when the status is OK. *)
Lemma harvest_preempted_frame (w : World) (p : Interrupt.Preemption)
    (out_cm : FloatRef) (st : Interrupt.State) :
  let r := Interrupt.harvest_preempted w p out_cm st in
  Interrupt.cfg (state_of r) = Interrupt.cfg st /\
  Interrupt.s_instance (state_of r) = Interrupt.s_instance st /\
  (status_of r = HCSR04_OK \/ status_of r = HCSR04_ERR_BAD_PARAM \/
   status_of r = HCSR04_ERR_NOT_READY) /\
  written_iff_ok (status_of r) out_cm (out_of r).
Proof.
  assert (W0 : written_iff_ok HCSR04_ERR_NOT_READY out_cm out_cm).
  { split; [discriminate | split; [reflexivity |]].
    split; [lia | discriminate]. }
  unfold Interrupt.harvest_preempted. cbv zeta.
  destruct (negb (Interrupt.s_rise_us st =? 0));
    [| cbn; repeat split; auto; apply W0].
  destruct (negb (Interrupt.s_fall_us _ =? 0));
    [| cbn; rewrite callbacks_cfg, callbacks_instance;
       repeat split; auto; apply W0].
  set (st1 := Interrupt.callbacks w (Interrupt.after_test p) _).
  assert (C1 : Interrupt.cfg st1 = Interrupt.cfg st /\
               Interrupt.s_instance st1 = Interrupt.s_instance st).
  { unfold st1. rewrite !callbacks_cfg, !callbacks_instance. auto. }
  set (st2 := Interrupt.callbacks w (Interrupt.in_difference p) st1).
  assert (C2 : Interrupt.cfg st2 = Interrupt.cfg st /\
               Interrupt.s_instance st2 = Interrupt.s_instance st).
  { unfold st2. rewrite callbacks_cfg, callbacks_instance. exact C1. }
  assert (G : forall echo_high_us,
             let r :=
               (let (status, tmp_cm) :=
                  timeUsToCm_ (Interrupt.cfg st2) echo_high_us (mkRef F_0_0 0) in
                (status,
                 if is_ok status then store (deref tmp_cm) out_cm else out_cm,
                 Interrupt.set_fall_us 0
                   (Interrupt.callbacks w (Interrupt.in_clear p)
                      (Interrupt.set_rise_us 0
                         (Interrupt.callbacks w (Interrupt.in_convert p) st2))))) in
             Interrupt.cfg (state_of r) = Interrupt.cfg st /\
             Interrupt.s_instance (state_of r) = Interrupt.s_instance st /\
             (status_of r = HCSR04_OK \/ status_of r = HCSR04_ERR_BAD_PARAM \/
              status_of r = HCSR04_ERR_NOT_READY) /\
             written_iff_ok (status_of r) out_cm (out_of r)).
  { intros e. cbv zeta.
    destruct (timeUsToCm_cases (Interrupt.cfg st2) e (mkRef F_0_0 0))
      as [[_ ->] | [_ ->]];
      unfold state_of, status_of, out_of;
      cbn [fst snd is_ok Interrupt.cfg Interrupt.s_instance
           Interrupt.set_fall_us];
      rewrite callbacks_cfg, callbacks_instance;
      cbn [Interrupt.cfg Interrupt.s_instance Interrupt.set_rise_us];
      rewrite callbacks_cfg, callbacks_instance;
      (split; [apply C2 |]); (split; [apply C2 |]).
    - split; [auto |]. cbn [deref store].
      split; [reflexivity | split; [congruence | tauto]].
    - split; [auto |].
      split; [discriminate | split; [reflexivity |]].
      split; [lia | discriminate]. }
  destruct (Interrupt.rise_read_first p); apply G.
Qed.


(** What a call of [read] does under any callbacks inside it. *)
Lemma read_preempted_cfg (w : World) (p : Interrupt.Preemption)
    (out_cm : FloatRef) (st : Interrupt.State) :
  exists t,
    Interrupt.cfg (state_of (Interrupt.read_preempted w p out_cm st)) =
    set_last_shot_us t (Interrupt.cfg st).
Proof.
  rewrite read_preempted_eq.
  destruct (harvest_preempted_frame w p out_cm (Interrupt.arm_preempted w p st))
    as (-> & _).
  apply arm_preempted_cfg.
Qed.

Lemma read_preempted_instance (w : World) (p : Interrupt.Preemption)
    (out_cm : FloatRef) (st : Interrupt.State) :
  Interrupt.s_instance (state_of (Interrupt.read_preempted w p out_cm st)) =
  Interrupt.s_instance st.
Proof.
  rewrite read_preempted_eq.
  destruct (harvest_preempted_frame w p out_cm (Interrupt.arm_preempted w p st))
    as (_ & -> & _).
  apply arm_preempted_instance.
Qed.

Lemma read_preempted_status (w : World) (p : Interrupt.Preemption)
    (out_cm : FloatRef) (st : Interrupt.State) :
  status_of (Interrupt.read_preempted w p out_cm st) = HCSR04_OK \/
  status_of (Interrupt.read_preempted w p out_cm st) = HCSR04_ERR_BAD_PARAM \/
  status_of (Interrupt.read_preempted w p out_cm st) = HCSR04_ERR_NOT_READY.
Proof. rewrite read_preempted_eq. apply harvest_preempted_frame. Qed.

Lemma read_preempted_written (w : World) (p : Interrupt.Preemption)
    (out_cm : FloatRef) (st : Interrupt.State) :
  written_iff_ok (status_of (Interrupt.read_preempted w p out_cm st)) out_cm
    (out_of (Interrupt.read_preempted w p out_cm st)).
Proof. rewrite read_preempted_eq. apply harvest_preempted_frame. Qed.

Lemma interrupt_step_read_preempted (w : World) (p : Interrupt.Preemption)
    (out_cm : FloatRef) (st : Interrupt.State) :
  Interrupt.step w (Interrupt.ReadPreempted p) out_cm st =
  (Some (status_of (Interrupt.read_preempted w p out_cm st)),
   out_of (Interrupt.read_preempted w p out_cm st),
   state_of (Interrupt.read_preempted w p out_cm st)).
Proof.
  cbn [Interrupt.step].
  destruct (Interrupt.read_preempted w p out_cm st) as [[s o] s'].
  reflexivity.
Qed.


(** C9.  Whatever a [read] of either engine returns, the cell of the
    distance has been stored to exactly when the status is OK, and then
    once; on every other status the cell is as the caller passed it.  For the
    polling engine this is said of every call that returns, at any fuel, and
    the call does return once the clock leaves the window of the shot.  For
    the interrupt engine it is said of the call that no callback interrupts
    and of the call with any callbacks inside it. *)
Theorem out_cm_written_iff_ok (w : World) (out_cm : FloatRef) :
  (forall (fuel : nat) (st : Polling.State),
      match Polling.read w fuel out_cm st with
      | Some r =>
          (status_of r = HCSR04_OK -> stores (out_of r) = S (stores out_cm)) /\
          (status_of r <> HCSR04_OK -> out_of r = out_cm) /\
          (stores (out_of r) = S (stores out_cm) <-> status_of r = HCSR04_OK)
      | None => True
      end) /\
  (forall (bound fuel : nat) (st : Polling.State),
      leaves_window w (wrap (w_time w (2 + hw_ticks (Polling.hw st))))
        (getTimeoutUs (Polling.cfg st)) bound ->
      (bound <= fuel)%nat ->
      exists r,
        Polling.read w fuel out_cm st = Some r /\
        (status_of r = HCSR04_OK -> stores (out_of r) = S (stores out_cm)) /\
        (status_of r <> HCSR04_OK -> out_of r = out_cm)) /\
  (forall st : Interrupt.State,
      let r := Interrupt.read w out_cm st in
      (status_of r = HCSR04_OK -> stores (out_of r) = S (stores out_cm)) /\
      (status_of r <> HCSR04_OK -> out_of r = out_cm) /\
      (stores (out_of r) = S (stores out_cm) <-> status_of r = HCSR04_OK)) /\
  (forall (p : Interrupt.Preemption) (st : Interrupt.State),
      let r := Interrupt.read_preempted w p out_cm st in
      (status_of r = HCSR04_OK -> stores (out_of r) = S (stores out_cm)) /\
      (status_of r <> HCSR04_OK -> out_of r = out_cm) /\
      (stores (out_of r) = S (stores out_cm) <-> status_of r = HCSR04_OK)).
Proof.
  split; [| split; [| split]].
  - intros fuel st.
    destruct (Polling.read w fuel out_cm st) as [r |] eqn:E; [| exact I].
    exact (polling_read_written w fuel out_cm st r E).
  - intros bound fuel st L Hb.
    destruct (polling_read_returns w bound fuel out_cm st L Hb) as (r & E).
    exists r. split; [exact E |].
    destruct (polling_read_written w fuel out_cm st r E) as (A & B & _).
    split; assumption.
  - intros st r. exact (interrupt_read_written w out_cm st).
  - intros p st r. exact (read_preempted_written w p out_cm st).
Qed.

(** *** Runs of the interrupt engine *)

Lemma interrupt_run_cons (w : World) (s : Interrupt.Step) (l : list Interrupt.Step)
    (out_cm : FloatRef) (st : Interrupt.State) :
  results_of (Interrupt.run w (s :: l) out_cm st) =
  fst (fst (Interrupt.step w s out_cm st)) ::
  results_of (Interrupt.run w l (snd (fst (Interrupt.step w s out_cm st)))
                (snd (Interrupt.step w s out_cm st))).
Proof.
  unfold results_of. cbn [Interrupt.run].
  destruct (Interrupt.step w s out_cm st) as [[r o] s'].
  cbn [fst snd].
  destruct (Interrupt.run w l o s') as [[rs o'] s'']. reflexivity.
Qed.

Lemma interrupt_step_read (w : World) (out_cm : FloatRef) (st : Interrupt.State) :
  Interrupt.step w Interrupt.Read out_cm st =
  (Some (status_of (Interrupt.read w out_cm st)),
   out_of (Interrupt.read w out_cm st), state_of (Interrupt.read w out_cm st)).
Proof.
  cbn [Interrupt.step]. destruct (Interrupt.read w out_cm st) as [[s o] s'].
  reflexivity.
Qed.

Lemma interrupt_step_no_timeout (w : World) (s : Interrupt.Step)
    (out_cm : FloatRef) (st : Interrupt.State) :
  match fst (fst (Interrupt.step w s out_cm st)) with
  | Some x => is_timeout x = false
  | None => True
  end.
Proof.
  destruct s as [c | | | | p].
  - cbn [Interrupt.step].
    pose proof (call_setter_status c (Interrupt.cfg st)) as H.
    destruct (call_setter c (Interrupt.cfg st)) as [x self]. cbn [fst] in *.
    destruct H as [-> | ->]; reflexivity.
  - reflexivity.
  - rewrite interrupt_step_read. cbn [fst].
    destruct (interrupt_read_status w out_cm st) as [-> | [-> | ->]]; reflexivity.
  - exact I.
  - rewrite interrupt_step_read_preempted. cbn [fst].
    destruct (read_preempted_status w p out_cm st) as [-> | [-> | ->]];
      reflexivity.
Qed.

Lemma interrupt_run_no_timeout (w : World) :
  forall (l : list Interrupt.Step) (out_cm : FloatRef) (st : Interrupt.State),
    no_timeout (results_of (Interrupt.run w l out_cm st)).
Proof.
  unfold no_timeout.
  induction l as [| s l IH]; intros out_cm st; [constructor |].
  rewrite interrupt_run_cons. constructor.
  - apply interrupt_step_no_timeout.
  - apply IH.
Qed.

(** The callback with the line low and a rise awaited records nothing. *)
Lemma isr_low_awaiting_rise (w : World) (st : Interrupt.State) :
  echo_stuck w LOW ->
  Interrupt.s_waiting_rise st = true ->
  Interrupt.s_waiting_rise (Interrupt.echoChangeISR_ w st) = true /\
  Interrupt.s_rise_us (Interrupt.echoChangeISR_ w st) = Interrupt.s_rise_us st.
Proof.
  intros L W. unfold Interrupt.echoChangeISR_, digitalRead.
  rewrite micros_eq, W, L. cbn. auto.
Qed.

(** The callback with the line high never records a fall. *)
Lemma isr_high_no_fall (w : World) (st : Interrupt.State) :
  echo_stuck w HIGH ->
  Interrupt.s_fall_us (Interrupt.echoChangeISR_ w st) = Interrupt.s_fall_us st.
Proof.
  intros L. unfold Interrupt.echoChangeISR_, digitalRead.
  rewrite micros_eq, !L. destruct (Interrupt.s_waiting_rise st); reflexivity.
Qed.

Lemma arm_keeps_awaiting_rise (w : World) (st : Interrupt.State) :
  Interrupt.s_waiting_rise st = true /\ Interrupt.s_rise_us st = 0 ->
  Interrupt.s_waiting_rise (snd (Interrupt.arm w st)) = true /\
  Interrupt.s_rise_us (snd (Interrupt.arm w st)) = 0.
Proof.
  intros H.
  destruct (guard_denies_dec w (Interrupt.cfg st) (Interrupt.hw st)) as [D | D].
  - rewrite arm_denied by assumption. exact H.
  - rewrite arm_allowed by assumption. split; reflexivity.
Qed.

Lemma arm_keeps_no_fall (w : World) (st : Interrupt.State) :
  Interrupt.s_fall_us st = 0 -> Interrupt.s_fall_us (snd (Interrupt.arm w st)) = 0.
Proof.
  intros H.
  destruct (guard_denies_dec w (Interrupt.cfg st) (Interrupt.hw st)) as [D | D].
  - rewrite arm_denied by assumption. exact H.
  - rewrite arm_allowed by assumption. reflexivity.
Qed.

(** With the echo line stuck low after a shot was armed, no rise is ever
    recorded and every read answers Not-ready. *)
Lemma interrupt_run_stuck_low (w : World) :
  echo_stuck w LOW ->
  forall (l : list Interrupt.Step) (out_cm : FloatRef) (st : Interrupt.State),
    polls_only l ->
    Interrupt.s_waiting_rise st = true /\ Interrupt.s_rise_us st = 0 ->
    all_not_ready (results_of (Interrupt.run w l out_cm st)).
Proof.
  intros L. unfold all_not_ready, polls_only.
  induction l as [| s l IH]; intros out_cm st Hl Hst; [constructor |].
  rewrite interrupt_run_cons.
  inversion Hl as [| s' l' Hs Hl']; subst.
  assert (N : ~ populated st) by (unfold populated; lia).
  destruct Hs as [-> | ->].
  - rewrite interrupt_step_read.
    rewrite interrupt_read_not_ready by assumption.
    cbn [fst snd status_of out_of state_of]. constructor; [now right |].
    apply IH; [assumption | now apply arm_keeps_awaiting_rise].
  - cbn [Interrupt.step fst snd]. constructor; [now left |].
    apply IH; [assumption |].
    destruct (Interrupt.s_instance st); [| assumption].
    destruct Hst as [W R].
    destruct (isr_low_awaiting_rise w st L W) as [W' R'].
    split; congruence.
Qed.

(** With the echo line stuck high after a shot was armed, no fall is ever
    recorded and every read answers Not-ready. *)
Lemma interrupt_run_stuck_high (w : World) :
  echo_stuck w HIGH ->
  forall (l : list Interrupt.Step) (out_cm : FloatRef) (st : Interrupt.State),
    polls_only l ->
    Interrupt.s_fall_us st = 0 ->
    all_not_ready (results_of (Interrupt.run w l out_cm st)).
Proof.
  intros L. unfold all_not_ready, polls_only.
  induction l as [| s l IH]; intros out_cm st Hl Hst; [constructor |].
  rewrite interrupt_run_cons.
  inversion Hl as [| s' l' Hs Hl']; subst.
  assert (N : ~ populated st) by (unfold populated; lia).
  destruct Hs as [-> | ->].
  - rewrite interrupt_step_read.
    rewrite interrupt_read_not_ready by assumption.
    cbn [fst snd status_of out_of state_of]. constructor; [now right |].
    apply IH; [assumption | now apply arm_keeps_no_fall].
  - cbn [Interrupt.step fst snd]. constructor; [now left |].
    apply IH; [assumption |].
    destruct (Interrupt.s_instance st); [| assumption].
    rewrite isr_high_no_fall by assumption. exact Hst.
Qed.

(** C10.  The interrupt engine has no timeout: a [read] answers OK,
    Bad-param or Not-ready and nothing else, with or without callbacks
    inside the call, so no step of any run returns a timeout status.  After
    a shot was armed, if the echo line never gives
    the awaited edge (it stays low and no rise comes, or it stays high and no
    fall comes), every read of a run of reads and echo changes answers
    Not-ready, whether or not it arms a fresh shot. *)
Theorem interrupt_read_never_times_out (w : World) :
  (forall out_cm st,
      status_of (Interrupt.read w out_cm st) <> HCSR04_ERR_TIMEOUT_ECHO_START /\
      status_of (Interrupt.read w out_cm st) <> HCSR04_ERR_TIMEOUT_ECHO_END /\
      status_of (Interrupt.read w out_cm st) <> HCSR04_ERR_TIMEOUT_TRIG) /\
  (forall steps out_cm st,
      no_timeout (results_of (Interrupt.run w steps out_cm st))) /\
  (forall n out_cm st,
      results_of
        (Interrupt.run w (repeat Interrupt.Read n) out_cm (armed w st)) =
      repeat (Some HCSR04_ERR_NOT_READY) n) /\
  (echo_stuck w LOW ->
   forall steps out_cm st,
     polls_only steps ->
     all_not_ready (results_of (Interrupt.run w steps out_cm (armed w st)))) /\
  (echo_stuck w HIGH ->
   forall steps out_cm st,
     polls_only steps ->
     all_not_ready (results_of (Interrupt.run w steps out_cm (armed w st)))) /\
  (forall p out_cm st,
      status_of (Interrupt.read_preempted w p out_cm st) <>
        HCSR04_ERR_TIMEOUT_ECHO_START /\
      status_of (Interrupt.read_preempted w p out_cm st) <>
        HCSR04_ERR_TIMEOUT_ECHO_END /\
      status_of (Interrupt.read_preempted w p out_cm st) <>
        HCSR04_ERR_TIMEOUT_TRIG).
Proof.
  split; [| split; [| split; [| split; [| split]]]].
  - intros out_cm st.
    destruct (interrupt_read_status w out_cm st) as [-> | [-> | ->]];
      repeat split; discriminate.
  - intros steps out_cm st. apply interrupt_run_no_timeout.
  - intros n out_cm st. apply interrupt_reads_not_ready, armed_not_populated.
  - intros L steps out_cm st H.
    apply interrupt_run_stuck_low; [assumption | assumption |].
    split; reflexivity.
  - intros L steps out_cm st H.
    apply interrupt_run_stuck_high; [assumption | assumption | reflexivity].
  - intros p out_cm st.
    destruct (read_preempted_status w p out_cm st) as [-> | [-> | ->]];
      repeat split; discriminate.
Qed.

(* ================================================================== *)
(** ** The pin pair *)

Lemma set_last_shot_pins_differ (t : Z) (self : IHCSR04) :
  pins_differ self -> pins_differ (set_last_shot_us t self).
Proof. unfold pins_differ. cbn. tauto. Qed.

Lemma polling_step_pins_differ (w : World) (s : Polling.Step) (out_cm : FloatRef)
    (st : Polling.State) (r : HCSR04_Status * FloatRef * Polling.State) :
  Polling.step w s out_cm st = Some r ->
  pins_differ (Polling.cfg st) -> pins_differ (Polling.cfg (state_of r)).
Proof.
  destruct s as [c | | fuel]; cbn [Polling.step].
  - pose proof (call_setter_pins_differ c (Polling.cfg st)) as H.
    destruct (call_setter c (Polling.cfg st)) as [x self].
    intros E. injection E as <-. exact H.
  - intros E. injection E as <-. tauto.
  - intros E H. apply polling_read_cfg in E. destruct E as (t & ->).
    now apply set_last_shot_pins_differ.
Qed.

Lemma polling_run_pins_differ (w : World) :
  forall (l : list Polling.Step) (out_cm : FloatRef) (st : Polling.State)
         (r : list HCSR04_Status * FloatRef * Polling.State),
    Polling.run w l out_cm st = Some r ->
    pins_differ (Polling.cfg st) -> pins_differ (Polling.cfg (snd r)).
Proof.
  induction l as [| s l IH]; intros out_cm st r; cbn [Polling.run].
  - intros E. injection E as <-. tauto.
  - destruct (Polling.step w s out_cm st) as [[[x o] st1] |] eqn:E1;
      [| discriminate].
    destruct (Polling.run w l o st1) as [[[xs o2] st2] |] eqn:E2;
      [| discriminate].
    intros E H. injection E as <-. cbn [snd].
    apply (IH o st1 _ E2).
    exact (polling_step_pins_differ w s out_cm st _ E1 H).
Qed.

Lemma interrupt_read_cfg (w : World) (out_cm : FloatRef) (st : Interrupt.State) :
  exists t,
    Interrupt.cfg (state_of (Interrupt.read w out_cm st)) =
    set_last_shot_us t (Interrupt.cfg st).
Proof.
  assert (A : exists t, Interrupt.cfg (snd (Interrupt.arm w st)) =
                        set_last_shot_us t (Interrupt.cfg st)).
  { destruct (guard_denies_dec w (Interrupt.cfg st) (Interrupt.hw st)) as [D | D].
    - rewrite arm_denied by assumption.
      exists (m_last_shot_us (Interrupt.cfg st)). cbn.
      destruct (Interrupt.cfg st); reflexivity.
    - rewrite arm_allowed by assumption. eexists; reflexivity. }
  destruct A as (t & A). exists t. rewrite <- A.
  rewrite interrupt_read_eq. unfold state_of.
  destruct (populated_dec (snd (Interrupt.arm w st))) as [P | P].
  - rewrite harvest_populated by assumption.
    destruct (captured_high_us _ =? 0); reflexivity.
  - rewrite harvest_not_populated by assumption. reflexivity.
Qed.

Lemma interrupt_step_pins_differ (w : World) (s : Interrupt.Step)
    (out_cm : FloatRef) (st : Interrupt.State) :
  pins_differ (Interrupt.cfg st) ->
  pins_differ (Interrupt.cfg (snd (Interrupt.step w s out_cm st))).
Proof.
  intros H. destruct s as [c | | | | p].
  - cbn [Interrupt.step].
    pose proof (call_setter_pins_differ c (Interrupt.cfg st) H) as H'.
    destruct (call_setter c (Interrupt.cfg st)) as [x self]. exact H'.
  - exact H.
  - rewrite interrupt_step_read. cbn [snd].
    destruct (interrupt_read_cfg w out_cm st) as (t & ->).
    now apply set_last_shot_pins_differ.
  - cbn [Interrupt.step snd].
    destruct (Interrupt.s_instance st); [rewrite isr_cfg |]; exact H.
  - rewrite interrupt_step_read_preempted. cbn [snd].
    destruct (read_preempted_cfg w p out_cm st) as (t & ->).
    now apply set_last_shot_pins_differ.
Qed.

Lemma interrupt_run_pins_differ (w : World) :
  forall (l : list Interrupt.Step) (out_cm : FloatRef) (st : Interrupt.State),
    pins_differ (Interrupt.cfg st) ->
    pins_differ (Interrupt.cfg (snd (Interrupt.run w l out_cm st))).
Proof.
  induction l as [| s l IH]; intros out_cm st H; [exact H |].
  cbn [Interrupt.run].
  pose proof (interrupt_step_pins_differ w s out_cm st H) as H1.
  destruct (Interrupt.step w s out_cm st) as [[x o] st1]. cbn [snd] in H1.
  specialize (IH o st1 H1).
  destruct (Interrupt.run w l o st1) as [[xs o2] st2]. exact IH.
Qed.

(** C2 (amended).  The constructor stores the two pins it is given without
    comparing them, so a freshly constructed object has trigger pin and echo
    pin different exactly when it was given different pins.  From then on the
    invariant is kept: every state a run of calls (setters, [begin], [read],
    and for the interrupt engine the echo callback) reaches from an object
    with different pins has different pins.  [setTrigPin] refuses exactly the
    current echo pin and [setEchoPin] exactly the current trigger pin; a
    refused call answers Bad-param and leaves the object, both pins
    included, as it was. *)
Theorem pins_differ_invariant (trig_pin echo_pin timeout_us : Z)
    (cm_per_us : float) (min_cycle_us : Z) :
  trig_pin <> echo_pin ->
  pins_differ (IHCSR04_new trig_pin echo_pin timeout_us cm_per_us min_cycle_us) /\
  (forall w steps out_cm r,
      Polling.run w steps out_cm
        (Polling.new trig_pin echo_pin timeout_us cm_per_us min_cycle_us) = Some r ->
      getTrigPin (Polling.cfg (snd r)) <> getEchoPin (Polling.cfg (snd r))) /\
  (forall w steps out_cm,
      let st :=
        snd (Interrupt.run w steps out_cm
               (Interrupt.new trig_pin echo_pin timeout_us cm_per_us min_cycle_us)) in
      getTrigPin (Interrupt.cfg st) <> getEchoPin (Interrupt.cfg st)) /\
  (forall self : IHCSR04,
      setTrigPin (getEchoPin self) self = (HCSR04_ERR_BAD_PARAM, self) /\
      setEchoPin (getTrigPin self) self = (HCSR04_ERR_BAD_PARAM, self)) /\
  (forall (self : IHCSR04) (p : Z),
      (fst (setTrigPin p self) = HCSR04_ERR_BAD_PARAM <-> p = getEchoPin self) /\
      (fst (setEchoPin p self) = HCSR04_ERR_BAD_PARAM <-> p = getTrigPin self) /\
      (p <> getEchoPin self ->
       setTrigPin p self = (HCSR04_OK, set_trig_pin p self)) /\
      (p <> getTrigPin self ->
       setEchoPin p self = (HCSR04_OK, set_echo_pin p self))).
Proof.
  intros Hne.
  split; [exact Hne |].
  split; [| split; [| split]].
  - intros w steps out_cm r E.
    apply (polling_run_pins_differ w steps out_cm _ r E). exact Hne.
  - intros w steps out_cm st.
    apply (interrupt_run_pins_differ w steps out_cm
             (Interrupt.new trig_pin echo_pin timeout_us cm_per_us min_cycle_us)).
    exact Hne.
  - intros self. unfold setTrigPin, setEchoPin, getEchoPin, getTrigPin.
    rewrite !Z.eqb_refl. split; reflexivity.
  - intros self p. unfold getEchoPin, getTrigPin.
    destruct (setTrigPin_commits p self) as (A1 & A2 & A3).
    destruct (setEchoPin_commits p self) as (B1 & B2 & B3).
    split; [| split; [| split]].
    + split.
      * intros E. destruct (Z.eq_dec p (m_echo_pin self)) as [e | n];
          [exact e |].
        rewrite (A1 n) in E. discriminate.
      * intros E. rewrite A2 by tauto. reflexivity.
    + split.
      * intros E. destruct (Z.eq_dec p (m_trig_pin self)) as [e | n];
          [exact e |].
        rewrite (B1 n) in E. discriminate.
      * intros E. rewrite B2 by tauto. reflexivity.
    + exact A1.
    + exact B1.
Qed.

Lemma pins_differ_invariant_witness :
  (9 <> 8) /\
  pins_differ (IHCSR04_new 9 8 HCSR04_DEFAULT_TIMEOUT_US HCSR04_CM_PER_US
                 HCSR04_DEFAULT_MIN_CYCLE_US) /\
  setTrigPin 8 (IHCSR04_new_default 9 8) =
    (HCSR04_ERR_BAD_PARAM, IHCSR04_new_default 9 8).
Proof.
  assert (H : 9 <> 8) by discriminate.
  destruct (pins_differ_invariant 9 8 HCSR04_DEFAULT_TIMEOUT_US HCSR04_CM_PER_US
              HCSR04_DEFAULT_MIN_CYCLE_US H) as (A & _ & _ & B & _).
  split; [exact H |].
  split; [exact A |].
  exact (proj1 (B (IHCSR04_new_default 9 8))).
Defined.

(** C2 as stated fails in the freshly constructed state: the constructor
    takes the same pin twice, for either engine. *)
Lemma constructor_takes_equal_pins :
  getTrigPin (Polling.cfg (Polling.new 7 7 HCSR04_DEFAULT_TIMEOUT_US
                             HCSR04_CM_PER_US HCSR04_DEFAULT_MIN_CYCLE_US)) =
  getEchoPin (Polling.cfg (Polling.new 7 7 HCSR04_DEFAULT_TIMEOUT_US
                             HCSR04_CM_PER_US HCSR04_DEFAULT_MIN_CYCLE_US)) /\
  ~ pins_differ (Interrupt.cfg (Interrupt.new 7 7 HCSR04_DEFAULT_TIMEOUT_US
                                  HCSR04_CM_PER_US HCSR04_DEFAULT_MIN_CYCLE_US)) /\
  ~ pins_differ (Polling.cfg (snd (Polling.begin
                   (Polling.new 7 7 HCSR04_DEFAULT_TIMEOUT_US
                      HCSR04_CM_PER_US HCSR04_DEFAULT_MIN_CYCLE_US)))).
Proof.
  split; [reflexivity |].
  split; intros H; apply H; reflexivity.
Qed.

(* ================================================================== *)
(** ** The polling measurement against its design *)

Lemma is_none_seen (t_us : Z) : is_none (seen t_us) = (t_us =? 0).
Proof. unfold seen. destruct (t_us =? 0); reflexivity. Qed.

Lemma seen_nonzero (t_us : Z) : t_us <> 0 -> seen t_us = Some t_us.
Proof.
  intros H. unfold seen. destruct (Z.eqb_spec t_us 0); [contradiction | reflexivity].
Qed.

(** Away from the clock reading zero the loops of the source are the loops
    of the design. *)
Lemma rise_loop_refines (w : World) (self : IHCSR04) (t_start_us timeout_us : Z) :
  clock_never_zero w ->
  forall (fuel : nat) (now_us t_rise_us : Z) (h : Hw),
    now_us <> 0 ->
    spec_rise_loop w fuel self t_start_us timeout_us now_us (seen t_rise_us) h =
    option_map (fun p => (seen (fst p), snd p))
      (Polling.rise_loop w fuel self t_start_us timeout_us now_us t_rise_us h).
Proof.
  intros NZ.
  induction fuel as [| fuel IH]; intros now_us t_rise_us h Hnow;
    cbn [spec_rise_loop Polling.rise_loop]; rewrite is_none_seen;
    destruct ((usub now_us t_start_us <? timeout_us) && (t_rise_us =? 0));
    try reflexivity.
  unfold digitalRead. rewrite micros_eq.
  destruct (Level_eqb _ HIGH).
  - rewrite <- (seen_nonzero now_us Hnow). apply IH. apply NZ.
  - apply IH. apply NZ.
Qed.

Lemma fall_loop_refines (w : World) (self : IHCSR04) (t_start_us timeout_us : Z) :
  clock_never_zero w ->
  forall (fuel : nat) (now_us t_fall_us : Z) (h : Hw),
    now_us <> 0 ->
    spec_fall_loop w fuel self t_start_us timeout_us now_us (seen t_fall_us) h =
    option_map (fun p => (seen (fst p), snd p))
      (Polling.fall_loop w fuel self t_start_us timeout_us now_us t_fall_us h).
Proof.
  intros NZ.
  induction fuel as [| fuel IH]; intros now_us t_fall_us h Hnow;
    cbn [spec_fall_loop Polling.fall_loop]; rewrite is_none_seen;
    destruct ((usub now_us t_start_us <? timeout_us) && (t_fall_us =? 0));
    try reflexivity.
  unfold digitalRead. rewrite micros_eq.
  destruct (Level_eqb _ LOW).
  - rewrite <- (seen_nonzero now_us Hnow). apply IH. apply NZ.
  - apply IH. apply NZ.
Qed.

Lemma polling_measure_refines (w : World) (fuel : nat) (out_cm : FloatRef)
    (self : IHCSR04) (h : Hw) :
  clock_never_zero w ->
  polling_measure w fuel out_cm self h = spec_polling_measure w fuel out_cm self h.
Proof.
  intros NZ. unfold polling_measure, spec_polling_measure. cbv zeta.
  change (@None Z) with (seen 0).
  rewrite rise_loop_refines by (try assumption; apply NZ).
  destruct (Polling.rise_loop _ _ _ _ _ _ _ _) as [[t_rise_us h1] |];
    [| reflexivity].
  cbn [option_map fst snd]. unfold seen at 1.
  destruct (t_rise_us =? 0); [reflexivity |].
  rewrite fall_loop_refines by (try assumption; apply NZ).
  destruct (Polling.fall_loop _ _ _ _ _ _ _ _) as [[t_fall_us h2] |];
    [| reflexivity].
  cbn [option_map fst snd]. unfold seen at 1.
  destruct (t_fall_us =? 0); reflexivity.
Qed.

(** As long as no clock reading is zero, the polling read returns what the
    design says: Timeout-echo-start exactly when no rise was observed in the
    window, Timeout-echo-end exactly when a rise but no fall was. *)
Lemma polling_read_refines (w : World) (fuel : nat) (out_cm : FloatRef)
    (st : Polling.State) :
  clock_never_zero w ->
  Polling.read w fuel out_cm st = spec_polling_read w fuel out_cm st.
Proof.
  intros NZ. unfold spec_polling_read. cbv zeta.
  destruct (guard_denies_dec w (Polling.cfg st) (Polling.hw st)) as [D | D].
  - rewrite polling_read_denied by assumption.
    rewrite canStartShot_denied by assumption. reflexivity.
  - rewrite polling_read_allowed by assumption.
    rewrite canStartShot_allowed by assumption. cbn [is_ok].
    rewrite markShotStart_eq, advance_tick_tick. cbv zeta.
    now apply polling_measure_refines.
Qed.

(** C5.  The two waits of the polling [read] share one window anchored at
    [t_start_us], but the timeouts are not reported exactly when no edge was
    observed in it: an edge observed at the clock reading zero is recorded
    as the timestamp zero, which the source reads as "no edge yet".
    In a tight loop that samples every 8 us, with the trigger fallen 29992 us
    before the clock wraps: an echo that rises after 0.5 ms and is sampled low
    again at the reading zero, inside the window, makes [read] answer
    Timeout-echo-end where the design gives OK; an echo first sampled high at
    the reading zero makes [read] answer Timeout-echo-start where the design
    gives Timeout-echo-end.  The same happens in two worlds of a few readings
    each that can be followed by hand. *)
Theorem polling_read_loses_edge_at_clock_zero :
  (option_map status_of
     (Polling.read world_tight_fall_at_zero 4000 out0 polling_fresh) =
     Some HCSR04_ERR_TIMEOUT_ECHO_END /\
   option_map status_of
     (spec_polling_read world_tight_fall_at_zero 4000 out0 polling_fresh) =
     Some HCSR04_OK /\
   w_level world_tight_fall_at_zero 60 (getEchoPin (Polling.cfg polling_fresh)) =
     HIGH /\
   w_level world_tight_fall_at_zero 3747 (getEchoPin (Polling.cfg polling_fresh)) =
     LOW /\
   wrap (w_time world_tight_fall_at_zero 3751) = 0 /\
   usub (wrap (w_time world_tight_fall_at_zero 3751))
     (wrap (w_time world_tight_fall_at_zero 2)) = 29992 /\
   29992 < getTimeoutUs (Polling.cfg polling_fresh)) /\
  (option_map status_of
     (Polling.read world_tight_rise_at_zero 4000 out0 polling_fresh) =
     Some HCSR04_ERR_TIMEOUT_ECHO_START /\
   option_map status_of
     (spec_polling_read world_tight_rise_at_zero 4000 out0 polling_fresh) =
     Some HCSR04_ERR_TIMEOUT_ECHO_END /\
   w_level world_tight_rise_at_zero 3748 (getEchoPin (Polling.cfg polling_fresh)) =
     HIGH /\
   wrap (w_time world_tight_rise_at_zero 3751) = 0 /\
   usub (wrap (w_time world_tight_rise_at_zero 3751))
     (wrap (w_time world_tight_rise_at_zero 2)) = 29992) /\
  (option_map status_of (Polling.read world_fall_at_zero 10 out0 polling_fresh) =
     Some HCSR04_ERR_TIMEOUT_ECHO_END /\
   option_map status_of (spec_polling_read world_fall_at_zero 10 out0 polling_fresh) =
     Some HCSR04_OK /\
   w_level world_fall_at_zero 1 (getEchoPin (Polling.cfg polling_fresh)) = HIGH /\
   w_level world_fall_at_zero 4 (getEchoPin (Polling.cfg polling_fresh)) = LOW /\
   wrap (w_time world_fall_at_zero 8) = 0 /\
   usub (wrap (w_time world_fall_at_zero 8)) (wrap (w_time world_fall_at_zero 2)) =
     29996) /\
  (option_map status_of (Polling.read world_rise_at_zero 8 out0 polling_fresh) =
     Some HCSR04_ERR_TIMEOUT_ECHO_START /\
   option_map status_of (spec_polling_read world_rise_at_zero 8 out0 polling_fresh) =
     Some HCSR04_ERR_TIMEOUT_ECHO_END /\
   w_level world_rise_at_zero 2 (getEchoPin (Polling.cfg polling_fresh)) = HIGH /\
   wrap (w_time world_rise_at_zero 5) = 0 /\
   usub (wrap (w_time world_rise_at_zero 5)) (wrap (w_time world_rise_at_zero 2)) =
     29996).
Proof.
  split; [| split; [| split]].
  - repeat split; vm_compute; reflexivity.
  - repeat split; vm_compute; reflexivity.
  - repeat split; vm_compute; reflexivity.
  - repeat split; vm_compute; reflexivity.
Qed.

(** The scenario of the design: an echo of 600 us gives OK and 10.29 cm. *)
Example polling_read_600us :
  Polling.read world_polling_600us 4 out0 polling_fresh =
  Some (HCSR04_OK,
        {| deref := S754_finite false 10789847 (-20); stores := 1 |},
        {| Polling.cfg :=
             set_last_shot_us 70004 (Polling.cfg polling_fresh);
           Polling.hw :=
             {| hw_ticks := 9; hw_samples := 4;
                hw_trace := trigger_pulse 9 |} |}).
Proof. vm_compute. reflexivity. Qed.

(** The scenario of the design: an echo that never rises gives
    Timeout-echo-start, and the cell of the distance is as it was. *)
Example polling_read_no_echo :
  Polling.read world_coarse 2 out0 polling_fresh =
  Some (HCSR04_ERR_TIMEOUT_ECHO_START, out0,
        {| Polling.cfg :=
             set_last_shot_us 140000 (Polling.cfg polling_fresh);
           Polling.hw :=
             {| hw_ticks := 4; hw_samples := 0;
                hw_trace := trigger_pulse 9 |} |}).
Proof. vm_compute. reflexivity. Qed.

(** The slow sampler leaves every window of 30 ms within two readings. *)
Lemma world_coarse_leaves_window (t_start_us : Z) :
  leaves_window world_coarse t_start_us 30000 2.
Proof.
  intros i.
  assert (M : 0 < ULONG_MOD) by (rewrite ULONG_MOD_eq; lia).
  assert (E : forall k : nat,
             usub (wrap (w_time world_coarse k)) t_start_us =
             (w_time world_coarse k - t_start_us) mod ULONG_MOD).
  { intros k. unfold usub, wrap. now rewrite Zminus_mod_idemp_l. }
  destruct (Z_lt_le_dec (usub (wrap (w_time world_coarse i)) t_start_us) 30000)
    as [Hlt | Hge].
  - exists 1%nat. split; [lia |].
    rewrite E in *. cbn [w_time world_coarse] in *.
    replace (100000 + 40000 * Z.of_nat (i + 1) - t_start_us)
      with ((100000 + 40000 * Z.of_nat i - t_start_us) + 40000) by lia.
    rewrite <- Zplus_mod_idemp_l.
    pose proof (Z.mod_pos_bound (100000 + 40000 * Z.of_nat i - t_start_us)
                  ULONG_MOD M) as B.
    rewrite Z.mod_small; [lia |]. rewrite ULONG_MOD_eq in *. lia.
  - exists 0%nat. split; [lia |]. rewrite Nat.add_0_r. exact Hge.
Qed.

Example polling_read_returns_coarse (out_cm : FloatRef) :
  exists r, Polling.read world_coarse 2 out_cm polling_fresh = Some r.
Proof.
  apply polling_read_returns with (bound := 2%nat); [| lia].
  apply world_coarse_leaves_window.
Qed.

(* ================================================================== *)
(** ** Further properties: the configuration *)

Lemma call_setter_config_valid (c : Setter) (self : IHCSR04) :
  config_valid self -> config_valid (snd (call_setter c self)).
Proof.
  unfold config_valid. intros (T & M & S1 & S2).
  destruct c as [p | p | v | v | v]; cbn [call_setter].
  - unfold setTrigPin. destruct (negb _); cbn; auto.
  - unfold setEchoPin. destruct (negb _); cbn; auto.
  - unfold setTimeoutUs.
    destruct (Z.geb_spec v (HCSR04_TRIG_PULSE_US + 100)); cbn; auto.
  - unfold setMinCycleUs. destruct (Z.eqb_spec v 0); cbn; auto.
  - unfold setSoundSpeed.
    destruct (f32_ltb F_0_02 v) eqn:E1; destruct (f32_ltb v F_0_06) eqn:E2;
      cbn; auto.
Qed.

(** A property of the object that the setters and a new last-shot timestamp
    keep is kept by every run of either engine. *)
Lemma polling_run_keeps (P : IHCSR04 -> Prop) :
  (forall c self, P self -> P (snd (call_setter c self))) ->
  (forall t self, P self -> P (set_last_shot_us t self)) ->
  forall (w : World) (l : list Polling.Step) (out_cm : FloatRef)
         (st : Polling.State)
         (r : list HCSR04_Status * FloatRef * Polling.State),
    Polling.run w l out_cm st = Some r ->
    P (Polling.cfg st) -> P (Polling.cfg (snd r)).
Proof.
  intros HC HL w.
  induction l as [| s l IH]; intros out_cm st r; cbn [Polling.run].
  - intros E. injection E as <-. tauto.
  - destruct (Polling.step w s out_cm st) as [[[x o] st1] |] eqn:E1;
      [| discriminate].
    destruct (Polling.run w l o st1) as [[[xs o2] st2] |] eqn:E2;
      [| discriminate].
    intros E H. injection E as <-. cbn [snd].
    apply (IH o st1 _ E2).
    destruct s as [c | | fuel]; cbn [Polling.step] in E1.
    + specialize (HC c (Polling.cfg st) H).
      destruct (call_setter c (Polling.cfg st)) as [x' self].
      injection E1 as _ _ <-. exact HC.
    + injection E1 as _ _ <-. exact H.
    + apply polling_read_cfg in E1. destruct E1 as (t & E1).
      cbn [state_of snd] in E1. rewrite E1. now apply HL.
Qed.

Lemma interrupt_run_keeps (P : IHCSR04 -> Prop) :
  (forall c self, P self -> P (snd (call_setter c self))) ->
  (forall t self, P self -> P (set_last_shot_us t self)) ->
  forall (w : World) (l : list Interrupt.Step) (out_cm : FloatRef)
         (st : Interrupt.State),
    P (Interrupt.cfg st) ->
    P (Interrupt.cfg (snd (Interrupt.run w l out_cm st))).
Proof.
  intros HC HL w.
  induction l as [| s l IH]; intros out_cm st H; [exact H |].
  cbn [Interrupt.run].
  assert (H1 : P (Interrupt.cfg (snd (Interrupt.step w s out_cm st)))).
  { destruct s as [c | | | | p].
    - cbn [Interrupt.step]. specialize (HC c (Interrupt.cfg st) H).
      destruct (call_setter c (Interrupt.cfg st)) as [x self]. exact HC.
    - exact H.
    - rewrite interrupt_step_read. cbn [snd].
      destruct (interrupt_read_cfg w out_cm st) as (t & ->). now apply HL.
    - cbn [Interrupt.step snd].
      destruct (Interrupt.s_instance st); [rewrite isr_cfg |]; exact H.
    - rewrite interrupt_step_read_preempted. cbn [snd].
      destruct (read_preempted_cfg w p out_cm st) as (t & ->). now apply HL. }
  destruct (Interrupt.step w s out_cm st) as [[x o] st1]. cbn [snd] in H1.
  specialize (IH o st1 H1).
  destruct (Interrupt.run w l o st1) as [[xs o2] st2]. exact IH.
Qed.

(** X1.  An object whose timeout, minimum cycle and speed of sound are
    values the setters accept keeps such values for good: in every state that
    a run of calls of either engine (setters with any arguments, [begin],
    [read], the echo callback) reaches, the timeout is at least the trigger
    pulse plus 100 us, the minimum cycle is not zero and the speed lies
    strictly between [0.02F] and [0.06F]. *)
Theorem config_valid_invariant (self : IHCSR04) :
  config_valid self ->
  (forall w steps out_cm h r,
      Polling.run w steps out_cm {| Polling.cfg := self; Polling.hw := h |} =
        Some r ->
      config_valid (Polling.cfg (snd r))) /\
  (forall w steps out_cm st,
      Interrupt.cfg st = self ->
      config_valid (Interrupt.cfg (snd (Interrupt.run w steps out_cm st)))).
Proof.
  intros V.
  assert (L : forall t s, config_valid s -> config_valid (set_last_shot_us t s))
    by (intros t s H; exact H).
  split.
  - intros w steps out_cm h r E.
    apply (polling_run_keeps config_valid call_setter_config_valid L
             w steps out_cm _ r E).
    exact V.
  - intros w steps out_cm st E.
    apply (interrupt_run_keeps config_valid call_setter_config_valid L).
    rewrite E. exact V.
Qed.

Lemma config_valid_invariant_witness :
  config_valid (IHCSR04_new_default 9 8) /\
  config_valid
    (Interrupt.cfg
       (snd (Interrupt.run world_echo_600us
               [Interrupt.Configure (SetTimeoutUs 5);
                Interrupt.Configure (SetMinCycleUs 0);
                Interrupt.Configure (SetSoundSpeed F_0_06);
                Interrupt.Begin; Interrupt.Read] out0 interrupt_fresh))).
Proof.
  assert (V : config_valid (IHCSR04_new_default 9 2))
    by (unfold config_valid; repeat split; vm_compute; congruence).
  split.
  - unfold config_valid; repeat split; vm_compute; congruence.
  - apply (proj2 (config_valid_invariant (IHCSR04_new_default 9 2) V)).
    reflexivity.
Defined.

(** X2.  A pin setter that answers OK leaves the two pins different, whatever
    they were before (also when the constructor was given the same pin
    twice).  On an object with different pins the pins cannot be swapped by
    two calls, since either setter refuses the other pin's value; with a
    spare pin [s] the three calls [setTrigPin s], [setEchoPin] of the old
    trigger pin, [setTrigPin] of the old echo pin are all accepted and leave
    the pins swapped and every other field as it was. *)
Theorem pin_setters_swap (self : IHCSR04) (s : Z) :
  pins_differ self ->
  s <> m_trig_pin self -> s <> m_echo_pin self ->
  (forall (o : IHCSR04) (p : Z),
      (fst (setTrigPin p o) = HCSR04_OK -> pins_differ (snd (setTrigPin p o))) /\
      (fst (setEchoPin p o) = HCSR04_OK -> pins_differ (snd (setEchoPin p o)))) /\
  setTrigPin (m_echo_pin self) self = (HCSR04_ERR_BAD_PARAM, self) /\
  setEchoPin (m_trig_pin self) self = (HCSR04_ERR_BAD_PARAM, self) /\
  let s1 := setTrigPin s self in
  let s2 := setEchoPin (m_trig_pin self) (snd s1) in
  let s3 := setTrigPin (m_echo_pin self) (snd s2) in
  fst s1 = HCSR04_OK /\ fst s2 = HCSR04_OK /\ fst s3 = HCSR04_OK /\
  m_trig_pin (snd s3) = m_echo_pin self /\
  m_echo_pin (snd s3) = m_trig_pin self /\
  same_but_pins (snd s3) self.
Proof.
  intros D H1 H2.
  split; [| split; [| split]].
  - intros o p. split.
    + unfold setTrigPin, pins_differ.
      destruct (Z.eqb_spec p (m_echo_pin o)); cbn; [discriminate | auto].
    + unfold setEchoPin, pins_differ.
      destruct (Z.eqb_spec p (m_trig_pin o)); cbn; [discriminate | auto].
  - unfold setTrigPin. now rewrite Z.eqb_refl.
  - unfold setEchoPin. now rewrite Z.eqb_refl.
  - cbv zeta. unfold pins_differ in D.
    assert (E1 : setTrigPin s self = (HCSR04_OK, set_trig_pin s self)).
    { unfold setTrigPin.
      destruct (Z.eqb_spec s (m_echo_pin self)); [contradiction | reflexivity]. }
    rewrite E1. cbn [fst snd].
    assert (E2 : setEchoPin (m_trig_pin self) (set_trig_pin s self) =
                 (HCSR04_OK, set_echo_pin (m_trig_pin self) (set_trig_pin s self))).
    { unfold setEchoPin. cbn [m_trig_pin set_trig_pin].
      destruct (Z.eqb_spec (m_trig_pin self) s) as [E | _];
        [symmetry in E; contradiction | reflexivity]. }
    rewrite E2. cbn [fst snd].
    assert (E3 : setTrigPin (m_echo_pin self)
                   (set_echo_pin (m_trig_pin self) (set_trig_pin s self)) =
                 (HCSR04_OK,
                  set_trig_pin (m_echo_pin self)
                    (set_echo_pin (m_trig_pin self) (set_trig_pin s self)))).
    { unfold setTrigPin. cbn [m_echo_pin set_echo_pin].
      destruct (Z.eqb_spec (m_echo_pin self) (m_trig_pin self)) as [E | _];
        [symmetry in E; contradiction | reflexivity]. }
    rewrite E3. cbn. unfold same_but_pins. cbn. repeat split; reflexivity.
Qed.

Lemma pin_setters_swap_witness :
  m_trig_pin (snd (setTrigPin 8 (snd (setEchoPin 9 (snd (setTrigPin 7
     (IHCSR04_new_default 9 8))))))) = 8 /\
  m_echo_pin (snd (setTrigPin 8 (snd (setEchoPin 9 (snd (setTrigPin 7
     (IHCSR04_new_default 9 8))))))) = 9.
Proof.
  destruct (pin_setters_swap (IHCSR04_new_default 9 8) 7
              ltac:(unfold pins_differ; cbn; discriminate)
              ltac:(cbn; discriminate) ltac:(cbn; discriminate))
    as (_ & _ & _ & _ & _ & _ & A & B & _).
  split; [exact A | exact B].
Defined.

(* ================================================================== *)
(** ** Further properties: the cycle guard *)

Lemma usub_wrap_wrap (a b : Z) : usub (wrap a) (wrap b) = (a - b) mod ULONG_MOD.
Proof. unfold usub, wrap. now rewrite <- Zminus_mod. Qed.

(** X3.  The cycle guard measures the time since the mark modulo the clock
    period: a guard at true time [t1] after a mark at true time [t0] answers
    OK exactly when [(t1 - t0) mod 2^32] reaches the minimum cycle.  So it
    answers Busy again during the first minimum cycle after every whole
    number of clock periods since the mark, however long ago the last shot
    was; and with a minimum cycle of zero (which the constructor takes) it
    never answers Busy. *)
Theorem cycle_guard_periodic (w : World) (self : IHCSR04) (h0 h : Hw) :
  let t0 := w_time w (hw_ticks h0) in
  let t1 := w_time w (hw_ticks h) in
  let armed_self := fst (markShotStart_ w self h0) in
  (fst (canStartShot_ w armed_self h) = HCSR04_OK <->
   m_min_cycle_us self <= (t1 - t0) mod 2 ^ 32) /\
  (forall k d,
      t1 = t0 + k * 2 ^ 32 + d -> 0 <= d < 2 ^ 32 ->
      (fst (canStartShot_ w armed_self h) = HCSR04_ERR_BUSY <->
       d < m_min_cycle_us self)) /\
  (m_min_cycle_us self <= 0 -> fst (canStartShot_ w self h) = HCSR04_OK).
Proof.
  intros t0 t1 armed_self.
  assert (E : usub (next_micros w h) (m_last_shot_us armed_self) =
              (t1 - t0) mod ULONG_MOD).
  { unfold armed_self. rewrite markShotStart_eq. cbn [fst m_last_shot_us
      set_last_shot_us]. apply usub_wrap_wrap. }
  split; [| split].
  - rewrite canStartShot_ok_iff, E. unfold armed_self.
    rewrite markShotStart_eq. cbn. tauto.
  - intros k d Ht Hd. rewrite canStartShot_busy_iff. unfold guard_denies.
    rewrite E, Ht.
    replace (t0 + k * 2 ^ 32 + d - t0) with (d + k * ULONG_MOD)
      by (rewrite ULONG_MOD_eq; lia).
    rewrite Z.mod_add by (rewrite ULONG_MOD_eq; lia).
    rewrite Z.mod_small by (rewrite ULONG_MOD_eq; lia).
    unfold armed_self. rewrite markShotStart_eq. cbn. tauto.
  - intros Hz. apply canStartShot_ok_iff.
    pose proof (usub_range (next_micros w h) (m_last_shot_us self)). lia.
Qed.

(** X4.  No setter touches the last-shot timestamp, accepted or refused, and
    the setters of the pins, the timeout and the speed leave the answer of
    the cycle guard as it was: only [setMinCycleUs] changes when the next
    shot may start. *)
Theorem setters_leave_guard (c : Setter) (self : IHCSR04) :
  getLastShotTimestampUs (snd (call_setter c self)) =
    getLastShotTimestampUs self /\
  ((forall v, c <> SetMinCycleUs v) ->
   forall w h,
     canStartShot_ w (snd (call_setter c self)) h = canStartShot_ w self h).
Proof.
  split; [apply call_setter_last_shot |].
  intros N w h. rewrite !canStartShot_eq.
  assert (M : m_min_cycle_us (snd (call_setter c self)) = m_min_cycle_us self).
  { destruct c as [p | p | v | v | v]; cbn [call_setter].
    - unfold setTrigPin. destruct (negb _); reflexivity.
    - unfold setEchoPin. destruct (negb _); reflexivity.
    - unfold setTimeoutUs. destruct (_ >=? _); reflexivity.
    - exfalso. now apply (N v).
    - unfold setSoundSpeed. destruct (_ && _); reflexivity. }
  now rewrite M, call_setter_last_shot.
Qed.

(* ================================================================== *)
(** ** Further properties: the polling engine *)

(** What a read that the guard allowed leaves behind, whatever it measured. *)
Lemma polling_read_armed (w : World) (fuel : nat) (out_cm : FloatRef)
    (st : Polling.State) (r : HCSR04_Status * FloatRef * Polling.State) :
  ~ guard_denies w (Polling.cfg st) (Polling.hw st) ->
  Polling.read w fuel out_cm st = Some r ->
  status_of r <> HCSR04_ERR_BAD_STATE /\
  Polling.cfg (state_of r) =
    set_last_shot_us (wrap (w_time w (S (hw_ticks (Polling.hw st)))))
      (Polling.cfg st) /\
  hw_trace (Polling.hw (state_of r)) =
    hw_trace (Polling.hw st) ++ trigger_pulse (getTrigPin (Polling.cfg st)).
Proof.
  intros D E. rewrite polling_read_allowed in E by assumption. cbv zeta in E.
  apply polling_measure_shape in E. destruct E as (C & T & S).
  split; [| split].
  - destruct S as [[S _] | [[S | [S | S]] _]]; rewrite S; discriminate.
  - exact C.
  - exact T.
Qed.

(** X5.  A polling [read] that returns has driven the trigger line exactly
    when its status is not Bad-state.  Bad-state is the answer to a read the
    cycle guard refused, and then nothing was written to the board and the
    object is as it was.  On every other status, timeouts included, exactly
    one trigger sequence (low, 2 us, high, 10 us, low) on the trigger pin was
    appended to the outputs, and the last-shot timestamp is the clock
    reading taken just before the pulse. *)
Theorem polling_read_trigger_iff_armed (w : World) (fuel : nat)
    (out_cm : FloatRef) (st : Polling.State)
    (r : HCSR04_Status * FloatRef * Polling.State) :
  Polling.read w fuel out_cm st = Some r ->
  (status_of r = HCSR04_ERR_BAD_STATE <->
   guard_denies w (Polling.cfg st) (Polling.hw st)) /\
  (status_of r = HCSR04_ERR_BAD_STATE ->
   hw_trace (Polling.hw (state_of r)) = hw_trace (Polling.hw st) /\
   Polling.cfg (state_of r) = Polling.cfg st) /\
  (status_of r <> HCSR04_ERR_BAD_STATE ->
   hw_trace (Polling.hw (state_of r)) =
     hw_trace (Polling.hw st) ++
     [EDigitalWrite (getTrigPin (Polling.cfg st)) LOW; EDelayMicroseconds 2;
      EDigitalWrite (getTrigPin (Polling.cfg st)) HIGH; EDelayMicroseconds 10;
      EDigitalWrite (getTrigPin (Polling.cfg st)) LOW] /\
   getLastShotTimestampUs (Polling.cfg (state_of r)) =
     wrap (w_time w (S (hw_ticks (Polling.hw st))))).
Proof.
  intros E.
  destruct (guard_denies_dec w (Polling.cfg st) (Polling.hw st)) as [D | D].
  - pose proof (polling_read_denied w fuel out_cm st D) as E'.
    rewrite E in E'. injection E' as ->. cbn [status_of state_of fst snd].
    split; [tauto |]. split; [intros _; split; reflexivity |].
    intros N. now contradiction N.
  - destruct (polling_read_armed w fuel out_cm st r D E) as (S & C & T).
    split; [tauto |]. split; [intros B; contradiction |].
    intros _. split; [exact T |]. rewrite C. reflexivity.
Qed.

Lemma polling_read_trigger_iff_armed_witness :
  exists r,
    Polling.read world_polling_600us 4 out0 polling_fresh = Some r /\
    hw_trace (Polling.hw (state_of r)) = trigger_pulse 9 /\
    getLastShotTimestampUs (Polling.cfg (state_of r)) = 70004.
Proof.
  destruct (Polling.read world_polling_600us 4 out0 polling_fresh)
    as [r |] eqn:E; [| vm_compute in E; discriminate].
  exists r. split; [reflexivity |].
  destruct (polling_read_trigger_iff_armed world_polling_600us 4 out0
              polling_fresh r E) as (_ & _ & A).
  assert (N : status_of r <> HCSR04_ERR_BAD_STATE).
  { vm_compute in E. injection E as <-. discriminate. }
  destruct (A N) as (A1 & A2). split; [exact A1 | exact A2].
Defined.

(** X6.  Shots are at least one minimum cycle apart, whatever became of the
    first: after a read that armed a shot (any status but Bad-state, the two
    timeouts included), a read entered less than the minimum cycle of true
    time after the first one's mark is refused with Bad-state, at any fuel,
    and drives no second pulse. *)
Theorem polling_reads_rate_limited (w : World) (fuel fuel2 : nat)
    (out_cm out2 : FloatRef) (st : Polling.State)
    (r : HCSR04_Status * FloatRef * Polling.State) :
  Polling.read w fuel out_cm st = Some r ->
  status_of r <> HCSR04_ERR_BAD_STATE ->
  0 <= w_time w (hw_ticks (Polling.hw (state_of r))) -
       w_time w (S (hw_ticks (Polling.hw st))) <
       getMinCycleUs (Polling.cfg st) ->
  w_time w (hw_ticks (Polling.hw (state_of r))) -
    w_time w (S (hw_ticks (Polling.hw st))) < 2 ^ 32 ->
  Polling.read w fuel2 out2 (state_of r) =
  Some (HCSR04_ERR_BAD_STATE, out2,
        {| Polling.cfg := Polling.cfg (state_of r);
           Polling.hw := tick (Polling.hw (state_of r)) |}).
Proof.
  intros E N Hd Hp.
  destruct (guard_denies_dec w (Polling.cfg st) (Polling.hw st)) as [D | D].
  { pose proof (polling_read_denied w fuel out_cm st D) as E'.
    rewrite E in E'. injection E' as ->. now contradiction N. }
  destruct (polling_read_armed w fuel out_cm st r D E) as (_ & C & _).
  apply polling_read_denied. unfold guard_denies, next_micros.
  rewrite C. cbn [m_last_shot_us set_last_shot_us m_min_cycle_us].
  rewrite usub_true_elapsed by (rewrite ULONG_MOD_eq; lia).
  unfold getMinCycleUs in Hd. lia.
Qed.

Lemma polling_reads_rate_limited_witness :
  exists r,
    Polling.read world_polling_600us 4 out0 polling_fresh = Some r /\
    option_map status_of (Polling.read world_polling_600us 0 out0 (state_of r)) =
      Some HCSR04_ERR_BAD_STATE.
Proof.
  destruct (Polling.read world_polling_600us 4 out0 polling_fresh)
    as [r |] eqn:E; [| vm_compute in E; discriminate].
  exists r. split; [reflexivity |].
  assert (R : r = (HCSR04_OK,
                   {| deref := S754_finite false 10789847 (-20); stores := 1 |},
                   {| Polling.cfg :=
                        set_last_shot_us 70004 (Polling.cfg polling_fresh);
                      Polling.hw :=
                        {| hw_ticks := 9; hw_samples := 4;
                           hw_trace := trigger_pulse 9 |} |})).
  { rewrite polling_read_600us in E. now injection E. }
  rewrite (polling_reads_rate_limited world_polling_600us 4 0 out0 out0
             polling_fresh r E).
  - reflexivity.
  - rewrite R. discriminate.
  - rewrite R. vm_compute. split; [discriminate | reflexivity].
  - rewrite R. vm_compute. reflexivity.
Defined.

(** A timestamp that a loop returns is the one it was given or a clock
    reading it took inside the window. *)
Lemma rise_loop_reading (w : World) (self : IHCSR04) (t_start_us timeout_us : Z) :
  forall (fuel k : nat) (now_us t_rise_us : Z) (h : Hw) (t : Z) (h' : Hw),
    hw_ticks h = S k ->
    now_us = wrap (w_time w k) ->
    Polling.rise_loop w fuel self t_start_us timeout_us now_us t_rise_us h =
      Some (t, h') ->
    (hw_ticks h <= hw_ticks h')%nat /\
    (t = t_rise_us \/
     exists j, (k <= j < hw_ticks h')%nat /\ t = wrap (w_time w j) /\
               usub t t_start_us < timeout_us).
Proof.
  induction fuel as [| fuel IH]; intros k now_us t_rise_us h t h' Hk Hn;
    cbn [Polling.rise_loop];
    destruct (Z.ltb_spec (usub now_us t_start_us) timeout_us) as [W | W];
    destruct (t_rise_us =? 0); cbn [andb];
    try discriminate;
    try (intros E; injection E as <- <-; split; [lia | now left]).
  unfold digitalRead. rewrite micros_eq. intros E.
  apply (IH (S k)) in E; [| cbn; lia | unfold next_micros; cbn; now rewrite Hk].
  cbn [tick hw_ticks] in E. destruct E as (L & [E | (j & Hj & E & B)]).
  - split; [lia |]. destruct (Level_eqb _ HIGH).
    + right. exists k. subst t now_us.
      split; [lia | split; [reflexivity | exact W]].
    + now left.
  - split; [lia |]. right. exists j. repeat split; try lia; assumption.
Qed.

Lemma fall_loop_reading (w : World) (self : IHCSR04) (t_start_us timeout_us : Z) :
  forall (fuel k : nat) (now_us t_fall_us : Z) (h : Hw) (t : Z) (h' : Hw),
    hw_ticks h = S k ->
    now_us = wrap (w_time w k) ->
    Polling.fall_loop w fuel self t_start_us timeout_us now_us t_fall_us h =
      Some (t, h') ->
    (hw_ticks h <= hw_ticks h')%nat /\
    (t = t_fall_us \/
     exists j, (k <= j < hw_ticks h')%nat /\ t = wrap (w_time w j) /\
               usub t t_start_us < timeout_us).
Proof.
  induction fuel as [| fuel IH]; intros k now_us t_fall_us h t h' Hk Hn;
    cbn [Polling.fall_loop];
    destruct (Z.ltb_spec (usub now_us t_start_us) timeout_us) as [W | W];
    destruct (t_fall_us =? 0); cbn [andb];
    try discriminate;
    try (intros E; injection E as <- <-; split; [lia | now left]).
  unfold digitalRead. rewrite micros_eq. intros E.
  apply (IH (S k)) in E; [| cbn; lia | unfold next_micros; cbn; now rewrite Hk].
  cbn [tick hw_ticks] in E. destruct E as (L & [E | (j & Hj & E & B)]).
  - split; [lia |]. destruct (Level_eqb _ LOW).
    + right. exists k. subst t now_us.
      split; [lia | split; [reflexivity | exact W]].
    + now left.
  - split; [lia |]. right. exists j. repeat split; try lia; assumption.
Qed.

(** On OK the two timestamps are clock readings taken in this order after
    the reading of [t_start_us], the later one inside the window. *)
Lemma polling_measure_ok (w : World) (fuel : nat) (out_cm : FloatRef)
    (self : IHCSR04) (h : Hw) (r : HCSR04_Status * FloatRef * Polling.State) :
  polling_measure w fuel out_cm self h = Some r ->
  status_of r = HCSR04_OK ->
  exists j1 j2,
    (hw_ticks h < j1 < j2)%nat /\
    usub (wrap (w_time w j2)) (wrap (w_time w (hw_ticks h))) < m_timeout_us self /\
    usub (wrap (w_time w j2)) (wrap (w_time w j1)) <> 0 /\
    out_of r =
    store (distance_cm (m_cm_per_us self)
             (usub (wrap (w_time w j2)) (wrap (w_time w j1)))) out_cm.
Proof.
  unfold polling_measure. cbv zeta.
  destruct (Polling.rise_loop _ _ _ _ _ _ _ _) as [[t_rise_us h1] |] eqn:E1;
    [| discriminate].
  apply (rise_loop_reading w self _ _ fuel (S (hw_ticks h))) in E1;
    [| reflexivity | reflexivity].
  destruct E1 as (L1 & R1). cbn [tick hw_ticks] in L1.
  destruct (Z.eqb_spec t_rise_us 0) as [Z1 | Z1].
  { intros E. injection E as <-. discriminate. }
  destruct R1 as [R1 | (j1 & Hj1 & R1 & _)]; [contradiction |].
  destruct (Polling.fall_loop _ _ _ _ _ _ _ _) as [[t_fall_us h2] |] eqn:E2;
    [| discriminate].
  apply (fall_loop_reading w self _ _ fuel (hw_ticks h1)) in E2;
    [| reflexivity | reflexivity].
  destruct E2 as (L2 & R2). cbn [tick hw_ticks] in L2.
  destruct (Z.eqb_spec t_fall_us 0) as [Z2 | Z2].
  { intros E. injection E as <-. discriminate. }
  destruct R2 as [R2 | (j2 & Hj2 & R2 & B2)]; [contradiction |].
  destruct (Z.eqb_spec (usub t_fall_us t_rise_us) 0) as [Z3 | Z3].
  { intros E. injection E as <-. discriminate. }
  intros E _. injection E as <-. subst t_rise_us t_fall_us.
  exists j1, j2. cbn [out_of fst snd]. repeat split; try lia; assumption.
Qed.

(** X7.  With a clock that does not run backwards and stays within one
    period, a polling [read] that answers OK reports a high time that is
    positive and less than the configured timeout: the distance it stores is
    the distance of some high time strictly between zero and the timeout.
    The one window that both waits share bounds the result. *)
Theorem polling_ok_high_time_below_timeout (w : World) (fuel : nat)
    (out_cm : FloatRef) (st : Polling.State)
    (r : HCSR04_Status * FloatRef * Polling.State) :
  clock_steady w ->
  Polling.read w fuel out_cm st = Some r ->
  status_of r = HCSR04_OK ->
  exists high_us,
    0 < high_us < getTimeoutUs (Polling.cfg st) /\
    out_of r =
    store (distance_cm (getSoundSpeed (Polling.cfg st)) high_us) out_cm.
Proof.
  intros S E O.
  destruct (polling_read_cases w fuel out_cm st) as [[_ E'] | [_ E']];
    rewrite E' in E.
  { injection E as <-. discriminate. }
  apply polling_measure_ok in E; [| assumption].
  destruct E as (j1 & j2 & Hj & B & N & R).
  cbn [hw_ticks advance m_timeout_us m_cm_per_us set_last_shot_us] in *.
  set (k := (2 + hw_ticks (Polling.hw st))%nat) in *.
  pose proof (S k j1 ltac:(lia)) as S1.
  pose proof (S j1 j2 ltac:(lia)) as S2.
  pose proof (S k j2 ltac:(lia)) as S3.
  rewrite usub_true_elapsed in B by assumption.
  rewrite usub_true_elapsed in N, R by assumption.
  exists (w_time w j2 - w_time w j1).
  unfold getTimeoutUs, getSoundSpeed. split; [lia | exact R].
Qed.

Lemma world_ramp_echo_steady : clock_steady world_ramp_echo.
Proof.
  intros i j L. cbn [w_time world_ramp_echo ramp]. rewrite ULONG_MOD_eq. lia.
Qed.

Lemma polling_ok_high_time_below_timeout_witness :
  exists r high_us,
    Polling.read world_ramp_echo 4 out0 polling_fresh = Some r /\
    0 < high_us < 30000 /\
    out_of r = store (distance_cm HCSR04_CM_PER_US high_us) out0.
Proof.
  destruct (Polling.read world_ramp_echo 4 out0 polling_fresh)
    as [r |] eqn:E; [| vm_compute in E; discriminate].
  assert (O : status_of r = HCSR04_OK).
  { vm_compute in E. injection E as <-. reflexivity. }
  destruct (polling_ok_high_time_below_timeout world_ramp_echo 4 out0
              polling_fresh r world_ramp_echo_steady E O) as (high_us & B & R).
  exists r, high_us. split; [reflexivity |]. split; [exact B | exact R].
Defined.

(** With the line low the first wait records nothing; with the line high the
    second wait records nothing. *)
Lemma rise_loop_stuck_low (w : World) (self : IHCSR04) (t_start_us timeout_us : Z) :
  echo_stuck w LOW ->
  forall (fuel : nat) (now_us t_rise_us : Z) (h : Hw) (t : Z) (h' : Hw),
    Polling.rise_loop w fuel self t_start_us timeout_us now_us t_rise_us h =
      Some (t, h') ->
    t = t_rise_us.
Proof.
  intros L.
  induction fuel as [| fuel IH]; intros now_us t_rise_us h t h';
    cbn [Polling.rise_loop];
    destruct ((usub now_us t_start_us <? timeout_us) && (t_rise_us =? 0));
    try discriminate; try (intros E; now injection E as <- <-).
  unfold digitalRead. rewrite micros_eq, L. cbn [Level_eqb]. apply IH.
Qed.

Lemma fall_loop_stuck_high (w : World) (self : IHCSR04) (t_start_us timeout_us : Z) :
  echo_stuck w HIGH ->
  forall (fuel : nat) (now_us t_fall_us : Z) (h : Hw) (t : Z) (h' : Hw),
    Polling.fall_loop w fuel self t_start_us timeout_us now_us t_fall_us h =
      Some (t, h') ->
    t = t_fall_us.
Proof.
  intros L.
  induction fuel as [| fuel IH]; intros now_us t_fall_us h t h';
    cbn [Polling.fall_loop];
    destruct ((usub now_us t_start_us <? timeout_us) && (t_fall_us =? 0));
    try discriminate; try (intros E; now injection E as <- <-).
  unfold digitalRead. rewrite micros_eq, L. cbn [Level_eqb]. apply IH.
Qed.

(** With the line high, a first sample inside the window at a reading that
    is not zero is recorded as the rise. *)
Lemma rise_loop_stuck_high (w : World) (self : IHCSR04) (t_start_us timeout_us : Z) :
  echo_stuck w HIGH ->
  forall (fuel : nat) (now_us : Z) (h : Hw) (t : Z) (h' : Hw),
    now_us <> 0 ->
    usub now_us t_start_us < timeout_us ->
    Polling.rise_loop w fuel self t_start_us timeout_us now_us 0 h = Some (t, h') ->
    t = now_us.
Proof.
  intros L fuel now_us h t h' N W.
  destruct fuel as [| fuel]; cbn [Polling.rise_loop];
    destruct (Z.ltb_spec (usub now_us t_start_us) timeout_us); try lia;
    cbn [Z.eqb andb]; [discriminate |].
  unfold digitalRead. rewrite micros_eq, L. cbn [Level_eqb].
  destruct fuel as [| fuel]; cbn [Polling.rise_loop];
    destruct (Z.eqb_spec now_us 0); try contradiction;
    rewrite andb_false_r; intros E; now injection E as <- <-.
Qed.

(** What a read the guard allows returns when the line never reads high. *)
Lemma polling_no_echo_status (w : World) (fuel : nat) (out_cm : FloatRef)
    (st : Polling.State) (r : HCSR04_Status * FloatRef * Polling.State) :
  echo_stuck w LOW ->
  ~ guard_denies w (Polling.cfg st) (Polling.hw st) ->
  Polling.read w fuel out_cm st = Some r ->
  status_of r = HCSR04_ERR_TIMEOUT_ECHO_START /\
  out_of r = out_cm /\
  hw_trace (Polling.hw (state_of r)) =
    hw_trace (Polling.hw st) ++ trigger_pulse (getTrigPin (Polling.cfg st)).
Proof.
  intros L D E.
  destruct (polling_read_armed w fuel out_cm st r D E) as (_ & _ & T).
  rewrite polling_read_allowed in E by assumption.
  unfold polling_measure in E. cbv zeta in E.
  destruct (Polling.rise_loop _ _ _ _ _ _ _ _) as [[t_rise_us h1] |] eqn:E1;
    [| discriminate].
  apply (rise_loop_stuck_low w _ _ _ L) in E1. subst t_rise_us.
  cbn [Z.eqb] in E. injection E as <-.
  split; [reflexivity |]. split; [reflexivity | exact T].
Qed.

(** X8.  An echo line that never reads high: every polling [read] that the
    guard allows returns, once the clock has left the window of the shot, and
    answers Timeout-echo-start, after having driven the trigger pulse; the
    cell of the distance is as it was. *)
Theorem polling_no_echo_times_out (w : World) (bound fuel : nat)
    (out_cm : FloatRef) (st : Polling.State) :
  echo_stuck w LOW ->
  ~ guard_denies w (Polling.cfg st) (Polling.hw st) ->
  leaves_window w (wrap (w_time w (2 + hw_ticks (Polling.hw st))))
    (getTimeoutUs (Polling.cfg st)) bound ->
  (bound <= fuel)%nat ->
  exists r,
    Polling.read w fuel out_cm st = Some r /\
    status_of r = HCSR04_ERR_TIMEOUT_ECHO_START /\
    out_of r = out_cm /\
    hw_trace (Polling.hw (state_of r)) =
      hw_trace (Polling.hw st) ++ trigger_pulse (getTrigPin (Polling.cfg st)).
Proof.
  intros L D W B.
  destruct (polling_read_returns w bound fuel out_cm st W B) as (r & E).
  exists r. split; [exact E |].
  exact (polling_no_echo_status w fuel out_cm st r L D E).
Qed.

Lemma polling_no_echo_times_out_witness :
  exists r,
    Polling.read world_coarse 2 out0 polling_fresh = Some r /\
    status_of r = HCSR04_ERR_TIMEOUT_ECHO_START /\ out_of r = out0.
Proof.
  assert (L : echo_stuck world_coarse LOW) by (intros k pin; reflexivity).
  assert (D : ~ guard_denies world_coarse (Polling.cfg polling_fresh)
                (Polling.hw polling_fresh))
    by (vm_compute; discriminate).
  destruct (polling_no_echo_times_out world_coarse 2 2 out0 polling_fresh L D
              (world_coarse_leaves_window _) (le_n 2))
    as (r & E & A & B & _).
  exists r. split; [exact E |]. split; [exact A | exact B].
Defined.

(** What a read the guard allows returns when the line never reads low. *)
Lemma polling_stuck_high_status (w : World) (fuel : nat)
    (out_cm : FloatRef) (st : Polling.State)
    (r : HCSR04_Status * FloatRef * Polling.State) :
  echo_stuck w HIGH ->
  clock_never_zero w ->
  ~ guard_denies w (Polling.cfg st) (Polling.hw st) ->
  usub (wrap (w_time w (3 + hw_ticks (Polling.hw st))))
       (wrap (w_time w (2 + hw_ticks (Polling.hw st)))) <
    getTimeoutUs (Polling.cfg st) ->
  Polling.read w fuel out_cm st = Some r ->
  status_of r = HCSR04_ERR_TIMEOUT_ECHO_END /\ out_of r = out_cm.
Proof.
  intros L NZ D W E.
  rewrite polling_read_allowed in E by assumption.
  unfold polling_measure in E. cbv zeta in E.
  destruct (Polling.rise_loop _ _ _ _ _ _ _ _) as [[t_rise_us h1] |] eqn:E1;
    [| discriminate].
  apply (rise_loop_stuck_high w _ _ _ L) in E1; [| apply NZ | exact W].
  assert (N : t_rise_us <> 0) by (rewrite E1; apply NZ).
  destruct (Z.eqb_spec t_rise_us 0); [contradiction |].
  destruct (Polling.fall_loop _ _ _ _ _ _ _ _) as [[t_fall_us h2] |] eqn:E2;
    [| discriminate].
  apply (fall_loop_stuck_high w _ _ _ L) in E2. subst t_fall_us.
  cbn [Z.eqb] in E. injection E as <-. split; reflexivity.
Qed.

Lemma world_ramp_high_never_zero : clock_never_zero world_ramp_high.
Proof.
  intros k. cbn [w_time world_ramp_high].
  rewrite wrap_small by (rewrite ULONG_MOD_eq; lia). lia.
Qed.

(** The clock of [world_ramp_high] leaves the window of the first shot
    within five readings. *)
Lemma world_ramp_high_leaves_window :
  leaves_window world_ramp_high 140000 30000 5.
Proof.
  intros i. exists (4 - i)%nat. split; [lia |].
  cbn [w_time world_ramp_high].
  assert (K : 4 <= Z.of_nat (Nat.min (i + (4 - i)) 50) <= 50) by lia.
  unfold usub.
  rewrite (wrap_small (100000 + _)) by (rewrite ULONG_MOD_eq; lia).
  rewrite wrap_small by (rewrite ULONG_MOD_eq; lia). lia.
Qed.

(** X9.  An echo line that never reads low, with a clock that never reads
    zero: every polling [read] that the guard allows and that checks the line
    at least once inside the window returns, once the clock has left the
    window of the shot, and answers Timeout-echo-end; the cell of the
    distance is as it was. *)
Theorem polling_echo_stuck_high_times_out (w : World) (bound fuel : nat)
    (out_cm : FloatRef) (st : Polling.State) :
  echo_stuck w HIGH ->
  clock_never_zero w ->
  ~ guard_denies w (Polling.cfg st) (Polling.hw st) ->
  usub (wrap (w_time w (3 + hw_ticks (Polling.hw st))))
       (wrap (w_time w (2 + hw_ticks (Polling.hw st)))) <
    getTimeoutUs (Polling.cfg st) ->
  leaves_window w (wrap (w_time w (2 + hw_ticks (Polling.hw st))))
    (getTimeoutUs (Polling.cfg st)) bound ->
  (bound <= fuel)%nat ->
  exists r,
    Polling.read w fuel out_cm st = Some r /\
    status_of r = HCSR04_ERR_TIMEOUT_ECHO_END /\ out_of r = out_cm.
Proof.
  intros L NZ D W LW B.
  destruct (polling_read_returns w bound fuel out_cm st LW B) as (r & E).
  exists r. split; [exact E |].
  exact (polling_stuck_high_status w fuel out_cm st r L NZ D W E).
Qed.

Lemma polling_echo_stuck_high_times_out_witness :
  exists r,
    Polling.read world_ramp_high 5 out0 polling_fresh = Some r /\
    status_of r = HCSR04_ERR_TIMEOUT_ECHO_END /\ out_of r = out0.
Proof.
  assert (L : echo_stuck world_ramp_high HIGH) by (intros k pin; reflexivity).
  assert (D : ~ guard_denies world_ramp_high (Polling.cfg polling_fresh)
                (Polling.hw polling_fresh))
    by (vm_compute; discriminate).
  assert (W : usub (wrap (w_time world_ramp_high
                            (3 + hw_ticks (Polling.hw polling_fresh))))
                (wrap (w_time world_ramp_high
                         (2 + hw_ticks (Polling.hw polling_fresh)))) <
              getTimeoutUs (Polling.cfg polling_fresh))
    by (vm_compute; reflexivity).
  exact (polling_echo_stuck_high_times_out world_ramp_high 5 5 out0
           polling_fresh L world_ramp_high_never_zero D W
           world_ramp_high_leaves_window (le_n 5)).
Defined.

(* ================================================================== *)
(** ** Further properties: the interrupt engine *)

Lemma isr_records_rise (w : World) (st : Interrupt.State) :
  Interrupt.s_waiting_rise st = true ->
  next_level w st = HIGH ->
  Interrupt.echoChangeISR_ w st =
  {| Interrupt.cfg := Interrupt.cfg st;
     Interrupt.s_waiting_rise := false;
     Interrupt.s_rise_us := next_micros w (Interrupt.hw st);
     Interrupt.s_fall_us := Interrupt.s_fall_us st;
     Interrupt.s_instance := Interrupt.s_instance st;
     Interrupt.hw := sampled (Interrupt.hw st) |}.
Proof.
  unfold next_level. intros W L.
  unfold Interrupt.echoChangeISR_, digitalRead. rewrite micros_eq, W, !L.
  reflexivity.
Qed.

Lemma isr_records_fall (w : World) (st : Interrupt.State) :
  Interrupt.s_waiting_rise st = false ->
  next_level w st = LOW ->
  Interrupt.echoChangeISR_ w st =
  {| Interrupt.cfg := Interrupt.cfg st;
     Interrupt.s_waiting_rise := true;
     Interrupt.s_rise_us := Interrupt.s_rise_us st;
     Interrupt.s_fall_us := next_micros w (Interrupt.hw st);
     Interrupt.s_instance := Interrupt.s_instance st;
     Interrupt.hw := sampled (Interrupt.hw st) |}.
Proof.
  unfold next_level. intros W L.
  unfold Interrupt.echoChangeISR_, digitalRead. rewrite micros_eq, W, !L.
  reflexivity.
Qed.

Lemma interrupt_read_arms (w : World) (out_cm : FloatRef) (st : Interrupt.State) :
  ~ guard_denies w (Interrupt.cfg st) (Interrupt.hw st) ->
  Interrupt.read w out_cm st = (HCSR04_ERR_NOT_READY, out_cm, armed w st).
Proof.
  intros D. rewrite interrupt_read_eq, arm_allowed by assumption.
  apply harvest_not_populated, armed_not_populated.
Qed.

Lemma interrupt_read_harvests (w : World) (out_cm : FloatRef)
    (st : Interrupt.State) :
  guard_denies w (Interrupt.cfg st) (Interrupt.hw st) ->
  populated st ->
  captured_high_us st <> 0 ->
  Interrupt.read w out_cm st =
  (HCSR04_OK,
   store (distance_cm (m_cm_per_us (Interrupt.cfg st)) (captured_high_us st)) out_cm,
   cleared (with_cfg_hw (Interrupt.cfg st) (tick (Interrupt.hw st)) st)).
Proof.
  intros D P N. rewrite interrupt_read_eq, arm_denied by assumption.
  cbn [snd]. rewrite harvest_populated by exact P.
  change (captured_high_us (with_cfg_hw _ _ st)) with (captured_high_us st).
  destruct (Z.eqb_spec (captured_high_us st) 0); [contradiction | reflexivity].
Qed.

Lemma interrupt_run4 (w : World) a b c d out_cm st :
  Interrupt.run w [a; b; c; d] out_cm st =
  let r1 := Interrupt.step w a out_cm st in
  let r2 := Interrupt.step w b (snd (fst r1)) (snd r1) in
  let r3 := Interrupt.step w c (snd (fst r2)) (snd r2) in
  let r4 := Interrupt.step w d (snd (fst r3)) (snd r3) in
  ([fst (fst r1); fst (fst r2); fst (fst r3); fst (fst r4)],
   snd (fst r4), snd r4).
Proof.
  cbn [Interrupt.run]. cbv zeta.
  destruct (Interrupt.step w a out_cm st) as [[x1 o1] s1]. cbn [fst snd].
  destruct (Interrupt.step w b o1 s1) as [[x2 o2] s2]. cbn [fst snd].
  destruct (Interrupt.step w c o2 s2) as [[x3 o3] s3]. cbn [fst snd].
  destruct (Interrupt.step w d o3 s3) as [[x4 o4] s4]. reflexivity.
Qed.

(** X10.  One whole shot of the interrupt engine, in any world: a [read] that
    the guard allows arms the shot and answers Not-ready; the callback sees
    the line high and records the rise, sees it low and records the fall;
    the next [read], inside the minimum cycle, answers OK and stores the
    distance of the high time, fall reading minus rise reading modulo 2^32,
    and leaves the edge capture cleared and awaiting a rise.  The two
    readings must not be zero nor equal.  The only output of the run is the
    one trigger pulse. *)
Theorem interrupt_shot_cycle (w : World) (out_cm : FloatRef) (st : Interrupt.State) :
  Interrupt.s_instance st = true ->
  ~ guard_denies w (Interrupt.cfg st) (Interrupt.hw st) ->
  w_level w (hw_samples (Interrupt.hw st)) (getEchoPin (Interrupt.cfg st)) = HIGH ->
  w_level w (S (hw_samples (Interrupt.hw st))) (getEchoPin (Interrupt.cfg st)) = LOW ->
  wrap (w_time w (2 + hw_ticks (Interrupt.hw st))) <> 0 ->
  wrap (w_time w (3 + hw_ticks (Interrupt.hw st))) <> 0 ->
  usub (wrap (w_time w (3 + hw_ticks (Interrupt.hw st))))
       (wrap (w_time w (2 + hw_ticks (Interrupt.hw st)))) <> 0 ->
  usub (wrap (w_time w (4 + hw_ticks (Interrupt.hw st))))
       (wrap (w_time w (1 + hw_ticks (Interrupt.hw st)))) <
    getMinCycleUs (Interrupt.cfg st) ->
  let r := Interrupt.run w
             [Interrupt.Read; Interrupt.EchoChange; Interrupt.EchoChange;
              Interrupt.Read] out_cm st in
  results_of r =
    [Some HCSR04_ERR_NOT_READY; None; None; Some HCSR04_OK] /\
  snd (fst r) =
    store (distance_cm (getSoundSpeed (Interrupt.cfg st))
             (usub (wrap (w_time w (3 + hw_ticks (Interrupt.hw st))))
                   (wrap (w_time w (2 + hw_ticks (Interrupt.hw st)))))) out_cm /\
  Interrupt.s_rise_us (snd r) = 0 /\
  Interrupt.s_fall_us (snd r) = 0 /\
  Interrupt.s_waiting_rise (snd r) = true /\
  hw_trace (Interrupt.hw (snd r)) =
    hw_trace (Interrupt.hw st) ++ trigger_pulse (getTrigPin (Interrupt.cfg st)).
Proof.
  intros I D L1 L2 N1 N2 N3 G r.
  unfold r. rewrite interrupt_run4. cbv zeta.
  rewrite interrupt_step_read, (interrupt_read_arms w out_cm st D).
  cbn [status_of out_of state_of fst snd].
  set (s1 := armed w st).
  assert (S1 : Interrupt.step w Interrupt.EchoChange out_cm s1 =
               (None, out_cm, Interrupt.echoChangeISR_ w s1)).
  { cbn [Interrupt.step]. unfold s1 at 1. cbn [armed Interrupt.s_instance].
    now rewrite I. }
  rewrite S1. cbn [fst snd].
  rewrite (isr_records_rise w s1) by (try reflexivity; exact L1).
  set (s2 := Interrupt.mkState _ false _ _ _ _).
  assert (S2 : Interrupt.step w Interrupt.EchoChange out_cm s2 =
               (None, out_cm, Interrupt.echoChangeISR_ w s2)).
  { cbn [Interrupt.step]. unfold s2 at 1. cbn [Interrupt.s_instance s1 armed].
    now rewrite I. }
  rewrite S2. cbn [fst snd].
  rewrite (isr_records_fall w s2) by (try reflexivity; exact L2).
  set (s3 := Interrupt.mkState _ true _ _ _ _).
  rewrite interrupt_step_read.
  rewrite (interrupt_read_harvests w out_cm s3).
  - cbn. repeat split; reflexivity.
  - exact G.
  - split; [exact N1 | exact N2].
  - exact N3.
Qed.

Lemma interrupt_shot_cycle_witness :
  results_of
    (Interrupt.run world_echo_600us
       [Interrupt.Read; Interrupt.EchoChange; Interrupt.EchoChange;
        Interrupt.Read] out0 interrupt_begun) =
  [Some HCSR04_ERR_NOT_READY; None; None; Some HCSR04_OK].
Proof.
  apply (interrupt_shot_cycle world_echo_600us out0 interrupt_begun);
    vm_compute; try reflexivity; discriminate.
Defined.



(** The other side of the condition: with the echo line high and low again
    during the trigger pulse, the callback records both edges after the
    reset, and the very read that armed the shot answers OK. *)
Example interrupt_read_preempted_in_pulse :
  ~ guard_denies world_edges_in_pulse (Interrupt.cfg interrupt_begun)
      (Interrupt.hw interrupt_begun) /\
  Interrupt.read world_edges_in_pulse out0 interrupt_begun =
    (HCSR04_ERR_NOT_READY, out0, armed world_edges_in_pulse interrupt_begun) /\
  status_of (Interrupt.read_preempted world_edges_in_pulse preempt_in_pulse
               out0 interrupt_begun) = HCSR04_OK /\
  out_of (Interrupt.read_preempted world_edges_in_pulse preempt_in_pulse
            out0 interrupt_begun) = store (distance_cm HCSR04_CM_PER_US 4) out0 /\
  status_of (Interrupt.read_preempted world_edges_in_pulse preempt_in_pulse
               out0 interrupt_no_cycle) = HCSR04_OK.
Proof.
  split; [vm_compute; discriminate |].
  repeat split; vm_compute; reflexivity.
Qed.




Lemma interrupt_run3 (w : World) a b c out_cm st :
  Interrupt.run w [a; b; c] out_cm st =
  let r1 := Interrupt.step w a out_cm st in
  let r2 := Interrupt.step w b (snd (fst r1)) (snd r1) in
  let r3 := Interrupt.step w c (snd (fst r2)) (snd r2) in
  ([fst (fst r1); fst (fst r2); fst (fst r3)], snd (fst r3), snd r3).
Proof.
  cbn [Interrupt.run]. cbv zeta.
  destruct (Interrupt.step w a out_cm st) as [[x1 o1] s1]. cbn [fst snd].
  destruct (Interrupt.step w b o1 s1) as [[x2 o2] s2]. cbn [fst snd].
  destruct (Interrupt.step w c o2 s2) as [[x3 o3] s3]. reflexivity.
Qed.

Lemma interrupt_run2 (w : World) a b out_cm st :
  Interrupt.run w [a; b] out_cm st =
  let r1 := Interrupt.step w a out_cm st in
  let r2 := Interrupt.step w b (snd (fst r1)) (snd r1) in
  ([fst (fst r1); fst (fst r2)], snd (fst r2), snd r2).
Proof.
  cbn [Interrupt.run]. cbv zeta.
  destruct (Interrupt.step w a out_cm st) as [[x1 o1] s1]. cbn [fst snd].
  destruct (Interrupt.step w b o1 s1) as [[x2 o2] s2]. reflexivity.
Qed.

Lemma interrupt_step_echo (w : World) (out_cm : FloatRef) (st : Interrupt.State) :
  Interrupt.s_instance st = true ->
  Interrupt.step w Interrupt.EchoChange out_cm st =
  (None, out_cm, Interrupt.echoChangeISR_ w st).
Proof. intros I. cbn [Interrupt.step]. now rewrite I. Qed.

(** X13.  The interrupt engine reads a timestamp of zero as "no edge": when
    the callback records the rising edge at a clock reading of zero (the
    instant the 32-bit clock wraps), then the falling edge, the [read] that
    follows answers Not-ready and stores nothing, and so do the reads after
    it until new edges come. *)
Theorem interrupt_rise_at_clock_zero_lost (w : World) (out_cm : FloatRef)
    (st : Interrupt.State) :
  Interrupt.s_instance st = true ->
  Interrupt.s_waiting_rise st = true ->
  w_level w (hw_samples (Interrupt.hw st)) (getEchoPin (Interrupt.cfg st)) = HIGH ->
  w_level w (S (hw_samples (Interrupt.hw st))) (getEchoPin (Interrupt.cfg st)) = LOW ->
  wrap (w_time w (hw_ticks (Interrupt.hw st))) = 0 ->
  let r := Interrupt.run w
             [Interrupt.EchoChange; Interrupt.EchoChange; Interrupt.Read]
             out_cm st in
  results_of r = [None; None; Some HCSR04_ERR_NOT_READY] /\
  snd (fst r) = out_cm /\
  (forall n out2,
      results_of (Interrupt.run w (repeat Interrupt.Read n) out2 (snd r)) =
      repeat (Some HCSR04_ERR_NOT_READY) n).
Proof.
  intros I W L1 L2 Z r. unfold r. rewrite interrupt_run3. cbv zeta.
  rewrite (interrupt_step_echo w out_cm st I). cbn [fst snd].
  rewrite (isr_records_rise w st W L1).
  set (s1 := Interrupt.mkState _ false _ _ _ _).
  rewrite (interrupt_step_echo w out_cm s1 I). cbn [fst snd].
  rewrite (isr_records_fall w s1) by (try reflexivity; exact L2).
  set (s2 := Interrupt.mkState _ true _ _ _ _).
  assert (N : ~ populated s2).
  { unfold populated, s2, s1, next_micros. cbn. rewrite Z. tauto. }
  rewrite interrupt_step_read, (interrupt_read_not_ready w out_cm s2 N).
  cbn [results_of status_of out_of state_of fst snd].
  split; [reflexivity |]. split; [reflexivity |].
  intros n out2. apply interrupt_reads_not_ready.
  now apply not_populated_after_arm.
Qed.

Lemma interrupt_rise_at_clock_zero_lost_witness :
  results_of
    (Interrupt.run world_isr_rise_at_zero
       [Interrupt.EchoChange; Interrupt.EchoChange; Interrupt.Read]
       out0 interrupt_armed_before_wrap) =
  [None; None; Some HCSR04_ERR_NOT_READY].
Proof.
  apply (interrupt_rise_at_clock_zero_lost world_isr_rise_at_zero out0
           interrupt_armed_before_wrap); vm_compute; reflexivity.
Defined.

(** X14.  The harvest of the interrupt engine looks only at whether both
    timestamps are non-zero, not at their order: when a fall timestamp is
    pending and the line rises again before a [read] took it, the callback
    overwrites the rise, and a [read] inside the minimum cycle answers OK
    with the distance of the old fall minus the new rise modulo 2^32. *)
Theorem interrupt_second_rise_before_harvest (w : World) (out_cm : FloatRef)
    (st : Interrupt.State) :
  Interrupt.s_instance st = true ->
  Interrupt.s_waiting_rise st = true ->
  Interrupt.s_fall_us st <> 0 ->
  w_level w (hw_samples (Interrupt.hw st)) (getEchoPin (Interrupt.cfg st)) = HIGH ->
  wrap (w_time w (hw_ticks (Interrupt.hw st))) <> 0 ->
  usub (Interrupt.s_fall_us st) (wrap (w_time w (hw_ticks (Interrupt.hw st)))) <> 0 ->
  usub (wrap (w_time w (S (hw_ticks (Interrupt.hw st)))))
       (getLastShotTimestampUs (Interrupt.cfg st)) <
    getMinCycleUs (Interrupt.cfg st) ->
  let r := Interrupt.run w [Interrupt.EchoChange; Interrupt.Read] out_cm st in
  results_of r = [None; Some HCSR04_OK] /\
  snd (fst r) =
    store (distance_cm (getSoundSpeed (Interrupt.cfg st))
             (usub (Interrupt.s_fall_us st)
                   (wrap (w_time w (hw_ticks (Interrupt.hw st)))))) out_cm.
Proof.
  intros I W F L N1 N2 G r. unfold r. rewrite interrupt_run2. cbv zeta.
  rewrite (interrupt_step_echo w out_cm st I). cbn [fst snd].
  rewrite (isr_records_rise w st W L).
  set (s1 := Interrupt.mkState _ false _ _ _ _).
  rewrite interrupt_step_read, (interrupt_read_harvests w out_cm s1).
  - split; reflexivity.
  - exact G.
  - split; [exact N1 | exact F].
  - exact N2.
Qed.

Lemma interrupt_second_rise_before_harvest_witness :
  results_of
    (Interrupt.run world_second_pulse [Interrupt.EchoChange; Interrupt.Read]
       out0 interrupt_second_captured) = [None; Some HCSR04_OK] /\
  captured_high_us interrupt_second_captured = 600 /\
  usub (Interrupt.s_fall_us interrupt_second_captured)
       (wrap (w_time world_second_pulse
                (hw_ticks (Interrupt.hw interrupt_second_captured)))) =
    4294966896.
Proof.
  split; [| split; vm_compute; reflexivity].
  apply (interrupt_second_rise_before_harvest world_second_pulse out0
           interrupt_second_captured); vm_compute; try reflexivity; discriminate.
Defined.

(** X15.  [begin] of the interrupt engine answers OK, leaves the object as
    it was, sets the two pin modes, drives the trigger pin low and attaches
    the callback to the echo pin; it also resets the edge capture, so a
    [begin] called again throws away what the callback had captured: the
    reads that follow it with no new edge answer Not-ready. *)
Theorem interrupt_begin_discards (w : World) (out_cm : FloatRef)
    (st : Interrupt.State) :
  fst (Interrupt.begin st) = HCSR04_OK /\
  Interrupt.cfg (snd (Interrupt.begin st)) = Interrupt.cfg st /\
  hw_trace (Interrupt.hw (snd (Interrupt.begin st))) =
    hw_trace (Interrupt.hw st) ++
    [EPinMode (getTrigPin (Interrupt.cfg st)) OUTPUT;
     EPinMode (getEchoPin (Interrupt.cfg st)) INPUT;
     EDigitalWrite (getTrigPin (Interrupt.cfg st)) LOW;
     EAttachInterrupt (getEchoPin (Interrupt.cfg st))] /\
  status_of (Interrupt.read w out_cm (snd (Interrupt.begin st))) =
    HCSR04_ERR_NOT_READY /\
  out_of (Interrupt.read w out_cm (snd (Interrupt.begin st))) = out_cm /\
  (forall n out2,
      results_of
        (Interrupt.run w (Interrupt.Begin :: repeat Interrupt.Read n) out2 st) =
      Some HCSR04_OK :: repeat (Some HCSR04_ERR_NOT_READY) n).
Proof.
  assert (N : ~ populated (snd (Interrupt.begin st))).
  { unfold populated. cbn. tauto. }
  split; [reflexivity |]. split; [reflexivity |].
  split.
  { cbn. unfold attachInterrupt, digitalWrite, pinMode, emit. cbn.
    rewrite <- !app_assoc. reflexivity. }
  rewrite (interrupt_read_not_ready w out_cm _ N).
  split; [reflexivity |]. split; [reflexivity |].
  intros n out2. rewrite interrupt_run_cons. cbn [Interrupt.step fst snd].
  f_equal. now apply interrupt_reads_not_ready.
Qed.

(* ================================================================== *)
(** ** Further properties: the distance as a float *)

Lemma shr_1_nonneg (mrs : shr_record) : 0 <= shr_m mrs -> 0 <= shr_m (shr_1 mrs).
Proof.
  destruct mrs as [m r s]. cbn [shr_m shr_1].
  destruct m as [| p | p]; [| destruct p | lia]; cbn; lia.
Qed.

Lemma iter_shr_1_nonneg (p : positive) :
  forall mrs, 0 <= shr_m mrs -> 0 <= shr_m (iter_pos shr_1 p mrs).
Proof.
  induction p as [p IH | p IH |]; intros mrs H; cbn [iter_pos].
  - apply IH, IH, shr_1_nonneg, H.
  - apply IH, IH, H.
  - apply shr_1_nonneg, H.
Qed.

Lemma shr_fexp_nonneg (m e : Z) (l : location) :
  0 <= m -> 0 <= shr_m (fst (shr_fexp F32_PREC F32_EMAX m e l)).
Proof.
  intros H. unfold shr_fexp, shr.
  assert (R : 0 <= shr_m (shr_record_of_loc m l)).
  { destruct l as [| c]; [| destruct c]; exact H. }
  destruct (fexp F32_PREC F32_EMAX (Zdigits2 m + e) - e) as [| p | p];
    cbn [fst]; try exact R.
  now apply iter_shr_1_nonneg.
Qed.

Lemma round_nearest_even_nonneg (m : Z) (l : location) :
  0 <= m -> 0 <= round_nearest_even m l.
Proof.
  intros H. unfold round_nearest_even.
  destruct l as [| c]; [| destruct c]; try lia.
  destruct (Z.even m); lia.
Qed.

Lemma binary_round_aux_nonneg (m e : Z) (l : location) :
  0 <= m -> f32_nonneg (binary_round_aux F32_PREC F32_EMAX false m e l) = true.
Proof.
  intros H. unfold binary_round_aux.
  pose proof (shr_fexp_nonneg m e l H) as H1.
  destruct (shr_fexp F32_PREC F32_EMAX m e l) as [mrs' e']. cbn [fst] in H1.
  pose proof (shr_fexp_nonneg
                (round_nearest_even (shr_m mrs') (loc_of_shr_record mrs')) e'
                loc_Exact (round_nearest_even_nonneg _ _ H1)) as H2.
  destruct (shr_fexp F32_PREC F32_EMAX _ e' loc_Exact) as [mrs'' e''].
  cbn [fst] in H2.
  destruct (shr_m mrs'') as [| p | p]; [reflexivity | | lia].
  destruct (e'' <=? F32_EMAX - F32_PREC); reflexivity.
Qed.

Lemma f32_of_Z_nonneg (n : Z) : 0 <= n -> f32_nonneg (f32_of_Z n) = true.
Proof.
  intros H. unfold f32_of_Z, binary_normalize.
  destruct n as [| p | p]; [reflexivity | | lia].
  unfold binary_round.
  destruct (shl_align p 0 _) as [mz ez]. now apply binary_round_aux_nonneg.
Qed.

Lemma f32_mul_nonneg_finite (x : float) (m : positive) (e : Z) :
  f32_nonneg x = true -> f32_nonneg (f32_mul x (S754_finite false m e)) = true.
Proof.
  destruct x as [s | s | | s mx ex]; try destruct s; cbn [f32_nonneg];
    try discriminate; intros _; try reflexivity.
  unfold f32_mul, SFmul. cbn [xorb]. now apply binary_round_aux_nonneg.
Qed.

Lemma accepted_speed_finite (v : float) :
  f32_ltb F_0_02 v = true -> f32_ltb v F_0_06 = true ->
  exists m e, v = S754_finite false m e.
Proof.
  unfold f32_ltb, SFltb.
  destruct v as [s | s | | s m e]; try destruct s; cbn [SFcompare F_0_02 F_0_06];
    intros H1 H2; try discriminate.
  now exists m, e.
Qed.

(** X16.  With a speed of sound that [setSoundSpeed] accepts, the distance
    that [timeUsToCm_] stores for a positive high time is never NaN and
    never negative (its sign bit is clear).  The conversion itself does not
    check the speed: with the speed NaN, which the constructor takes, it
    answers OK and stores NaN. *)
Theorem distance_never_nan_nor_negative (self : IHCSR04) (echo_high_us : Z)
    (out_cm : FloatRef) :
  f32_ltb F_0_02 (getSoundSpeed self) = true ->
  f32_ltb (getSoundSpeed self) F_0_06 = true ->
  0 < echo_high_us ->
  fst (timeUsToCm_ self echo_high_us out_cm) = HCSR04_OK /\
  f32_nonneg (deref (snd (timeUsToCm_ self echo_high_us out_cm))) = true /\
  deref (snd (timeUsToCm_ self echo_high_us out_cm)) <> S754_nan /\
  (forall trig_pin echo_pin timeout_us min_cycle_us,
      timeUsToCm_ (IHCSR04_new trig_pin echo_pin timeout_us S754_nan min_cycle_us)
        echo_high_us out_cm = (HCSR04_OK, store S754_nan out_cm)).
Proof.
  unfold getSoundSpeed. intros S1 S2 H.
  destruct (accepted_speed_finite _ S1 S2) as (m & e & Ev).
  rewrite timeUsToCm_nonzero by lia. cbn [fst snd deref store].
  assert (N : f32_nonneg (distance_cm (m_cm_per_us self) echo_high_us) = true).
  { unfold distance_cm, F_0_5. rewrite Ev.
    apply f32_mul_nonneg_finite, f32_mul_nonneg_finite, f32_of_Z_nonneg. lia. }
  split; [reflexivity |]. split; [exact N |].
  split; [intros E; rewrite E in N; discriminate |].
  intros trig_pin echo_pin timeout_us min_cycle_us.
  rewrite timeUsToCm_nonzero by lia.
  unfold distance_cm, IHCSR04_new. cbn [m_cm_per_us].
  assert (M : forall x, f32_mul x S754_nan = S754_nan)
    by (intros x; destruct x; reflexivity).
  now rewrite M.
Qed.

Lemma distance_never_nan_nor_negative_witness :
  f32_nonneg
    (deref (snd (timeUsToCm_ (IHCSR04_new_default 9 8) 600 out0))) = true.
Proof.
  apply (distance_never_nan_nor_negative (IHCSR04_new_default 9 8) 600 out0);
    reflexivity.
Defined.
